(** * Lchat: conversations, branches, credentials and provider dispatch

    A shallow embedding of the Convex backend of the chat client:
    - [convex/conversations.ts]  (message log, branching, cascade delete),
    - [convex/settings.ts]       (API-key store),
    - [convex/aiProviders.ts]    (the [sendMessage] / [testApiKey] actions),
    over a small model of the Convex document store. *)

From Stdlib Require Import String Ascii NArith List Arith Bool Lia.
From Stdlib Require Import Floats.PrimFloat.
From Stdlib Require Import Sorting.Sorted Sorting.Permutation.
Import ListNotations.

Set Implicit Arguments.

(* ===================================================================== *)
(** * JavaScript strings *)
(* ===================================================================== *)

(** A JavaScript string is a sequence of UTF-16 code units; [length] and
    [substring] of the source count code units, so does the model. *)
Definition code_unit := N.
Definition jsstring := list code_unit.

(** A string literal of the source. *)
Definition lit (s : string) : jsstring :=
  map N_of_ascii (list_ascii_of_string s).

(** [a === b] on strings. *)
Fixpoint str_eqb (a b : jsstring) : bool :=
  match a, b with
  | [], [] => true
  | x :: a', y :: b' => N.eqb x y && str_eqb a' b'
  | _, _ => false
  end.

(** [s.substring(0, n)] for [0 <= n]. *)
Definition substring0 (n : nat) (s : jsstring) : jsstring := firstn n s.

(* ===================================================================== *)
(** * Data model (convex/schema.ts) *)
(* ===================================================================== *)

(** Document identifiers.  Convex never hands out the same [_id] twice;
    the store below allocates them from one counter. *)
Definition Id := nat.
Definition UserId := nat.

Record ApiKey := mkApiKey {
  ak_id : Id;
  ak_userId : UserId;
  ak_provider : jsstring;
  ak_apiKey : jsstring;
  ak_isActive : bool
}.

Record Conversation := mkConversation {
  c_id : Id;
  c_userId : UserId;
  c_title : jsstring;
  c_parentBranchId : option Id;
  c_branchFromMessageId : option Id
}.

Record Message := mkMessage {
  m_id : Id;
  m_conversationId : Id;
  m_content : jsstring;
  m_role : jsstring;
  m_provider : option jsstring;
  m_model : option jsstring;
  m_messageIndex : nat;
  m_parentMessageId : option Id
}.

Record Branch := mkBranch {
  b_id : Id;
  b_userId : UserId;
  b_parentConversationId : Id;
  b_branchConversationId : Id;
  b_branchFromMessageId : Id;
  b_name : jsstring;
  b_isActive : bool
}.

(** The database: one list of documents per table, in creation order, and
    the next identifier to hand out.  (The [userSettings] table is read and
    written only by the settings getters and setters, which touch no other
    table; it is left out.) *)
Record DB := mkDB {
  apiKeys : list ApiKey;
  conversations : list Conversation;
  messages : list Message;
  branches : list Branch;
  next_id : Id
}.

Definition empty_db : DB := mkDB [] [] [] [] 0.

Definition set_apiKeys (t : list ApiKey) (db : DB) : DB :=
  mkDB t (conversations db) (messages db) (branches db) (next_id db).
Definition set_conversations (t : list Conversation) (db : DB) : DB :=
  mkDB (apiKeys db) t (messages db) (branches db) (next_id db).
Definition set_messages (t : list Message) (db : DB) : DB :=
  mkDB (apiKeys db) (conversations db) t (branches db) (next_id db).
Definition set_branches (t : list Branch) (db : DB) : DB :=
  mkDB (apiKeys db) (conversations db) (messages db) t (next_id db).
Definition bump (db : DB) : DB :=
  mkDB (apiKeys db) (conversations db) (messages db) (branches db)
       (S (next_id db)).

(* ===================================================================== *)
(** * Errors and the transaction monad *)
(* ===================================================================== *)

(** Every failure of the source is a thrown [Error]; one constructor per
    message template. *)
Inductive error :=
| NotAuthenticated                       (* "Not authenticated" *)
| ConversationNotFound                   (* "Conversation not found" *)
| ParentConversationNotFound             (* "Parent conversation not found" *)
| BranchMessageNotFound                  (* "Branch message not found" *)
| ApiKeyNotFound                         (* "API key not found" *)
| NoApiKeyFound (provider : jsstring)    (* `No API key found for provider: ${provider}` *)
| UnsupportedProvider (provider : jsstring) (* `Unsupported provider: ${provider}` *)
| ApiError (status : N) (body : jsstring)   (* `API Error: ${status} - ${error}` *)
| GoogleApiError (status : N) (body : jsstring) (* `Google API Error: ${status} - ${error}` *)
| FetchFailed                            (* fetch() rejected *)
| MalformedResponse                      (* TypeError / SyntaxError while reading the reply *)
| ArgumentValidationError                (* a mutation argument fails its validator *)
| NonexistentDocument (id : Id)          (* db.patch / db.delete on a missing document *)
| FailedToGetResponse (provider : jsstring) (cause : error).
                                         (* `Failed to get response from ${provider}: ${error}` *)

Inductive result (A : Type) :=
| Ok (a : A)
| Err (e : error).
Arguments Err {A} e.

(** A query or mutation handler: it runs against the database and either
    returns a value and the new database or throws.  A mutation is a
    transaction: when it throws, no new database comes out of it. *)
Definition M (A : Type) := DB -> result (A * DB).

Definition ret {A} (a : A) : M A := fun db => Ok (a, db).
Definition throw {A} (e : error) : M A := fun _ => Err e.
Definition bind {A B} (m : M A) (k : A -> M B) : M B :=
  fun db => match m db with
            | Ok (a, db') => k a db'
            | Err e => Err e
            end.

Declare Scope tx_scope.
Delimit Scope tx_scope with tx.
Notation "x <- m ;; k" := (bind m (fun x => k))
  (at level 61, m at next level, right associativity) : tx_scope.
Notation "m ;;; k" := (bind m (fun _ => k))
  (at level 61, right associativity) : tx_scope.
Open Scope tx_scope.

(** [for (const x of xs) { await body(x) }] *)
Fixpoint for_each {A} (xs : list A) (body : A -> M unit) : M unit :=
  match xs with
  | [] => ret tt
  | x :: xs' => body x ;;; for_each xs' body
  end.

(** [getAuthUserId(ctx)] followed by [if (!userId) throw ...]. *)
Definition getAuthUserId (auth : option UserId) : M UserId :=
  match auth with
  | Some u => ret u
  | None => throw NotAuthenticated
  end.

(* ===================================================================== *)
(** * The document store *)
(* ===================================================================== *)

Section Table.
Variable A : Type.
Variable id_of : A -> Id.

(** [ctx.db.get(id)] *)
Definition tbl_get (i : Id) (t : list A) : option A :=
  find (fun r => id_of r =? i) t.

(** [ctx.db.delete(id)]: the document must exist. *)
Definition tbl_delete (i : Id) (t : list A) : option (list A) :=
  match tbl_get i t with
  | Some _ => Some (filter (fun r => negb (id_of r =? i)) t)
  | None => None
  end.

(** [ctx.db.patch(id, fields)]: the document must exist. *)
Definition tbl_patch (i : Id) (f : A -> A) (t : list A) : option (list A) :=
  match tbl_get i t with
  | Some _ => Some (map (fun r => if id_of r =? i then f r else r) t)
  | None => None
  end.
End Table.

Definition get_conversation (i : Id) : M (option Conversation) :=
  fun db => Ok (tbl_get c_id i (conversations db), db).
Definition get_message (i : Id) : M (option Message) :=
  fun db => Ok (tbl_get m_id i (messages db), db).
Definition get_apiKey (i : Id) : M (option ApiKey) :=
  fun db => Ok (tbl_get ak_id i (apiKeys db), db).

Definition insert_conversation (mk : Id -> Conversation) : M Id :=
  fun db => Ok (next_id db,
                bump (set_conversations (conversations db ++ [mk (next_id db)]) db)).
Definition insert_message (mk : Id -> Message) : M Id :=
  fun db => Ok (next_id db,
                bump (set_messages (messages db ++ [mk (next_id db)]) db)).
Definition insert_branch (mk : Id -> Branch) : M Id :=
  fun db => Ok (next_id db,
                bump (set_branches (branches db ++ [mk (next_id db)]) db)).
Definition insert_apiKey (mk : Id -> ApiKey) : M Id :=
  fun db => Ok (next_id db,
                bump (set_apiKeys (apiKeys db ++ [mk (next_id db)]) db)).

Definition delete_message (i : Id) : M unit :=
  fun db => match tbl_delete m_id i (messages db) with
            | Some t => Ok (tt, set_messages t db)
            | None => Err (NonexistentDocument i)
            end.
Definition delete_conversation (i : Id) : M unit :=
  fun db => match tbl_delete c_id i (conversations db) with
            | Some t => Ok (tt, set_conversations t db)
            | None => Err (NonexistentDocument i)
            end.
Definition delete_branch (i : Id) : M unit :=
  fun db => match tbl_delete b_id i (branches db) with
            | Some t => Ok (tt, set_branches t db)
            | None => Err (NonexistentDocument i)
            end.
Definition delete_apiKey (i : Id) : M unit :=
  fun db => match tbl_delete ak_id i (apiKeys db) with
            | Some t => Ok (tt, set_apiKeys t db)
            | None => Err (NonexistentDocument i)
            end.

Definition patch_conversation (i : Id) (f : Conversation -> Conversation) : M unit :=
  fun db => match tbl_patch c_id i f (conversations db) with
            | Some t => Ok (tt, set_conversations t db)
            | None => Err (NonexistentDocument i)
            end.
Definition patch_apiKey (i : Id) (f : ApiKey -> ApiKey) : M unit :=
  fun db => match tbl_patch ak_id i f (apiKeys db) with
            | Some t => Ok (tt, set_apiKeys t db)
            | None => Err (NonexistentDocument i)
            end.

(** [{ title }] and [{ isActive: false }] as patches. *)
Definition with_title (title : jsstring) (c : Conversation) : Conversation :=
  mkConversation (c_id c) (c_userId c) title
                 (c_parentBranchId c) (c_branchFromMessageId c).
Definition with_isActive (b : bool) (k : ApiKey) : ApiKey :=
  mkApiKey (ak_id k) (ak_userId k) (ak_provider k) (ak_apiKey k) b.

(** Stable sort by [messageIndex]: the order of an index on
    [(conversationId, messageIndex)] among equal [conversationId]s (ties in
    creation order), and of
    [.sort((a, b) => a.messageIndex - b.messageIndex)]. *)
Fixpoint insert_by_index (x : Message) (l : list Message) : list Message :=
  match l with
  | [] => [x]
  | y :: l' => if m_messageIndex x <=? m_messageIndex y
               then x :: y :: l'
               else y :: insert_by_index x l'
  end.
Fixpoint sort_by_index (l : list Message) : list Message :=
  match l with
  | [] => []
  | x :: l' => insert_by_index x (sort_by_index l')
  end.

(** The messages of a conversation, in creation order. *)
Definition messages_of (cid : Id) (db : DB) : list Message :=
  filter (fun m => m_conversationId m =? cid) (messages db).

(** [query("messages").withIndex("by_conversation",
      q => q.eq("conversationId", cid)).collect()] *)
Definition by_conversation (cid : Id) : M (list Message) :=
  fun db => Ok (sort_by_index (messages_of cid db), db).

(** [query("branches").withIndex("by_parent",
      q => q.eq("parentConversationId", cid)).collect()] *)
Definition branches_of (cid : Id) (db : DB) : list Branch :=
  filter (fun b => b_parentConversationId b =? cid) (branches db).
Definition by_parent (cid : Id) : M (list Branch) :=
  fun db => Ok (branches_of cid db, db).

(** [query("apiKeys").withIndex("by_user", q => q.eq("userId", userId))
      .filter(q => q.eq(q.field("provider"), provider))] *)
Definition keys_of (u : UserId) (provider : jsstring) (db : DB) : list ApiKey :=
  filter (fun k => str_eqb (ak_provider k) provider)
         (filter (fun k => ak_userId k =? u) (apiKeys db)).

(* ===================================================================== *)
(** * convex/conversations.ts *)
(* ===================================================================== *)

Definition default_title : jsstring := lit "New Conversation".
Definition role_user : jsstring := lit "user".
Definition role_assistant : jsstring := lit "assistant".

(** [ctx.db.get(conversationId)] followed by
    [if (!conversation || conversation.userId !== userId) throw ...]. *)
Definition owned_conversation (userId : UserId) (conversationId : Id)
    (e : error) : M Conversation :=
  conversation <- get_conversation conversationId ;;
  match conversation with
  | Some c => if c_userId c =? userId then ret c else throw e
  | None => throw e
  end.

(** [getConversation]: the conversation and its messages. *)
Definition getConversation (auth : option UserId) (conversationId : Id)
    : M (Conversation * list Message) :=
  userId <- getAuthUserId auth ;;
  conversation <- owned_conversation userId conversationId ConversationNotFound ;;
  msgs <- by_conversation conversationId ;;
  ret (conversation, msgs).

Definition createConversation (auth : option UserId) (title : jsstring)
    (parentBranchId branchFromMessageId : option Id) : M Id :=
  userId <- getAuthUserId auth ;;
  insert_conversation
    (fun i => mkConversation i userId title parentBranchId branchFromMessageId).

Definition updateConversation (auth : option UserId) (conversationId : Id)
    (title : jsstring) : M unit :=
  userId <- getAuthUserId auth ;;
  _ <- owned_conversation userId conversationId ConversationNotFound ;;
  patch_conversation conversationId (with_title title).

(** The title derived from a first user message. *)
Definition derived_title (content : jsstring) : jsstring :=
  if 50 <? length content
  then substring0 50 content ++ lit "..."
  else content.

Definition addMessage (auth : option UserId) (conversationId : Id)
    (content role : jsstring) (provider model : option jsstring) : M Id :=
  userId <- getAuthUserId auth ;;
  conversation <- owned_conversation userId conversationId ConversationNotFound ;;
  msgs <- by_conversation conversationId ;;
  let messageIndex := length msgs in
  (if (messageIndex =? 0) && str_eqb role role_user
      && str_eqb (c_title conversation) default_title
   then patch_conversation conversationId (with_title (derived_title content))
   else ret tt) ;;;
  insert_message
    (fun i => mkMessage i conversationId content role provider model
                        messageIndex None).

(** The body of the copy loops of [createBranch] and
    [duplicateConversation]. *)
Definition copy_message (target : Id) (msg : Message) : M unit :=
  _ <- insert_message
         (fun i => mkMessage i target (m_content msg) (m_role msg)
                             (m_provider msg) (m_model msg)
                             (m_messageIndex msg) None) ;;
  ret tt.

Definition createBranch (auth : option UserId) (parentConversationId : Id)
    (branchFromMessageId : Id) (branchName : jsstring) : M (Id * Id) :=
  userId <- getAuthUserId auth ;;
  parentConversation <-
    owned_conversation userId parentConversationId ParentConversationNotFound ;;
  branchMessage <- get_message branchFromMessageId ;;
  match branchMessage with
  | None => throw BranchMessageNotFound
  | Some branchMessage =>
    if negb (m_conversationId branchMessage =? parentConversationId)
    then throw BranchMessageNotFound
    else
      branchConversationId <-
        insert_conversation
          (fun i => mkConversation i userId
                      (c_title parentConversation ++ lit " - " ++ branchName)
                      None (Some branchFromMessageId)) ;;
      parentMessages <- by_conversation parentConversationId ;;
      let messagesToCopy :=
        sort_by_index
          (filter (fun msg => m_messageIndex msg <=? m_messageIndex branchMessage)
                  parentMessages) in
      for_each messagesToCopy (copy_message branchConversationId) ;;;
      branchId <-
        insert_branch
          (fun i => mkBranch i userId parentConversationId branchConversationId
                             branchFromMessageId branchName true) ;;
      ret (branchId, branchConversationId)
  end.

Definition getBranches (auth : option UserId) (conversationId : Id)
    : M (list Branch) :=
  _ <- getAuthUserId auth ;;
  by_parent conversationId.

(** The body of the loop of [deleteConversation] over the branches rooted
    at the conversation. *)
Definition delete_branch_target (branch : Branch) : M unit :=
  branchMessages <- by_conversation (b_branchConversationId branch) ;;
  for_each branchMessages (fun message => delete_message (m_id message)) ;;;
  delete_conversation (b_branchConversationId branch) ;;;
  delete_branch (b_id branch).

Definition deleteConversation (auth : option UserId) (conversationId : Id)
    : M unit :=
  userId <- getAuthUserId auth ;;
  _ <- owned_conversation userId conversationId ConversationNotFound ;;
  msgs <- by_conversation conversationId ;;
  for_each msgs (fun message => delete_message (m_id message)) ;;;
  brs <- by_parent conversationId ;;
  for_each brs delete_branch_target ;;;
  delete_conversation conversationId.

Definition duplicateConversation (auth : option UserId) (conversationId : Id)
    : M Id :=
  userId <- getAuthUserId auth ;;
  conversation <- owned_conversation userId conversationId ConversationNotFound ;;
  newConversationId <-
    insert_conversation
      (fun i => mkConversation i userId (c_title conversation ++ lit " (Copy)")
                               None None) ;;
  msgs <- by_conversation conversationId ;;
  let sortedMessages := sort_by_index msgs in
  for_each sortedMessages (copy_message newConversationId) ;;;
  ret newConversationId.

(* ===================================================================== *)
(** * convex/settings.ts: the API-key store *)
(* ===================================================================== *)

(** [getApiKey]: the first active key of the user for the provider, or
    [null]. *)
Definition getApiKey (auth : option UserId) (provider : jsstring)
    : M (option ApiKey) :=
  userId <- getAuthUserId auth ;;
  fun db => Ok (hd_error (filter ak_isActive (keys_of userId provider db)), db).

Definition saveApiKey (auth : option UserId) (provider apiKey : jsstring)
    : M Id :=
  userId <- getAuthUserId auth ;;
  existingKeys <- (fun db => Ok (keys_of userId provider db, db)) ;;
  for_each existingKeys
    (fun key => patch_apiKey (ak_id key) (with_isActive false)) ;;;
  insert_apiKey (fun i => mkApiKey i userId provider apiKey true).

Definition deleteApiKey (auth : option UserId) (keyId : Id) : M unit :=
  userId <- getAuthUserId auth ;;
  apiKey <- get_apiKey keyId ;;
  match apiKey with
  | Some k => if ak_userId k =? userId then delete_apiKey keyId
              else throw ApiKeyNotFound
  | None => throw ApiKeyNotFound
  end.

(* ===================================================================== *)
(** * convex/aiProviders.ts *)
(* ===================================================================== *)

(** [{ role, content }] *)
Record api_message := mkApiMessage {
  am_role : jsstring;
  am_content : jsstring
}.

(** [{ role, parts: [{ text }] }] *)
Record google_content := mkGoogleContent {
  gc_role : jsstring;
  gc_text : jsstring
}.

(** The two requests the adapter can send ([temperature: 0.7] and the
    2000-token limit are constants of both bodies). *)
Inductive request :=
| ChatCompletions (baseURL apiKey model : jsstring)
                  (msgs : list api_message)
    (* POST `${baseURL}/chat/completions`, bearer apiKey, body { model, messages } *)
| GenerateContent (apiKey model : jsstring) (contents : list google_content).
    (* POST `.../models/${model}:generateContent?key=${apiKey}`, body { contents } *)

(** A JavaScript value as far as the callers can tell: a string or not. *)
Inductive jsval :=
| JString (s : jsstring)
| JOther.

(** What a [fetch] comes back with: it rejects, or it resolves to a
    response with its [ok] flag, [status], [text()], and with what
    [json()] followed by the property path of the caller
    ([choices[0].message.content], [candidates[0].content.parts[0].text])
    evaluates to: [None] when that throws. *)
Inductive fetch_outcome :=
| Rejected
| Responded (ok : bool) (status : N) (text : jsstring) (reply : option jsval).

(** An action runs outside any transaction: every mutation it runs commits
    on its own, so the database and the requests sent so far survive a
    throw. *)
Record world := mkWorld {
  w_db : DB;
  w_sent : list request
}.

Definition Act (A : Type) := world -> result A * world.

Definition aret {A} (a : A) : Act A := fun w => (Ok a, w).
Definition athrow {A} (e : error) : Act A := fun w => (Err e, w).
Definition abind {A B} (m : Act A) (k : A -> Act B) : Act B :=
  fun w => match m w with
           | (Ok a, w') => k a w'
           | (Err e, w') => (Err e, w')
           end.
(** [try { body } catch (error) { handler(error) }] *)
Definition try_catch {A} (body : Act A) (handler : error -> Act A) : Act A :=
  fun w => match body w with
           | (Ok a, w') => (Ok a, w')
           | (Err e, w') => handler e w'
           end.

(** [ctx.runQuery] / [ctx.runMutation]: one transaction. *)
Definition run {A} (m : M A) : Act A :=
  fun w => match m (w_db w) with
           | Ok (a, db') => (Ok a, mkWorld db' (w_sent w))
           | Err e => (Err e, w)
           end.

Declare Scope act_scope.
Delimit Scope act_scope with act.
Notation "x <- m ;; k" := (abind m (fun x => k))
  (at level 61, m at next level, right associativity) : act_scope.

Definition PROVIDERS_baseURL (provider : jsstring) : jsstring :=
  if str_eqb provider (lit "openai") then lit "https://api.openai.com/v1"
  else if str_eqb provider (lit "google")
       then lit "https://generativelanguage.googleapis.com/v1beta"
  else if str_eqb provider (lit "groq") then lit "https://api.groq.com/openai/v1"
  else lit "https://api.deepseek.com/v1".

(** The provider identifiers of [PROVIDERS]. *)
Definition registered (provider : jsstring) : bool :=
  str_eqb provider (lit "openai") || str_eqb provider (lit "google")
  || str_eqb provider (lit "groq") || str_eqb provider (lit "deepseek").

Section Upstream.
(** The upstream APIs: what each request is answered with. *)
Variable net : request -> fetch_outcome.

Definition fetch (r : request) : Act fetch_outcome :=
  fun w => (Ok (net r), mkWorld (w_db w) (w_sent w ++ [r])).

Definition callOpenAICompatibleAPI (baseURL apiKey model : jsstring)
    (msgs : list api_message) : Act jsval :=
  (response <- fetch (ChatCompletions baseURL apiKey model msgs) ;;
   match response with
   | Rejected => athrow FetchFailed
   | Responded ok status text reply =>
     if negb ok then athrow (ApiError status text)
     else match reply with
          | Some v => aret v
          | None => athrow MalformedResponse
          end
   end)%act.

Definition callGoogleAPI (apiKey model : jsstring)
    (msgs : list api_message) : Act jsval :=
  (let contents :=
     map (fun msg =>
            mkGoogleContent
              (if str_eqb (am_role msg) role_assistant
               then lit "model" else lit "user")
              (am_content msg)) msgs in
   response <- fetch (GenerateContent apiKey model contents) ;;
   match response with
   | Rejected => athrow FetchFailed
   | Responded ok status text reply =>
     if negb ok then athrow (GoogleApiError status text)
     else match reply with
          | Some v => aret v
          | None => athrow MalformedResponse
          end
   end)%act.

(** [ctx.runMutation(api.conversations.addMessage, { ..., content })] with
    a [content] that is only known to be a value: the [v.string()]
    validator of the mutation rejects anything but a string. *)
Definition addMessage_value (auth : option UserId) (conversationId : Id)
    (content : jsval) (role : jsstring) (provider model : option jsstring)
    : Act Id :=
  match content with
  | JString s => run (addMessage auth conversationId s role provider model)
  | JOther => athrow ArgumentValidationError
  end.

Definition sendMessage (auth : option UserId) (conversationId : Id)
    (message provider model : jsstring) : Act jsval :=
  (_ <- run (getAuthUserId auth) ;;
   apiKeyRecord <- run (getApiKey auth provider) ;;
   match apiKeyRecord with
   | None => athrow (NoApiKeyFound provider)
   | Some apiKeyRecord =>
     _ <- run (addMessage auth conversationId message role_user None None) ;;
     conv <- run (getConversation auth conversationId) ;;
     let apiMessages :=
       map (fun msg => mkApiMessage (m_role msg) (m_content msg)) (snd conv)
       ++ [mkApiMessage role_user message] in
     try_catch
       (response <-
          (if str_eqb provider (lit "openai") || str_eqb provider (lit "groq")
              || str_eqb provider (lit "deepseek")
           then callOpenAICompatibleAPI (PROVIDERS_baseURL provider)
                  (ak_apiKey apiKeyRecord) model apiMessages
           else if str_eqb provider (lit "google")
           then callGoogleAPI (ak_apiKey apiKeyRecord) model apiMessages
           else athrow (UnsupportedProvider provider)) ;;
        _ <- addMessage_value auth conversationId response role_assistant
               (Some provider) (Some model) ;;
        aret response)
       (fun error => athrow (FailedToGetResponse provider error))
   end)%act.

(** The [message] of the object [testApiKey] returns. *)
Inductive test_message :=
| KeyIsValid                       (* "API key is valid" *)
| KeyTestFailed (cause : error).   (* `API key test failed: ${error}` *)

Record test_result := mkTestResult {
  success : bool;
  message : test_message
}.

Definition testApiKey (provider apiKey model : jsstring) : Act test_result :=
  try_catch
    (let testMessages :=
       [mkApiMessage role_user (lit "Hello, this is a test message.")] in
     _ <- (if str_eqb provider (lit "openai") || str_eqb provider (lit "groq")
              || str_eqb provider (lit "deepseek")
           then _ <- callOpenAICompatibleAPI (PROVIDERS_baseURL provider)
                       apiKey model testMessages ;; aret tt
           else if str_eqb provider (lit "google")
           then _ <- callGoogleAPI apiKey model testMessages ;; aret tt
           else aret tt) ;;
     aret (mkTestResult true KeyIsValid))%act
    (fun error => aret (mkTestResult false (KeyTestFailed error))).
End Upstream.

(* ===================================================================== *)
(** * Histories of operations *)
(* ===================================================================== *)

(** The mutations a client can call. *)
Inductive op :=
| CreateConversation (auth : option UserId) (title : jsstring)
                     (parentBranchId branchFromMessageId : option Id)
| UpdateConversation (auth : option UserId) (conversationId : Id)
                     (title : jsstring)
| AddMessage (auth : option UserId) (conversationId : Id)
             (content role : jsstring) (provider model : option jsstring)
| CreateBranch (auth : option UserId) (parentConversationId : Id)
               (branchFromMessageId : Id) (branchName : jsstring)
| DeleteConversation (auth : option UserId) (conversationId : Id)
| DuplicateConversation (auth : option UserId) (conversationId : Id)
| SaveApiKey (auth : option UserId) (provider apiKey : jsstring)
| DeleteApiKey (auth : option UserId) (keyId : Id).

(** The database a mutation leaves: its own when it returns, the one it
    started from when it throws. *)
Definition commit {A} (m : M A) (db : DB) : DB :=
  match m db with
  | Ok (_, db') => db'
  | Err _ => db
  end.

Definition step (o : op) : DB -> DB :=
  match o with
  | CreateConversation a t pb bm => commit (createConversation a t pb bm)
  | UpdateConversation a c t => commit (updateConversation a c t)
  | AddMessage a c content role p m => commit (addMessage a c content role p m)
  | CreateBranch a c m n => commit (createBranch a c m n)
  | DeleteConversation a c => commit (deleteConversation a c)
  | DuplicateConversation a c => commit (duplicateConversation a c)
  | SaveApiKey a p k => commit (saveApiKey a p k)
  | DeleteApiKey a k => commit (deleteApiKey a k)
  end.

Definition run_ops (ops : list op) (db : DB) : DB :=
  fold_left (fun d o => step o d) ops db.

(** The databases the deployment can be in: those a history of mutations
    produces from the empty one. *)
Definition reachable (db : DB) : Prop :=
  exists ops, db = run_ops ops empty_db.

(* ===================================================================== *)
(** * Invariants and specification vocabulary *)
(* ===================================================================== *)

(** Every identifier in use was handed out by the counter. *)
Definition ids_allocated (db : DB) : Prop :=
  Forall (fun m => m_id m < next_id db /\ m_conversationId m < next_id db)
         (messages db)
  /\ Forall (fun c => c_id c < next_id db) (conversations db)
  /\ Forall (fun b => b_id b < next_id db) (branches db)
  /\ Forall (fun k => ak_id k < next_id db) (apiKeys db).

(** No two documents of a table share an [_id]. *)
Definition ids_unique (db : DB) : Prop :=
  NoDup (map m_id (messages db))
  /\ NoDup (map c_id (conversations db))
  /\ NoDup (map b_id (branches db))
  /\ NoDup (map ak_id (apiKeys db)).

Definition wf (db : DB) : Prop := ids_allocated db /\ ids_unique db.

(** The messages of every conversation carry, in creation order, the
    indices 0, 1, ..., n-1. *)
Definition dense (db : DB) : Prop :=
  forall cid,
    map m_messageIndex (messages_of cid db)
    = seq 0 (length (messages_of cid db)).

(** The active keys of a user for a provider. *)
Definition active_keys (u : UserId) (provider : jsstring) (db : DB)
    : list ApiKey :=
  filter ak_isActive (keys_of u provider db).

Definition single_active (db : DB) : Prop :=
  forall u provider, length (active_keys u provider db) <= 1.

(** Membership of an identifier in a list. *)
Definition mem_id (i : Id) (l : list Id) : bool := existsb (Nat.eqb i) l.

(** What a copy keeps of a message. *)
Definition payload (m : Message)
    : jsstring * jsstring * option jsstring * option jsstring * nat :=
  (m_content m, m_role m, m_provider m, m_model m, m_messageIndex m).

(** The documents the copy loop inserts for [l] into [target], the first
    one under the identifier [start]. *)
Fixpoint copies (target : Id) (start : Id) (l : list Message) : list Message :=
  match l with
  | [] => []
  | msg :: l' =>
    mkMessage start target (m_content msg) (m_role msg) (m_provider msg)
              (m_model msg) (m_messageIndex msg) None
    :: copies target (S start) l'
  end.

(** Ascending [messageIndex]. *)
Definition ascending (l : list Message) : Prop :=
  StronglySorted (fun a b => m_messageIndex a <= m_messageIndex b) l.

(** The conversations a cascade from [cid] reaches: the targets of the
    branches rooted at it. *)
Definition branch_targets (cid : Id) (db : DB) : list Id :=
  map b_branchConversationId (branches_of cid db).

(** The title of a conversation. *)
Definition title_of (cid : Id) (db : DB) : option jsstring :=
  option_map c_title (tbl_get c_id cid (conversations db)).

(** The texts of the history a request carries, in order. *)
Definition request_texts (r : request) : list jsstring :=
  match r with
  | ChatCompletions _ _ _ msgs => map am_content msgs
  | GenerateContent _ _ contents => map gc_text contents
  end.

(** An answer from which no reply can be stored: the fetch rejects, the
    status is not 2xx, or the body does not hold a string where the reply
    is read. *)
Definition upstream_failed (o : fetch_outcome) : bool :=
  match o with
  | Rejected => true
  | Responded ok _ _ reply =>
    negb ok || match reply with
               | Some (JString _) => false
               | _ => true
               end
  end.

(** The condition under which [addMessage] renames the conversation. *)
Definition renames (db : DB) (cid : Id) (role : jsstring) (c : Conversation)
    : bool :=
  (length (messages_of cid db) =? 0) && str_eqb role role_user
  && str_eqb (c_title c) default_title.

(** The messages [createBranch] copies. *)
Definition messagesToCopy (parent : Id) (branchMessage : Message) (db : DB)
    : list Message :=
  sort_by_index
    (filter (fun msg => m_messageIndex msg <=? m_messageIndex branchMessage)
            (sort_by_index (messages_of parent db))).

(** The invariant of the store. *)
Definition inv (db : DB) : Prop := wf db /\ dense db /\ single_active db.

(** A conversation that was created and, unless it is gone, holds a
    message. *)
Definition settled (cid : Id) (db : DB) : Prop :=
  cid < next_id db
  /\ (tbl_get c_id cid (conversations db) = None \/ messages_of cid db <> []).

(** The history [sendMessage] hands to the adapter once the user message
    is stored in [db1]. *)
Definition apiMessages_of (cid : Id) (message : jsstring) (db1 : DB)
    : list api_message :=
  map (fun msg => mkApiMessage (m_role msg) (m_content msg))
      (sort_by_index (messages_of cid db1))
  ++ [mkApiMessage role_user message].

(** An action that, started in a database satisfying [P], leaves one
    satisfying [P], whether it returns or throws. *)
Definition keeps {A} (P : DB -> Prop) (act : Act A) : Prop :=
  forall w, P (w_db w) -> P (w_db (snd (act w))).

(* ===================================================================== *)
(** * Example databases *)
(* ===================================================================== *)

(** A conversation with the default title whose only message is an
    assistant's. *)
Definition assistant_first_db : DB :=
  run_ops
    [CreateConversation (Some 1) default_title None None;
     AddMessage (Some 1) 0 (lit "Hi, how can I help?") role_assistant
                (Some (lit "google")) (Some (lit "gemini-2.0-flash"))]
    empty_db.

(** A user with an OpenAI key and a conversation of two messages. *)
Definition chat_history : list op :=
  [SaveApiKey (Some 1) (lit "openai") (lit "sk-test");
   CreateConversation (Some 1) default_title None None;
   AddMessage (Some 1) 1 (lit "Explain quicksort") role_user None None;
   AddMessage (Some 1) 1 (lit "Quicksort picks a pivot.") role_assistant
              (Some (lit "openai")) (Some (lit "gpt-4o-mini"))].
Definition chat_db : DB := run_ops chat_history empty_db.

(** The same user after saving a key for a provider the registry does not
    know. *)
Definition anthropic_db : DB :=
  step (SaveApiKey (Some 1) (lit "anthropic") (lit "sk-ant")) chat_db.

(** An upstream that answers every request with 401. *)
Definition unauthorized (r : request) : fetch_outcome :=
  Responded false 401 (lit "invalid api key") None.

(** A conversation of five messages. *)
Definition five_db : DB :=
  run_ops
    [AddMessage (Some 1) 1 (lit "And mergesort?") role_user None None;
     AddMessage (Some 1) 1 (lit "Mergesort splits and merges.") role_assistant
                (Some (lit "openai")) (Some (lit "gpt-4o-mini"));
     AddMessage (Some 1) 1 (lit "Which one is stable?") role_user None None]
    chat_db.

(** The same with a branch from its third message, and a branch of that
    branch. *)
Definition tree_db : DB :=
  run_ops
    [CreateBranch (Some 1) 1 4 (lit "alt");
     CreateBranch (Some 1) 7 8 (lit "deeper")]
    five_db.

(** A fresh conversation. *)
Definition fresh_db : DB :=
  run_ops [CreateConversation (Some 1) default_title None None] empty_db.

(** A message of 60 code units. *)
Definition sixty : jsstring :=
  lit "Please explain in detail how quicksort partitions its input.".

(* ===================================================================== *)
(** * The remaining queries of conversations.ts and settings.ts *)
(* ===================================================================== *)

(** [getUserConversations]: the conversations of the caller, through the
    [by_user] index. *)
Definition getUserConversations (auth : option UserId) : M (list Conversation) :=
  userId <- getAuthUserId auth ;;
  fun db => Ok (filter (fun c => c_userId c =? userId) (conversations db), db).

(** What [getApiKeys] returns of a key: [{ _id, provider, isActive }]. *)
Record api_key_info := mkApiKeyInfo {
  ki_id : Id;
  ki_provider : jsstring;
  ki_isActive : bool
}.

Definition getApiKeys (auth : option UserId) : M (list api_key_info) :=
  userId <- getAuthUserId auth ;;
  fun db =>
    Ok (map (fun key => mkApiKeyInfo (ak_id key) (ak_provider key)
                                     (ak_isActive key))
            (filter (fun k => ak_userId k =? userId) (apiKeys db)),
        db).

(* ===================================================================== *)
(** * User settings (convex/settings.ts) *)
(* ===================================================================== *)

(** [v.number()]: a double. *)
Definition number := float.

(** The six fields a settings document carries besides [_id] and
    [userId]; they are also the arguments of [updateUserSettings]. *)
Record SettingsFields := mkSettingsFields {
  sf_defaultProvider : jsstring;
  sf_defaultModel : jsstring;
  sf_temperature : number;
  sf_maxTokens : number;
  sf_systemPrompt : option jsstring;
  sf_theme : jsstring
}.

Record UserSettings := mkUserSettings {
  us_id : Id;
  us_userId : UserId;
  us_fields : SettingsFields
}.

(** The database with its [userSettings] table; identifiers come from the
    one counter of [core]. *)
Record Store := mkStore {
  core : DB;
  userSettings : list UserSettings
}.

Definition empty_store : Store := mkStore empty_db [].

(** A handler over the whole store. *)
Definition SM (A : Type) := Store -> result (A * Store).

(** A handler that touches only the tables of [core]. *)
Definition on_core {A} (m : M A) : SM A :=
  fun s => match m (core s) with
           | Ok (a, db') => Ok (a, mkStore db' (userSettings s))
           | Err e => Err e
           end.

(** [query("userSettings").withIndex("by_user",
      q => q.eq("userId", userId)).first()] *)
Definition settings_of (userId : UserId) (s : Store) : option UserSettings :=
  hd_error (filter (fun r => us_userId r =? userId) (userSettings s)).

(** The object [getUserSettings] falls back to: 0.7 and 2000 as doubles. *)
Definition fallback_settings : SettingsFields :=
  mkSettingsFields (lit "google") (lit "gemini-2.0-flash")
                   0x1.6666666666666p-1%float 2000%float
                   (Some (lit "")) (lit "light").

(** What [getUserSettings] returns: the stored document, or the fallback
    object, which has no [_id] and no [userId]. *)
Inductive settings_reply :=
| StoredSettings (row : UserSettings)
| FallbackSettings (fields : SettingsFields).

Definition reply_fields (r : settings_reply) : SettingsFields :=
  match r with
  | StoredSettings row => us_fields row
  | FallbackSettings f => f
  end.

Definition getUserSettings (auth : option UserId) : SM settings_reply :=
  fun s =>
    match auth with
    | None => Err NotAuthenticated
    | Some userId =>
      match settings_of userId s with
      | Some settings => Ok (StoredSettings settings, s)
      | None => Ok (FallbackSettings fallback_settings, s)
      end
    end.

Definition with_fields (f : SettingsFields) (r : UserSettings) : UserSettings :=
  mkUserSettings (us_id r) (us_userId r) f.

Definition updateUserSettings (auth : option UserId) (args : SettingsFields)
    : SM unit :=
  fun s =>
    match auth with
    | None => Err NotAuthenticated
    | Some userId =>
      match settings_of userId s with
      | Some existingSettings =>
        match tbl_patch us_id (us_id existingSettings) (with_fields args)
                        (userSettings s) with
        | Some t => Ok (tt, mkStore (core s) t)
        | None => Err (NonexistentDocument (us_id existingSettings))
        end
      | None =>
        Ok (tt, mkStore (bump (core s))
                        (userSettings s
                         ++ [mkUserSettings (next_id (core s)) userId args]))
      end
    end.

(** The mutations over the store: those of [op], and
    [updateUserSettings]. *)
Inductive store_op :=
| CoreOp (o : op)
| UpdateUserSettings (auth : option UserId) (args : SettingsFields).

Definition store_step (o : store_op) (s : Store) : Store :=
  match o with
  | CoreOp o => mkStore (step o (core s)) (userSettings s)
  | UpdateUserSettings auth args =>
    match updateUserSettings auth args s with
    | Ok (_, s') => s'
    | Err _ => s
    end
  end.

Definition store_run (ops : list store_op) (s : Store) : Store :=
  fold_left (fun s o => store_step o s) ops s.

Definition store_reachable (s : Store) : Prop :=
  exists ops, s = store_run ops empty_store.

(** The invariant of the settings table: identifiers allocated and
    unique, one document per user at most. *)
Definition settings_inv (s : Store) : Prop :=
  Forall (fun r => us_id r < next_id (core s)) (userSettings s)
  /\ NoDup (map us_id (userSettings s))
  /\ NoDup (map us_userId (userSettings s)).

(* ===================================================================== *)
(** * The client (src/components) *)
(* ===================================================================== *)

(** SettingsPanel: [apiKeys?.some(key => key.provider === provider &&
    key.isActive)], where [apiKeys] is [undefined] while the query
    loads. *)
Definition hasApiKey (apiKeys : option (list api_key_info))
    (provider : jsstring) : option bool :=
  option_map
    (existsb (fun key => str_eqb (ki_provider key) provider && ki_isActive key))
    apiKeys.

(** MessageList: [[...messages].sort((a, b) => a.messageIndex -
    b.messageIndex)]. *)
Definition sortedMessages (msgs : list Message) : list Message :=
  sort_by_index msgs.

(** ECMAScript WhiteSpace and LineTerminator code points, all of one code
    unit: what [String.prototype.trim] strips. *)
Definition is_space (c : code_unit) : bool :=
  existsb (N.eqb c)
    [9; 10; 11; 12; 13; 32; 160; 5760; 8192; 8193; 8194; 8195; 8196; 8197;
     8198; 8199; 8200; 8201; 8202; 8232; 8233; 8239; 8287; 12288; 65279]%N.

Fixpoint trim_start (s : jsstring) : jsstring :=
  match s with
  | c :: s' => if is_space c then trim_start s' else s
  | [] => []
  end.

(** [s.trim()] *)
Definition trim (s : jsstring) : jsstring :=
  rev (trim_start (rev (trim_start s))).

(** MessageInput's [handleSubmit], up to the call of [onSendMessage]: the
    message handed over, if any, and the draft and loading flag it sets
    before the call. *)
Definition handleSubmit (message : jsstring) (isLoading : bool)
    : option jsstring * (jsstring * bool) :=
  match trim message with
  | [] => (None, (message, isLoading))
  | _ :: _ =>
    if isLoading then (None, (message, isLoading))
    else (Some (trim message), ([], true))
  end.

(** BranchPanel's [handleCreateBranch], up to the call of the mutation:
    the arguments handed to [createBranch], if any. *)
Definition handleCreateBranch (conversationId : Id) (branchName : jsstring)
    (selectedMessageId : option Id) : option (Id * Id * jsstring) :=
  match trim branchName with
  | [] => None
  | _ :: _ =>
    match selectedMessageId with
    | None => None
    | Some messageId => Some (conversationId, messageId, trim branchName)
    end
  end.

(** Every branch record points from an older conversation to a newer
    one that the counter handed out, and no two point to the same
    conversation. *)
Definition branches_linked (db : DB) : Prop :=
  Forall (fun b => b_parentConversationId b < b_branchConversationId b
                   /\ b_branchConversationId b < next_id db)
         (branches db)
  /\ NoDup (map b_branchConversationId (branches db)).

(** The adapter choice at the head of the [try] block of [sendMessage],
    as one action. *)
Definition dispatch (net : request -> fetch_outcome)
    (provider apiKey model : jsstring) (msgs : list api_message) : Act jsval :=
  if str_eqb provider (lit "openai") || str_eqb provider (lit "groq")
     || str_eqb provider (lit "deepseek")
  then callOpenAICompatibleAPI net (PROVIDERS_baseURL provider) apiKey model
                               msgs
  else if str_eqb provider (lit "google")
  then callGoogleAPI net apiKey model msgs
  else athrow (UnsupportedProvider provider).

(** The message [testApiKey] sends. *)
Definition test_text : jsstring := lit "Hello, this is a test message.".

(** An upstream that answers every request with the same reply. *)
Definition always_replies (reply : jsstring) (r : request) : fetch_outcome :=
  Responded true 200 (lit "") (Some (JString reply)).

(** [tree_db] after its first branch conversation was deleted on its
    own. *)
Definition stranded_db : DB := step (DeleteConversation (Some 1) 7) tree_db.

(** Settings a user might save. *)
Definition dark_settings : SettingsFields :=
  mkSettingsFields (lit "openai") (lit "gpt-4o-mini") 1%float 512%float
                   None (lit "dark").

(** A store in which two users have saved settings around the history of
    [chat_db]. *)
Definition settings_history : list store_op :=
  map CoreOp chat_history
  ++ [UpdateUserSettings (Some 2) fallback_settings;
      UpdateUserSettings (Some 1) fallback_settings;
      CoreOp (AddMessage (Some 1) 1 (lit "And mergesort?") role_user
                         None None)].
Definition settings_store : Store := store_run settings_history empty_store.

(** [anthropic_db] with a conversation of another user. *)
Definition shared_db : DB :=
  step (CreateConversation (Some 2) default_title None None) anthropic_db.


Unset Implicit Arguments.

(* ===================================================================== *)
(** * Strings *)
(* ===================================================================== *)

Lemma str_eqb_eq (a b : jsstring) : str_eqb a b = true <-> a = b.
Proof.
  revert b; induction a as [|x a IH]; intros [|y b]; simpl;
    try (split; [discriminate | discriminate]); [tauto|].
  rewrite andb_true_iff, N.eqb_eq, IH.
  split; [intros [-> ->]; reflexivity | intros [= -> ->]; auto].
Qed.

Lemma str_eqb_refl (a : jsstring) : str_eqb a a = true.
Proof. apply str_eqb_eq; reflexivity. Qed.

Lemma str_eqb_neq (a b : jsstring) : str_eqb a b = false <-> a <> b.
Proof.
  rewrite <- str_eqb_eq. destruct (str_eqb a b); split; congruence.
Qed.

(* ===================================================================== *)
(** * Sorting by index *)
(* ===================================================================== *)

Lemma insert_by_index_perm x l : Permutation (insert_by_index x l) (x :: l).
Proof.
  induction l as [|y l IH]; simpl; [reflexivity|].
  destruct (m_messageIndex x <=? m_messageIndex y); [reflexivity|].
  rewrite IH. apply perm_swap.
Qed.

Lemma sort_by_index_perm l : Permutation (sort_by_index l) l.
Proof.
  induction l as [|x l IH]; simpl; [reflexivity|].
  rewrite insert_by_index_perm. now constructor.
Qed.

Lemma sort_by_index_length l : length (sort_by_index l) = length l.
Proof. apply Permutation_length, sort_by_index_perm. Qed.

Lemma sort_by_index_In m l : In m (sort_by_index l) <-> In m l.
Proof.
  split; apply Permutation_in;
    [apply sort_by_index_perm | symmetry; apply sort_by_index_perm].
Qed.

Lemma insert_by_index_ascending x l :
  ascending l -> ascending (insert_by_index x l).
Proof.
  unfold ascending. induction l as [|y l IH]; simpl; intros H.
  - repeat constructor.
  - destruct (Nat.leb_spec (m_messageIndex x) (m_messageIndex y)) as [Hle|Hlt].
    + constructor; [exact H|].
      inversion H as [|? ? _ Hy]; subst.
      constructor; [exact Hle|].
      eapply Forall_impl; [|exact Hy]. simpl; intros; lia.
    + inversion H as [|? ? Hl Hy]; subst.
      constructor; [auto|].
      rewrite Forall_forall in *. intros z Hz.
      apply (Permutation_in _ (insert_by_index_perm x l)) in Hz.
      destruct Hz as [<-|Hz]; [lia | auto].
Qed.

Lemma sort_by_index_ascending l : ascending (sort_by_index l).
Proof.
  induction l as [|x l IH]; simpl; [constructor|].
  now apply insert_by_index_ascending.
Qed.

Lemma insert_by_index_head x l :
  Forall (fun y => m_messageIndex x <= m_messageIndex y) l ->
  insert_by_index x l = x :: l.
Proof.
  destruct l as [|y l]; simpl; [reflexivity|].
  intros H. inversion H; subst.
  destruct (Nat.leb_spec (m_messageIndex x) (m_messageIndex y)); [reflexivity|lia].
Qed.

Lemma sort_by_index_ascending_id l : ascending l -> sort_by_index l = l.
Proof.
  unfold ascending. induction 1 as [|x l Hl IH Hx]; simpl; [reflexivity|].
  rewrite IH. now apply insert_by_index_head.
Qed.

Lemma filter_ascending p l : ascending l -> ascending (filter p l).
Proof.
  unfold ascending. induction 1 as [|x l Hl IH Hx]; simpl; [constructor|].
  destruct (p x); [|exact IH].
  constructor; [exact IH|].
  rewrite Forall_forall in *. intros y Hy.
  apply filter_In in Hy. apply Hx, Hy.
Qed.

Lemma filter_insert_by_index p x l :
  ascending l ->
  filter p (insert_by_index x l)
  = if p x then insert_by_index x (filter p l) else filter p l.
Proof.
  unfold ascending. induction 1 as [|y l Hl IH Hy]; simpl.
  - destruct (p x); reflexivity.
  - destruct (Nat.leb_spec (m_messageIndex x) (m_messageIndex y)) as [Hle|Hlt];
      simpl.
    + destruct (p x) eqn:Hpx.
      * symmetry. apply insert_by_index_head with (l := filter p (y :: l)).
        rewrite Forall_forall. intros z Hz. apply filter_In in Hz.
        destruct Hz as [[<-|Hz] _]; [exact Hle|].
        rewrite Forall_forall in Hy. specialize (Hy z Hz). lia.
      * reflexivity.
    + rewrite IH. destruct (p y) eqn:Hpy, (p x) eqn:Hpx; simpl; try reflexivity.
      destruct (Nat.leb_spec (m_messageIndex x) (m_messageIndex y));
        [lia | reflexivity].
Qed.

Lemma filter_sort_by_index p l :
  filter p (sort_by_index l) = sort_by_index (filter p l).
Proof.
  induction l as [|x l IH]; simpl; [reflexivity|].
  rewrite filter_insert_by_index by apply sort_by_index_ascending.
  rewrite IH. destruct (p x); reflexivity.
Qed.

(** A list whose indices count up from [a] is ascending. *)
Lemma seq_ascending l a n :
  map m_messageIndex l = seq a n -> ascending l.
Proof.
  unfold ascending. revert a n.
  induction l as [|x l IH]; intros a [|n] H; simpl in *;
    try discriminate; [constructor|].
  injection H as Hx Hl.
  constructor; [eauto|].
  rewrite Forall_forall. intros y Hy.
  apply (in_map m_messageIndex) in Hy. rewrite Hl in Hy.
  apply in_seq in Hy. lia.
Qed.

Lemma filter_le_seq l a n k :
  map m_messageIndex l = seq a n ->
  map m_messageIndex (filter (fun m => m_messageIndex m <=? k) l)
  = seq a (Nat.min n (S k - a)).
Proof.
  revert a n. induction l as [|x l IH]; intros a [|n] H;
    cbn [map filter seq] in *; try discriminate; [reflexivity|].
  injection H as Hx Hl.
  destruct (Nat.leb_spec (m_messageIndex x) k) as [Hle|Hlt].
  - cbn [map]. rewrite (IH _ _ Hl), Hx.
    replace (S k - a) with (S (k - a)) by lia.
    replace (S k - S a) with (k - a) by lia. reflexivity.
  - rewrite (IH _ _ Hl).
    replace (S k - a) with 0 by lia.
    replace (S k - S a) with 0 by lia.
    now rewrite !Nat.min_0_r.
Qed.

(* ===================================================================== *)
(** * Tables *)
(* ===================================================================== *)

Section TableFacts.
Context {A : Type}.
Variable id_of : A -> Id.

Lemma tbl_get_Some i t r :
  tbl_get id_of i t = Some r -> In r t /\ id_of r = i.
Proof.
  unfold tbl_get. intros H. apply find_some in H.
  destruct H as [H1 H2]. apply Nat.eqb_eq in H2. auto.
Qed.

Lemma tbl_get_None i t :
  tbl_get id_of i t = None <-> ~ In i (map id_of t).
Proof.
  unfold tbl_get. split.
  - intros H Hin. apply in_map_iff in Hin. destruct Hin as [r [<- Hr]].
    apply (find_none _ _ H) in Hr. rewrite Nat.eqb_refl in Hr. discriminate.
  - intros H. destruct (find _ t) eqn:E; [|reflexivity].
    apply find_some in E. destruct E as [E1 E2]. apply Nat.eqb_eq in E2.
    exfalso. apply H. subst. now apply in_map.
Qed.

Lemma tbl_get_In r t :
  In r t -> exists r', tbl_get id_of (id_of r) t = Some r'.
Proof.
  intros H. destruct (tbl_get id_of (id_of r) t) eqn:E; [eauto|].
  apply tbl_get_None in E. exfalso. apply E. now apply in_map.
Qed.

Lemma tbl_get_app i t t' :
  tbl_get id_of i (t ++ t')
  = match tbl_get id_of i t with
    | Some r => Some r
    | None => tbl_get id_of i t'
    end.
Proof.
  unfold tbl_get. induction t as [|x t IH]; simpl; [reflexivity|].
  destruct (id_of x =? i); auto.
Qed.

Lemma tbl_get_filter_other i j t :
  i <> j ->
  tbl_get id_of i (filter (fun r => negb (id_of r =? j)) t)
  = tbl_get id_of i t.
Proof.
  intros Hij. unfold tbl_get. induction t as [|x t IH]; simpl; [reflexivity|].
  destruct (Nat.eqb_spec (id_of x) j) as [Hj|Hj]; simpl.
  - destruct (Nat.eqb_spec (id_of x) i); [congruence | exact IH].
  - destruct (id_of x =? i); [reflexivity | exact IH].
Qed.

Lemma NoDup_map_inj (t : list A) a b :
  NoDup (map id_of t) -> In a t -> In b t -> id_of a = id_of b -> a = b.
Proof.
  induction t as [|x t IH]; simpl; intros Hnd Ha Hb Heq; [tauto|].
  inversion Hnd as [|? ? Hx Ht]; subst.
  destruct Ha as [->|Ha], Hb as [->|Hb]; auto.
  - exfalso. apply Hx. rewrite Heq. now apply in_map.
  - exfalso. apply Hx. rewrite <- Heq. now apply in_map.
Qed.

Lemma NoDup_map_filter p (t : list A) :
  NoDup (map id_of t) -> NoDup (map id_of (filter p t)).
Proof.
  induction t as [|x t IH]; simpl; intros Hnd; [constructor|].
  inversion Hnd as [|? ? Hx Ht]; subst.
  destruct (p x); simpl; [constructor|]; auto.
  intros Hin. apply Hx. apply in_map_iff in Hin.
  destruct Hin as [y [Hy Hin]]. apply filter_In in Hin.
  rewrite <- Hy. apply in_map, Hin.
Qed.

Lemma NoDup_map_app_fresh (t t' : list A) n :
  NoDup (map id_of t) -> NoDup (map id_of t') ->
  Forall (fun r => id_of r < n) t -> Forall (fun r => n <= id_of r) t' ->
  NoDup (map id_of (t ++ t')).
Proof.
  intros H1 H2 F1 F2. rewrite map_app.
  rewrite Forall_forall in F1, F2.
  induction t as [|x t IH]; simpl; [exact H2|].
  inversion H1 as [|? ? Hx Ht]; subst.
  constructor.
  - rewrite in_app_iff. intros [Hin|Hin]; [auto|].
    apply in_map_iff in Hin. destruct Hin as [y [Hy Hin]].
    specialize (F2 y Hin). specialize (F1 x (or_introl eq_refl)). lia.
  - apply IH; auto. intros y Hy. apply F1. now right.
Qed.

(** Membership in the identifiers of a selection, under unique ids. *)
Lemma mem_id_selected (p : A -> bool) (t : list A) r :
  NoDup (map id_of t) -> In r t ->
  mem_id (id_of r) (map id_of (filter p t)) = p r.
Proof.
  intros Hnd Hr. unfold mem_id.
  destruct (existsb _ _) eqn:E.
  - apply existsb_exists in E. destruct E as [i [Hi E]].
    apply Nat.eqb_eq in E. subst i.
    apply in_map_iff in Hi. destruct Hi as [r' [Hid Hr']].
    apply filter_In in Hr'. destruct Hr' as [Hr' Hp].
    rewrite (NoDup_map_inj t r r' Hnd Hr Hr' (eq_sym Hid)). now rewrite Hp.
  - destruct (p r) eqn:Hp; [|reflexivity].
    assert (existsb (Nat.eqb (id_of r)) (map id_of (filter p t)) = true)
      as E'; [|congruence].
    apply existsb_exists. exists (id_of r). split; [|apply Nat.eqb_refl].
    apply in_map, filter_In. auto.
Qed.
End TableFacts.

Lemma mem_id_In i l : mem_id i l = true <-> In i l.
Proof.
  unfold mem_id. rewrite existsb_exists. split.
  - intros [x [Hx E]]. apply Nat.eqb_eq in E. now subst.
  - intros H. exists i. split; [exact H | apply Nat.eqb_refl].
Qed.

Lemma mem_id_perm i l l' : Permutation l l' -> mem_id i l = mem_id i l'.
Proof.
  intros P. destruct (mem_id i l') eqn:E.
  - apply mem_id_In. apply mem_id_In in E.
    eapply Permutation_in; [symmetry; exact P | exact E].
  - destruct (mem_id i l) eqn:E'; [|reflexivity].
    apply mem_id_In in E'. apply (Permutation_in _ P) in E'.
    apply mem_id_In in E'. congruence.
Qed.

Lemma filter_filter {A} (p q : A -> bool) l :
  filter p (filter q l) = filter (fun x => q x && p x) l.
Proof.
  induction l as [|x l IH]; simpl; [reflexivity|].
  destruct (q x); simpl; [|exact IH].
  destruct (p x); now rewrite IH.
Qed.

Lemma filter_all {A} (p : A -> bool) l :
  (forall x, In x l -> p x = true) -> filter p l = l.
Proof.
  induction l as [|x l IH]; simpl; intros H; [reflexivity|].
  rewrite (H x (or_introl eq_refl)), IH; auto.
Qed.

Lemma filter_none {A} (p : A -> bool) l :
  (forall x, In x l -> p x = false) -> filter p l = [].
Proof.
  induction l as [|x l IH]; simpl; intros H; [reflexivity|].
  rewrite (H x (or_introl eq_refl)), IH; auto.
Qed.

Lemma db_eta db :
  mkDB (apiKeys db) (conversations db) (messages db) (branches db) (next_id db)
  = db.
Proof. destruct db; reflexivity. Qed.

(* ===================================================================== *)
(** * The delete loops *)
(* ===================================================================== *)

Lemma delete_messages_loop l db :
  NoDup (map m_id l) -> incl l (messages db) ->
  for_each l (fun message => delete_message (m_id message)) db
  = Ok (tt, set_messages
              (filter (fun m => negb (mem_id (m_id m) (map m_id l)))
                      (messages db)) db).
Proof.
  revert db. induction l as [|x l IH]; intros db Hnd Hincl; simpl.
  - unfold ret, set_messages. rewrite filter_all by reflexivity.
    now rewrite db_eta.
  - inversion Hnd as [|? ? Hx Hl]; subst.
    unfold bind at 1. unfold delete_message, tbl_delete.
    destruct (tbl_get_In m_id x (messages db)) as [r Hr];
      [apply Hincl; now left|].
    rewrite Hr. rewrite IH; [| exact Hl |].
    + unfold set_messages; simpl. rewrite filter_filter. do 3 f_equal.
      apply filter_ext. intros m.
      rewrite (Nat.eqb_sym (m_id m) (m_id x)), negb_orb. reflexivity.
    + intros y Hy. simpl. apply filter_In. split.
      * apply Hincl. now right.
      * destruct (Nat.eqb_spec (m_id y) (m_id x)) as [E|E]; [|reflexivity].
        exfalso. apply Hx. rewrite <- E. now apply in_map.
Qed.

(** Deleting the messages the index lists for a conversation removes
    exactly the messages of that conversation, and never throws. *)
Lemma delete_messages_of cid db :
  NoDup (map m_id (messages db)) ->
  for_each (sort_by_index (messages_of cid db))
           (fun message => delete_message (m_id message)) db
  = Ok (tt, set_messages
              (filter (fun m => negb (m_conversationId m =? cid)) (messages db))
              db).
Proof.
  intros Hnd. rewrite delete_messages_loop.
  - do 3 f_equal. apply filter_ext_in. intros m Hm. f_equal.
    rewrite (mem_id_perm _ _ _ (Permutation_map m_id
                              (sort_by_index_perm (messages_of cid db)))).
    unfold messages_of.
    apply (mem_id_selected m_id (fun m => m_conversationId m =? cid)
             (messages db) m Hnd Hm).
  - eapply Permutation_NoDup.
    + apply Permutation_map. symmetry. apply sort_by_index_perm.
    + unfold messages_of. now apply NoDup_map_filter.
  - intros m Hm. apply (proj1 (sort_by_index_In _ _)) in Hm.
    unfold messages_of in Hm. apply filter_In in Hm. apply Hm.
Qed.

Lemma delete_branch_target_spec branch db db' :
  NoDup (map m_id (messages db)) ->
  delete_branch_target branch db = Ok (tt, db') ->
  messages db'
  = filter (fun m => negb (m_conversationId m =? b_branchConversationId branch))
           (messages db)
  /\ conversations db'
     = filter (fun c => negb (c_id c =? b_branchConversationId branch))
              (conversations db)
  /\ branches db'
     = filter (fun b => negb (b_id b =? b_id branch)) (branches db)
  /\ apiKeys db' = apiKeys db /\ next_id db' = next_id db.
Proof.
  intros Hnd. unfold delete_branch_target.
  unfold bind at 1. unfold by_conversation.
  unfold bind at 1. rewrite (delete_messages_of _ _ Hnd).
  unfold bind at 1. unfold delete_conversation.
  destruct (tbl_delete c_id _ _) as [t|] eqn:E; [|discriminate].
  unfold delete_branch.
  destruct (tbl_delete b_id _ _) as [t'|] eqn:E'; [|discriminate].
  intros [= <-]. simpl in *.
  unfold tbl_delete in E, E'.
  destruct (tbl_get c_id _ _); [|discriminate].
  destruct (tbl_get b_id _ _); [|discriminate].
  injection E as <-. injection E' as <-. auto.
Qed.

Lemma cascade_loop brs db db' :
  NoDup (map m_id (messages db)) ->
  for_each brs delete_branch_target db = Ok (tt, db') ->
  messages db'
  = filter (fun m => negb (mem_id (m_conversationId m)
                                  (map b_branchConversationId brs)))
           (messages db)
  /\ conversations db'
     = filter (fun c => negb (mem_id (c_id c)
                                     (map b_branchConversationId brs)))
              (conversations db)
  /\ branches db'
     = filter (fun b => negb (mem_id (b_id b) (map b_id brs))) (branches db)
  /\ apiKeys db' = apiKeys db /\ next_id db' = next_id db.
Proof.
  revert db. induction brs as [|x brs IH]; intros db Hnd; simpl.
  - intros [= <-]. rewrite !filter_all by reflexivity. auto.
  - unfold bind at 1.
    destruct (delete_branch_target x db) as [[[] db1]|] eqn:E; [|discriminate].
    intros H.
    destruct (delete_branch_target_spec x _ _ Hnd E) as (M1 & C1 & B1 & K1 & N1).
    apply IH in H; [|rewrite M1; now apply NoDup_map_filter].
    destruct H as (M2 & C2 & B2 & K2 & N2).
    rewrite M2, C2, B2, K2, N2, M1, C1, B1, K1, N1, !filter_filter.
    repeat split; apply filter_ext; intros r; rewrite negb_orb;
      f_equal; f_equal; apply Nat.eqb_sym.
Qed.

(* ===================================================================== *)
(** * What each mutation does to the database *)
(* ===================================================================== *)

Lemma owned_conversation_Ok u cid e db c :
  tbl_get c_id cid (conversations db) = Some c -> c_userId c = u ->
  owned_conversation u cid e db = Ok (c, db).
Proof.
  intros H Hu. unfold owned_conversation, bind, get_conversation.
  rewrite H, Hu, Nat.eqb_refl. reflexivity.
Qed.

Lemma owned_conversation_inv u cid e db c db' :
  owned_conversation u cid e db = Ok (c, db') ->
  db' = db /\ tbl_get c_id cid (conversations db) = Some c /\ c_userId c = u.
Proof.
  unfold owned_conversation, bind, get_conversation.
  destruct (tbl_get c_id cid (conversations db)) as [c0|]; [|discriminate].
  destruct (Nat.eqb_spec (c_userId c0) u); [|discriminate].
  unfold ret. intros [= <- <-]. auto.
Qed.

Lemma owned_conversation_state u cid e db :
  (exists c, owned_conversation u cid e db = Ok (c, db)
             /\ tbl_get c_id cid (conversations db) = Some c
             /\ c_userId c = u)
  \/ owned_conversation u cid e db = Err e.
Proof.
  unfold owned_conversation, bind, get_conversation.
  destruct (tbl_get c_id cid (conversations db)) as [c0|]; [|now right].
  destruct (Nat.eqb_spec (c_userId c0) u); [|now right].
  left. exists c0. auto.
Qed.

Lemma tbl_patch_present {A} (id_of : A -> Id) i f t r :
  tbl_get id_of i t = Some r ->
  tbl_patch id_of i f t
  = Some (map (fun r => if id_of r =? i then f r else r) t).
Proof. unfold tbl_patch. now intros ->. Qed.

Lemma addMessage_eq u cid content role provider model db c :
  tbl_get c_id cid (conversations db) = Some c -> c_userId c = u ->
  addMessage (Some u) cid content role provider model db
  = Ok (next_id db,
        mkDB (apiKeys db)
             (if renames db cid role c
              then map (fun r => if c_id r =? cid
                                 then with_title (derived_title content) r
                                 else r) (conversations db)
              else conversations db)
             (messages db
              ++ [mkMessage (next_id db) cid content role provider model
                            (length (messages_of cid db)) None])
             (branches db)
             (S (next_id db))).
Proof.
  intros H Hu. unfold addMessage. simpl getAuthUserId.
  unfold bind at 1. unfold ret at 1.
  unfold bind at 1. rewrite (owned_conversation_Ok u cid _ db c H Hu).
  unfold bind at 1. unfold by_conversation.
  rewrite sort_by_index_length.
  unfold renames. unfold bind at 1.
  destruct (_ && _ && _).
  - unfold patch_conversation. rewrite (tbl_patch_present _ _ _ _ _ H).
    reflexivity.
  - reflexivity.
Qed.

Lemma addMessage_inv auth cid content role provider model db i db' :
  addMessage auth cid content role provider model db = Ok (i, db') ->
  exists u c, auth = Some u
              /\ tbl_get c_id cid (conversations db) = Some c
              /\ c_userId c = u.
Proof.
  unfold addMessage. destruct auth as [u|]; [|discriminate].
  simpl getAuthUserId. unfold bind at 1. unfold ret at 1. unfold bind at 1.
  destruct (owned_conversation_state u cid ConversationNotFound db)
    as [(c & -> & Hc & Hu) | ->]; [|discriminate].
  intros _. eauto.
Qed.

Lemma copy_loop target l db :
  for_each l (copy_message target) db
  = Ok (tt, mkDB (apiKeys db) (conversations db)
                 (messages db ++ copies target (next_id db) l)
                 (branches db) (next_id db + length l)).
Proof.
  revert db. induction l as [|x l IH]; intros db; simpl.
  - unfold ret. now rewrite app_nil_r, Nat.add_0_r, db_eta.
  - unfold bind at 1. unfold copy_message at 1, bind, insert_message, ret.
    rewrite IH. simpl. rewrite <- app_assoc. simpl.
    now rewrite Nat.add_succ_r.
Qed.

Lemma createConversation_eq u title pb bm db :
  createConversation (Some u) title pb bm db
  = Ok (next_id db,
        mkDB (apiKeys db)
             (conversations db ++ [mkConversation (next_id db) u title pb bm])
             (messages db) (branches db) (S (next_id db))).
Proof. reflexivity. Qed.

Lemma updateConversation_inv auth cid title db db' :
  updateConversation auth cid title db = Ok (tt, db') ->
  db' = set_conversations
          (map (fun r => if c_id r =? cid then with_title title r else r)
               (conversations db)) db.
Proof.
  unfold updateConversation. destruct auth as [u|]; [|discriminate].
  simpl getAuthUserId. unfold bind at 1. unfold ret at 1. unfold bind at 1.
  destruct (owned_conversation_state u cid ConversationNotFound db)
    as [(c & -> & Hc & Hu) | ->]; [|discriminate].
  unfold patch_conversation. rewrite (tbl_patch_present _ _ _ _ _ Hc).
  now intros [= <-].
Qed.

Lemma createBranch_inv auth parent bm name db bid cid db' :
  createBranch auth parent bm name db = Ok ((bid, cid), db') ->
  exists u c branchMessage,
    auth = Some u
    /\ tbl_get c_id parent (conversations db) = Some c /\ c_userId c = u
    /\ tbl_get m_id bm (messages db) = Some branchMessage
    /\ m_conversationId branchMessage = parent
    /\ cid = next_id db
    /\ bid = S (next_id db)
               + length (messagesToCopy parent branchMessage db)
    /\ db' = mkDB (apiKeys db)
                  (conversations db
                   ++ [mkConversation cid u (c_title c ++ lit " - " ++ name)
                                      None (Some bm)])
                  (messages db
                   ++ copies cid (S cid)
                        (messagesToCopy parent branchMessage db))
                  (branches db ++ [mkBranch bid u parent cid bm name true])
                  (S bid).
Proof.
  unfold createBranch. destruct auth as [u|]; [|discriminate].
  simpl getAuthUserId. unfold bind at 1. unfold ret at 1. unfold bind at 1.
  destruct (owned_conversation_state u parent ParentConversationNotFound db)
    as [(c & -> & Hc & Hu) | ->]; [|discriminate].
  unfold bind at 1. unfold get_message.
  destruct (tbl_get m_id bm (messages db)) as [branchMessage|] eqn:Hbm;
    [|discriminate].
  destruct (Nat.eqb_spec (m_conversationId branchMessage) parent) as [Hp|Hp];
    cbn [negb]; [|discriminate].
  unfold bind at 1. unfold insert_conversation.
  unfold bind at 1. unfold by_conversation.
  unfold bind at 1. rewrite copy_loop.
  unfold bind, insert_branch, ret. simpl.
  intros [= <- <- <-].
  exists u, c, branchMessage. unfold messagesToCopy, messages_of. simpl.
  repeat split; auto.
Qed.

Lemma duplicateConversation_inv auth cid db nid db' :
  duplicateConversation auth cid db = Ok (nid, db') ->
  exists u c,
    auth = Some u
    /\ tbl_get c_id cid (conversations db) = Some c /\ c_userId c = u
    /\ nid = next_id db
    /\ db' = mkDB (apiKeys db)
                  (conversations db
                   ++ [mkConversation nid u (c_title c ++ lit " (Copy)")
                                      None None])
                  (messages db
                   ++ copies nid (S nid)
                        (sort_by_index (sort_by_index (messages_of cid db))))
                  (branches db)
                  (S nid + length (messages_of cid db)).
Proof.
  unfold duplicateConversation. destruct auth as [u|]; [|discriminate].
  simpl getAuthUserId. unfold bind at 1. unfold ret at 1. unfold bind at 1.
  destruct (owned_conversation_state u cid ConversationNotFound db)
    as [(c & -> & Hc & Hu) | ->]; [|discriminate].
  unfold bind at 1. unfold insert_conversation.
  unfold bind at 1. unfold by_conversation.
  unfold bind at 1. rewrite copy_loop. unfold ret. simpl.
  intros [= <- <-].
  exists u, c. unfold messages_of. simpl.
  rewrite !sort_by_index_length. repeat split; auto.
Qed.

Lemma mem_id_cons i j l : mem_id i (j :: l) = (i =? j) || mem_id i l.
Proof. reflexivity. Qed.

Lemma deleteConversation_inv auth cid db db' :
  ids_unique db ->
  deleteConversation auth cid db = Ok (tt, db') ->
  exists u c,
    auth = Some u
    /\ tbl_get c_id cid (conversations db) = Some c /\ c_userId c = u
    /\ messages db'
       = filter (fun m => negb (mem_id (m_conversationId m)
                                       (cid :: branch_targets cid db)))
                (messages db)
    /\ conversations db'
       = filter (fun c => negb (mem_id (c_id c)
                                       (cid :: branch_targets cid db)))
                (conversations db)
    /\ branches db'
       = filter (fun b => negb (b_parentConversationId b =? cid)) (branches db)
    /\ apiKeys db' = apiKeys db /\ next_id db' = next_id db.
Proof.
  intros (Um & Uc & Ub & Uk).
  unfold deleteConversation. destruct auth as [u|]; [|discriminate].
  simpl getAuthUserId. unfold bind at 1. unfold ret at 1. unfold bind at 1.
  destruct (owned_conversation_state u cid ConversationNotFound db)
    as [(c & -> & Hc & Hu) | ->]; [|discriminate].
  unfold bind at 1. unfold by_conversation at 1.
  unfold bind at 1. rewrite (delete_messages_of _ _ Um).
  unfold bind at 1. unfold by_parent.
  unfold bind at 1.
  destruct (for_each _ delete_branch_target _) as [[[] db1]|] eqn:E;
    [|discriminate].
  apply cascade_loop in E; [|simpl; now apply NoDup_map_filter].
  destruct E as (M1 & C1 & B1 & K1 & N1). simpl in M1, C1, B1, K1, N1.
  unfold delete_conversation, tbl_delete.
  destruct (tbl_get c_id cid (conversations db1)); [|discriminate].
  intros [= <-]. exists u, c. simpl.
  rewrite M1, C1, B1, K1, N1, !filter_filter.
  unfold branch_targets, branches_of. simpl.
  repeat split; auto.
  - apply filter_ext. intros m. now rewrite negb_orb.
  - apply filter_ext. intros r. now rewrite negb_orb, andb_comm.
  - apply filter_ext_in. intros b Hb. f_equal.
    apply (mem_id_selected b_id (fun b => b_parentConversationId b =? cid)
             (branches db) b Ub Hb).
Qed.

Lemma with_isActive_idem b k :
  with_isActive b (with_isActive b k) = with_isActive b k.
Proof. reflexivity. Qed.

Lemma deactivate_loop l db :
  (forall k, In k l -> In (ak_id k) (map ak_id (apiKeys db))) ->
  for_each l (fun key => patch_apiKey (ak_id key) (with_isActive false)) db
  = Ok (tt, set_apiKeys
              (map (fun k => if mem_id (ak_id k) (map ak_id l)
                             then with_isActive false k else k)
                   (apiKeys db)) db).
Proof.
  revert db. induction l as [|x l IH]; intros db Hin; simpl.
  - unfold ret, set_apiKeys. rewrite map_id. now rewrite db_eta.
  - unfold bind at 1. unfold patch_apiKey, tbl_patch.
    destruct (tbl_get ak_id (ak_id x) (apiKeys db)) eqn:E.
    2:{ apply tbl_get_None in E. exfalso. apply E, Hin. now left. }
    rewrite IH.
    + unfold set_apiKeys; simpl. rewrite map_map. do 3 f_equal.
      apply map_ext. intros k.
      destruct (ak_id k =? ak_id x); simpl;
        destruct (mem_id (ak_id k) (map ak_id l)); reflexivity.
    + intros k Hk. simpl. rewrite map_map.
      rewrite (map_ext _ ak_id); [apply Hin; now right|].
      intros r. now destruct (ak_id r =? ak_id x).
Qed.

Lemma keys_of_filter u p db :
  keys_of u p db
  = filter (fun k => (ak_userId k =? u) && str_eqb (ak_provider k) p)
           (apiKeys db).
Proof. unfold keys_of. apply filter_filter. Qed.

Lemma saveApiKey_eq u p key db :
  NoDup (map ak_id (apiKeys db)) ->
  saveApiKey (Some u) p key db
  = Ok (next_id db,
        mkDB (map (fun k => if (ak_userId k =? u) && str_eqb (ak_provider k) p
                            then with_isActive false k else k)
                  (apiKeys db)
              ++ [mkApiKey (next_id db) u p key true])
             (conversations db) (messages db) (branches db)
             (S (next_id db))).
Proof.
  intros Hnd. unfold saveApiKey. simpl getAuthUserId.
  unfold bind at 1. unfold ret at 1. unfold bind at 1. unfold bind at 1.
  rewrite deactivate_loop.
  - unfold insert_apiKey, set_apiKeys, bump. simpl. do 4 f_equal.
    apply map_ext_in. intros k Hk. rewrite keys_of_filter.
    now rewrite (mem_id_selected ak_id _ (apiKeys db) k Hnd Hk).
  - intros k Hk. rewrite keys_of_filter in Hk. apply filter_In in Hk.
    apply in_map, Hk.
Qed.

Lemma deleteApiKey_inv auth keyId db db' :
  deleteApiKey auth keyId db = Ok (tt, db') ->
  db' = set_apiKeys (filter (fun k => negb (ak_id k =? keyId)) (apiKeys db)) db.
Proof.
  unfold deleteApiKey. destruct auth as [u|]; [|discriminate].
  simpl getAuthUserId. unfold bind at 1. unfold ret at 1.
  unfold bind, get_apiKey.
  destruct (tbl_get ak_id keyId (apiKeys db)) as [k|] eqn:E; [|discriminate].
  destruct (ak_userId k =? u); [|discriminate].
  unfold delete_apiKey, tbl_delete. rewrite E. now intros [= <-].
Qed.

(* ===================================================================== *)
(** * Copies *)
(* ===================================================================== *)

Lemma copies_length t s l : length (copies t s l) = length l.
Proof. revert s; induction l; intros s; simpl; auto. Qed.

Lemma copies_payload t s l : map payload (copies t s l) = map payload l.
Proof. revert s; induction l; intros s; simpl; [|rewrite IHl]; auto. Qed.

Lemma copies_index t s l :
  map m_messageIndex (copies t s l) = map m_messageIndex l.
Proof. revert s; induction l; intros s; simpl; [|rewrite IHl]; auto. Qed.

Lemma copies_ids t s l : map m_id (copies t s l) = seq s (length l).
Proof. revert s; induction l; intros s; simpl; [|rewrite IHl]; auto. Qed.

Lemma copies_target t s l :
  Forall (fun m => m_conversationId m = t) (copies t s l).
Proof. revert s; induction l; intros s; simpl; constructor; auto. Qed.

Lemma copies_In t s l m :
  In m (copies t s l) ->
  s <= m_id m < s + length l /\ m_conversationId m = t.
Proof.
  intros H. split.
  - apply (in_map m_id) in H. rewrite copies_ids in H.
    apply in_seq in H. lia.
  - pose proof (copies_target t s l) as F. rewrite Forall_forall in F. auto.
Qed.

Lemma copies_filter_same t s l :
  filter (fun m => m_conversationId m =? t) (copies t s l) = copies t s l.
Proof.
  apply filter_all. intros m Hm. apply copies_In in Hm.
  apply Nat.eqb_eq, Hm.
Qed.

Lemma copies_filter_other t s l c :
  c <> t -> filter (fun m => m_conversationId m =? c) (copies t s l) = [].
Proof.
  intros Hc. apply filter_none. intros m Hm. apply copies_In in Hm.
  apply Nat.eqb_neq. lia.
Qed.

(* ===================================================================== *)
(** * Identifiers stay allocated and unique *)
(* ===================================================================== *)

Lemma Forall_lt_mono {A} (f : A -> nat) n n' l :
  n <= n' -> Forall (fun r => f r < n) l -> Forall (fun r => f r < n') l.
Proof. intros Hn. apply Forall_impl. intros; lia. Qed.

Lemma Forall_lt2_mono n n' (l : list Message) :
  n <= n' ->
  Forall (fun m => m_id m < n /\ m_conversationId m < n) l ->
  Forall (fun m => m_id m < n' /\ m_conversationId m < n') l.
Proof. intros Hn. apply Forall_impl. intros; lia. Qed.

Lemma Forall_filter_keep {A} (P : A -> Prop) p l :
  Forall P l -> Forall P (filter p l).
Proof. apply incl_Forall, incl_filter. Qed.

Lemma map_id_patch {A} (id_of : A -> Id) (q : A -> bool) (f : A -> A) l :
  (forall r, id_of (f r) = id_of r) ->
  map id_of (map (fun r => if q r then f r else r) l) = map id_of l.
Proof.
  intros Hf. rewrite map_map. apply map_ext. intros r.
  destruct (q r); auto.
Qed.

Lemma Forall_id_patch {A} (id_of : A -> Id) (q : A -> bool) (f : A -> A) n l :
  (forall r, id_of (f r) = id_of r) ->
  Forall (fun r => id_of r < n) l ->
  Forall (fun r => id_of r < n) (map (fun r => if q r then f r else r) l).
Proof.
  intros Hf H. apply Forall_map. eapply Forall_impl; [|exact H].
  simpl. intros r Hr. destruct (q r); [rewrite Hf|]; auto.
Qed.

Lemma NoDup_ids_snoc {A} (id_of : A -> Id) n l r :
  Forall (fun r => id_of r < n) l -> NoDup (map id_of l) -> n <= id_of r ->
  NoDup (map id_of (l ++ [r])).
Proof.
  intros F Hnd Hr. apply (NoDup_map_app_fresh id_of l [r] n); auto.
  simpl. constructor; [intros []|constructor].
Qed.

Lemma wf_empty : wf empty_db.
Proof. repeat split; simpl; constructor. Qed.

Lemma wf_createConversation u title pb bm db :
  wf db ->
  wf (mkDB (apiKeys db)
           (conversations db ++ [mkConversation (next_id db) u title pb bm])
           (messages db) (branches db) (S (next_id db))).
Proof.
  intros ((Am & Ac & Ab & Ak) & (Um & Uc & Ub & Uk)).
  repeat split; simpl; auto.
  - eapply Forall_lt2_mono; [|exact Am]; lia.
  - apply Forall_app. split.
    + eapply Forall_lt_mono; [|exact Ac]; lia.
    + constructor; [simpl; lia | constructor].
  - eapply Forall_lt_mono; [|exact Ab]; lia.
  - eapply Forall_lt_mono; [|exact Ak]; lia.
  - eapply NoDup_ids_snoc; eauto.
Qed.

Lemma wf_patch_conversations (q : Conversation -> bool) f db :
  (forall r, c_id (f r) = c_id r) ->
  wf db ->
  wf (set_conversations (map (fun r => if q r then f r else r)
                             (conversations db)) db).
Proof.
  intros Hf ((Am & Ac & Ab & Ak) & (Um & Uc & Ub & Uk)).
  repeat split; simpl; auto.
  - now apply Forall_id_patch.
  - now rewrite map_id_patch.
Qed.

Lemma wf_append_messages db extra n' :
  wf db ->
  next_id db <= n' ->
  Forall (fun m => next_id db <= m_id m < n' /\ m_conversationId m < n') extra ->
  NoDup (map m_id extra) ->
  wf (mkDB (apiKeys db) (conversations db) (messages db ++ extra)
           (branches db) n').
Proof.
  intros ((Am & Ac & Ab & Ak) & (Um & Uc & Ub & Uk)) Hn Fe Ue.
  repeat split; simpl; auto.
  - apply Forall_app. split.
    + eapply Forall_lt2_mono; [|exact Am]; lia.
    + eapply Forall_impl; [|exact Fe]. simpl; intros; lia.
  - eapply Forall_lt_mono; [|exact Ac]; lia.
  - eapply Forall_lt_mono; [|exact Ab]; lia.
  - eapply Forall_lt_mono; [|exact Ak]; lia.
  - apply (NoDup_map_app_fresh m_id _ _ (next_id db)); auto.
    + eapply Forall_impl; [|exact Am]. simpl; intros; lia.
    + eapply Forall_impl; [|exact Fe]. simpl; intros; lia.
Qed.

Lemma wf_append_branch db b :
  wf db -> b_id b = next_id db ->
  wf (mkDB (apiKeys db) (conversations db) (messages db)
           (branches db ++ [b]) (S (next_id db))).
Proof.
  intros ((Am & Ac & Ab & Ak) & (Um & Uc & Ub & Uk)) Hb.
  repeat split; simpl; auto.
  - eapply Forall_lt2_mono; [|exact Am]; lia.
  - eapply Forall_lt_mono; [|exact Ac]; lia.
  - apply Forall_app. split.
    + eapply Forall_lt_mono; [|exact Ab]; lia.
    + constructor; [lia | constructor].
  - eapply Forall_lt_mono; [|exact Ak]; lia.
  - eapply NoDup_ids_snoc; eauto. lia.
Qed.

Lemma wf_filter pk pc pm pb db :
  wf db ->
  wf (mkDB (filter pk (apiKeys db)) (filter pc (conversations db))
           (filter pm (messages db)) (filter pb (branches db)) (next_id db)).
Proof.
  intros ((Am & Ac & Ab & Ak) & (Um & Uc & Ub & Uk)).
  repeat split; simpl;
    try (now apply Forall_filter_keep); now apply NoDup_map_filter.
Qed.

Lemma wf_saveApiKey (q : ApiKey -> bool) u p key db :
  wf db ->
  wf (mkDB (map (fun k => if q k then with_isActive false k else k)
                (apiKeys db)
            ++ [mkApiKey (next_id db) u p key true])
           (conversations db) (messages db) (branches db) (S (next_id db))).
Proof.
  intros ((Am & Ac & Ab & Ak) & (Um & Uc & Ub & Uk)).
  repeat split; simpl; auto.
  - eapply Forall_lt2_mono; [|exact Am]; lia.
  - eapply Forall_lt_mono; [|exact Ac]; lia.
  - eapply Forall_lt_mono; [|exact Ab]; lia.
  - apply Forall_app. split.
    + apply Forall_id_patch; [reflexivity|].
      eapply Forall_lt_mono; [|exact Ak]; lia.
    + constructor; [simpl; lia | constructor].
  - eapply (NoDup_ids_snoc ak_id (next_id db)); simpl; auto.
    + now apply Forall_id_patch.
    + now rewrite map_id_patch.
Qed.

Lemma copies_allocated t s l n :
  t < n -> s + length l <= n ->
  Forall (fun m => s <= m_id m < n /\ m_conversationId m < n) (copies t s l).
Proof.
  intros Ht Hs. rewrite Forall_forall. intros m Hm.
  apply copies_In in Hm. lia.
Qed.

Lemma copies_NoDup t s l : NoDup (map m_id (copies t s l)).
Proof. rewrite copies_ids. apply seq_NoDup. Qed.

(* ===================================================================== *)
(** * Dense indices are preserved *)
(* ===================================================================== *)

Lemma messages_of_app cid db extra k c b n :
  messages_of cid (mkDB k c (messages db ++ extra) b n)
  = messages_of cid db ++ filter (fun m => m_conversationId m =? cid) extra.
Proof. unfold messages_of. simpl. apply filter_app. Qed.

Lemma messages_of_fresh db cid :
  ids_allocated db -> next_id db <= cid -> messages_of cid db = [].
Proof.
  intros (Am & _) Hc. apply filter_none. intros m Hm.
  rewrite Forall_forall in Am. specialize (Am m Hm).
  apply Nat.eqb_neq. lia.
Qed.

Lemma dense_empty : dense empty_db.
Proof. intros cid. reflexivity. Qed.

Lemma dense_same_messages db db' :
  messages db' = messages db -> dense db -> dense db'.
Proof. intros H D cid. unfold messages_of. rewrite H. apply D. Qed.

Lemma dense_addMessage db k c b n i cid content role provider model :
  dense db ->
  dense (mkDB k c
              (messages db
               ++ [mkMessage i cid content role provider model
                             (length (messages_of cid db)) None])
              b n).
Proof.
  intros D cid'. rewrite messages_of_app. simpl.
  destruct (Nat.eqb_spec cid cid') as [<-|Hne].
  - rewrite map_app, length_app, D. simpl.
    now rewrite Nat.add_1_r, seq_S.
  - now rewrite app_nil_r.
Qed.

Lemma dense_copies db k c b n target start l :
  dense db -> messages_of target db = [] ->
  map m_messageIndex l = seq 0 (length l) ->
  dense (mkDB k c (messages db ++ copies target start l) b n).
Proof.
  intros D Hfresh Hl cid. rewrite messages_of_app.
  destruct (Nat.eq_dec cid target) as [->|Hne].
  - rewrite Hfresh, copies_filter_same. simpl.
    now rewrite copies_index, copies_length.
  - rewrite copies_filter_other by exact Hne. rewrite app_nil_r. apply D.
Qed.

Lemma dense_filter db k c b n gone :
  dense db ->
  dense (mkDB k c
              (filter (fun m => negb (mem_id (m_conversationId m) gone))
                      (messages db))
              b n).
Proof.
  intros D cid. unfold messages_of. simpl. rewrite filter_filter.
  destruct (mem_id cid gone) eqn:E.
  - rewrite filter_none; [reflexivity|].
    intros m _. destruct (Nat.eqb_spec (m_conversationId m) cid) as [->|];
      [now rewrite E | apply andb_false_r].
  - rewrite (filter_ext _ (fun m => m_conversationId m =? cid)); [apply D|].
    intros m. simpl.
    destruct (Nat.eqb_spec (m_conversationId m) cid) as [->|];
      [now rewrite E | apply andb_false_r].
Qed.

Lemma dense_sorted db cid :
  dense db -> sort_by_index (messages_of cid db) = messages_of cid db.
Proof.
  intros D. apply sort_by_index_ascending_id.
  eapply seq_ascending. apply D.
Qed.

Lemma messagesToCopy_dense db parent branchMessage :
  dense db ->
  messagesToCopy parent branchMessage db
  = filter (fun msg => m_messageIndex msg <=? m_messageIndex branchMessage)
           (messages_of parent db)
  /\ map m_messageIndex (messagesToCopy parent branchMessage db)
     = seq 0 (length (messagesToCopy parent branchMessage db)).
Proof.
  intros D. unfold messagesToCopy. rewrite (dense_sorted _ _ D).
  pose proof (filter_le_seq (messages_of parent db) 0 _
                (m_messageIndex branchMessage) (D parent)) as H.
  rewrite sort_by_index_ascending_id by (eapply seq_ascending; exact H).
  split; [reflexivity|].
  pose proof (f_equal (@length nat) H) as L.
  rewrite length_map, length_seq in L. rewrite L. exact H.
Qed.

(* ===================================================================== *)
(** * A single active key is preserved *)
(* ===================================================================== *)

Lemma active_keys_filter u p db :
  active_keys u p db
  = filter (fun k => (ak_userId k =? u) && str_eqb (ak_provider k) p
                     && ak_isActive k)
           (apiKeys db).
Proof. unfold active_keys. rewrite keys_of_filter. apply filter_filter. Qed.

Lemma filter_length_le {A} (p : A -> bool) l :
  length (filter p l) <= length l.
Proof. induction l as [|x l IH]; simpl; [|destruct (p x); simpl]; lia. Qed.

Lemma single_active_empty : single_active empty_db.
Proof. intros u p. simpl. lia. Qed.

Lemma single_active_same_keys db db' :
  apiKeys db' = apiKeys db -> single_active db -> single_active db'.
Proof.
  intros H S u p. unfold active_keys, keys_of. rewrite H. apply S.
Qed.

Lemma single_active_filter db q c m b n :
  single_active db -> single_active (mkDB (filter q (apiKeys db)) c m b n).
Proof.
  intros S u p. specialize (S u p). rewrite active_keys_filter in *. simpl.
  rewrite filter_filter.
  erewrite filter_ext with (g := fun k => _); [|intros k; apply andb_comm].
  rewrite <- filter_filter.
  etransitivity; [apply filter_length_le | exact S].
Qed.

(** Among the deactivated keys of a pair, the active keys of any other
    pair are the ones there were; the pair itself has none left. *)
Lemma deactivated_active_keys u p u' p' (l : list ApiKey) :
  filter (fun k => (ak_userId k =? u') && str_eqb (ak_provider k) p'
                   && ak_isActive k)
         (map (fun k => if (ak_userId k =? u) && str_eqb (ak_provider k) p
                        then with_isActive false k else k) l)
  = if (u' =? u) && str_eqb p' p then []
    else filter (fun k => (ak_userId k =? u') && str_eqb (ak_provider k) p'
                          && ak_isActive k) l.
Proof.
  induction l as [|k l IH]; simpl.
  - now destruct (_ && _).
  - rewrite IH. clear IH.
    destruct (Nat.eqb_spec (ak_userId k) u) as [Eu|Eu];
      destruct (str_eqb (ak_provider k) p) eqn:Ep; simpl.
    + apply str_eqb_eq in Ep. rewrite andb_false_r.
      destruct (Nat.eqb_spec u' u) as [->|Hu]; simpl.
      * destruct (str_eqb p' p) eqn:Ep'; [reflexivity|].
        rewrite Eu, Nat.eqb_refl, Ep. simpl.
        apply str_eqb_neq in Ep'.
        destruct (str_eqb p p') eqn:E; [|reflexivity].
        apply str_eqb_eq in E. congruence.
      * rewrite Eu. destruct (Nat.eqb_spec u u'); [congruence|reflexivity].
    + destruct (Nat.eqb_spec u' u) as [->|Hu]; simpl.
      * destruct (str_eqb p' p) eqn:Ep'; [|reflexivity].
        apply str_eqb_eq in Ep'. subst p'. now rewrite Ep, andb_false_r.
      * reflexivity.
    + destruct (Nat.eqb_spec u' u) as [->|Hu]; simpl.
      * destruct (str_eqb p' p) eqn:Ep'; [|reflexivity].
        destruct (Nat.eqb_spec (ak_userId k) u); [congruence|reflexivity].
      * reflexivity.
    + destruct (Nat.eqb_spec u' u) as [->|Hu]; simpl.
      * destruct (str_eqb p' p) eqn:Ep'; [|reflexivity].
        destruct (Nat.eqb_spec (ak_userId k) u); [congruence|reflexivity].
      * reflexivity.
Qed.

Lemma single_active_saveApiKey db u p key c m b n i :
  single_active db ->
  single_active
    (mkDB (map (fun k => if (ak_userId k =? u) && str_eqb (ak_provider k) p
                         then with_isActive false k else k)
               (apiKeys db)
           ++ [mkApiKey i u p key true])
          c m b n).
Proof.
  intros S u' p'. specialize (S u' p'). rewrite active_keys_filter in *.
  simpl. rewrite filter_app, length_app, deactivated_active_keys. simpl.
  rewrite (Nat.eqb_sym u u').
  destruct (Nat.eqb_spec u' u) as [->|Hu]; simpl.
  - destruct (str_eqb p p') eqn:E.
    + apply str_eqb_eq in E. subst p'. rewrite str_eqb_refl. simpl. lia.
    + destruct (str_eqb p' p) eqn:E'.
      * apply str_eqb_eq in E'. subst p'. rewrite str_eqb_refl in E.
        discriminate.
      * simpl. lia.
  - simpl. lia.
Qed.

(* ===================================================================== *)
(** * Every mutation preserves the invariant *)
(* ===================================================================== *)

Lemma db_ext db k c m b n :
  apiKeys db = k -> conversations db = c -> messages db = m ->
  branches db = b -> next_id db = n -> db = mkDB k c m b n.
Proof. destruct db; simpl; intros; subst; reflexivity. Qed.

Lemma commit_preserves {A} (m : M A) (P : DB -> Prop) db :
  P db -> (forall a db', m db = Ok (a, db') -> P db') -> P (commit m db).
Proof.
  intros H0 H. unfold commit. destruct (m db) as [[a db']|] eqn:E; eauto.
Qed.

Lemma inv_empty : inv empty_db.
Proof.
  split; [apply wf_empty | split; [apply dense_empty | apply single_active_empty]].
Qed.

Lemma inv_createConversation auth title pb bm db a db' :
  inv db -> createConversation auth title pb bm db = Ok (a, db') -> inv db'.
Proof.
  intros (W & D & SA) E. destruct auth as [u|]; [|discriminate].
  rewrite createConversation_eq in E. injection E as <- <-.
  split; [now apply wf_createConversation|].
  split; [eapply dense_same_messages; eauto; reflexivity
         | eapply single_active_same_keys; eauto; reflexivity].
Qed.

Lemma inv_updateConversation auth cid title db a db' :
  inv db -> updateConversation auth cid title db = Ok (a, db') -> inv db'.
Proof.
  intros (W & D & SA) E. destruct a.
  apply updateConversation_inv in E. subst db'.
  split; [now apply (wf_patch_conversations (fun r => c_id r =? cid))|].
  split; [eapply dense_same_messages; eauto; reflexivity
         | eapply single_active_same_keys; eauto; reflexivity].
Qed.

Lemma inv_addMessage auth cid content role provider model db a db' :
  inv db ->
  addMessage auth cid content role provider model db = Ok (a, db') -> inv db'.
Proof.
  intros (W & D & SA) E.
  destruct (addMessage_inv _ _ _ _ _ _ _ _ _ E) as (u & c & -> & Hc & Hu).
  rewrite (addMessage_eq u cid content role provider model db c Hc Hu) in E.
  injection E as <- <-.
  split; [|split; [now apply dense_addMessage
                  | eapply single_active_same_keys; eauto; reflexivity]].
  assert (Hcid : cid < next_id db).
  { apply tbl_get_Some in Hc. destruct Hc as [Hin <-].
    destruct W as ((_ & Ac & _) & _). rewrite Forall_forall in Ac. auto. }
  set (C' := if renames db cid role c then _ else _).
  assert (W1 : wf (set_conversations C' db)).
  { subst C'. destruct (renames db cid role c).
    - now apply (wf_patch_conversations (fun r => c_id r =? cid)).
    - unfold set_conversations. now rewrite db_eta. }
  apply (wf_append_messages (set_conversations C' db) _ (S (next_id db)) W1).
  - simpl; lia.
  - constructor; [simpl; lia | constructor].
  - simpl. constructor; [intros [] | constructor].
Qed.

Lemma inv_copy u title bm l db :
  inv db ->
  map m_messageIndex l = seq 0 (length l) ->
  inv (mkDB (apiKeys db)
            (conversations db
             ++ [mkConversation (next_id db) u title None bm])
            (messages db ++ copies (next_id db) (S (next_id db)) l)
            (branches db)
            (S (next_id db) + length l)).
Proof.
  intros (W & D & SA) Hl.
  split; [|split].
  - pose proof (wf_createConversation u title None bm db W) as W1.
    apply (wf_append_messages _ (copies (next_id db) (S (next_id db)) l)
             (S (next_id db) + length l)) in W1; simpl; try lia; auto.
    + rewrite Forall_forall. intros m Hm. apply copies_In in Hm. simpl. lia.
    + apply copies_NoDup.
  - apply dense_copies; auto.
    apply messages_of_fresh; [apply W | lia].
  - eapply single_active_same_keys; eauto; reflexivity.
Qed.

Lemma inv_createBranch auth parent bm name db a db' :
  inv db -> createBranch auth parent bm name db = Ok (a, db') -> inv db'.
Proof.
  intros I E. destruct a as [bid cid].
  apply createBranch_inv in E.
  destruct E as (u & c & branchMessage & -> & Hc & Hu & Hbm & Hp
                 & -> & -> & ->).
  destruct (messagesToCopy_dense db parent branchMessage (proj1 (proj2 I)))
    as [_ Hl].
  pose proof (inv_copy u (c_title c ++ lit " - " ++ name) (Some bm) _ db I Hl)
    as (W1 & D1 & S1).
  split; [|split].
  - apply (wf_append_branch _ _ W1). reflexivity.
  - eapply dense_same_messages; [|exact D1]. reflexivity.
  - eapply single_active_same_keys; [|exact S1]. reflexivity.
Qed.

Lemma inv_duplicateConversation auth cid db a db' :
  inv db -> duplicateConversation auth cid db = Ok (a, db') -> inv db'.
Proof.
  intros I E. apply duplicateConversation_inv in E.
  destruct E as (u & c & -> & Hc & Hu & -> & ->).
  destruct I as (W & D & SA).
  rewrite !(dense_sorted _ _ D).
  pose proof (inv_copy u (c_title c ++ lit " (Copy)") None
                (messages_of cid db) db (conj W (conj D SA)) (D cid)) as I1.
  exact I1.
Qed.

Lemma inv_deleteConversation auth cid db a db' :
  inv db -> deleteConversation auth cid db = Ok (a, db') -> inv db'.
Proof.
  intros (W & D & SA) E. destruct a.
  apply deleteConversation_inv in E; [|apply W].
  destruct E as (u & c & -> & Hc & Hu & M1 & C1 & B1 & K1 & N1).
  rewrite (db_ext db' _ _ _ _ _ K1 C1 M1 B1 N1).
  split; [|split].
  - rewrite <- (filter_all (fun _ => true) (apiKeys db)) by reflexivity.
    now apply wf_filter.
  - now apply dense_filter.
  - eapply single_active_same_keys; [|exact SA]. reflexivity.
Qed.

Lemma inv_saveApiKey auth p key db a db' :
  inv db -> saveApiKey auth p key db = Ok (a, db') -> inv db'.
Proof.
  intros (W & D & SA) E. destruct auth as [u|]; [|discriminate].
  rewrite saveApiKey_eq in E by apply W. injection E as <- <-.
  split; [|split].
  - now apply wf_saveApiKey.
  - eapply dense_same_messages; [|exact D]. reflexivity.
  - now apply single_active_saveApiKey.
Qed.

Lemma inv_deleteApiKey auth keyId db a db' :
  inv db -> deleteApiKey auth keyId db = Ok (a, db') -> inv db'.
Proof.
  intros (W & D & SA) E. destruct a.
  apply deleteApiKey_inv in E. subst db'.
  split; [|split].
  - unfold set_apiKeys.
    rewrite <- (filter_all (fun _ => true) (conversations db)) by reflexivity.
    rewrite <- (filter_all (fun _ => true) (messages db)) by reflexivity.
    rewrite <- (filter_all (fun _ => true) (branches db)) by reflexivity.
    now apply wf_filter.
  - eapply dense_same_messages; [|exact D]. reflexivity.
  - unfold set_apiKeys. now apply single_active_filter.
Qed.

Lemma step_inv o db : inv db -> inv (step o db).
Proof.
  intros I. destruct o; simpl; apply commit_preserves; auto; intros a db' E.
  - eapply inv_createConversation; eauto.
  - eapply inv_updateConversation; eauto.
  - eapply inv_addMessage; eauto.
  - eapply inv_createBranch; eauto.
  - eapply inv_deleteConversation; eauto.
  - eapply inv_duplicateConversation; eauto.
  - eapply inv_saveApiKey; eauto.
  - eapply inv_deleteApiKey; eauto.
Qed.

Lemma run_ops_inv ops db : inv db -> inv (run_ops ops db).
Proof.
  revert db. induction ops as [|o ops IH]; intros db I; simpl; [exact I|].
  apply IH, step_inv, I.
Qed.

Lemma reachable_inv db : reachable db -> inv db.
Proof. intros [ops ->]. apply run_ops_inv, inv_empty. Qed.

Lemma run_ops_app ops ops' db :
  run_ops (ops ++ ops') db = run_ops ops' (run_ops ops db).
Proof. unfold run_ops. apply fold_left_app. Qed.

Lemma reachable_run_ops ops db : reachable db -> reachable (run_ops ops db).
Proof.
  intros [ops0 ->]. exists (ops0 ++ ops). now rewrite run_ops_app.
Qed.

(* ===================================================================== *)
(** * The message log *)
(* ===================================================================== *)

(** C3.  In every database that a history of mutations ([addMessage],
    [createBranch], [duplicateConversation], [deleteConversation] and the
    others) produces, the [messageIndex] values of the messages of any
    conversation, sorted ascending, are 0, 1, ..., n-1, where n is the
    number of messages of the conversation: no gap, no duplicate, starting
    at 0. *)
Theorem message_indices_dense db cid :
  reachable db ->
  map m_messageIndex (sort_by_index (messages_of cid db))
  = seq 0 (length (messages_of cid db)).
Proof.
  intros R. destruct (reachable_inv db R) as (_ & D & _).
  rewrite (dense_sorted db cid D). apply D.
Qed.

Lemma ascending_map l :
  ascending l <-> StronglySorted le (map m_messageIndex l).
Proof.
  unfold ascending. induction l as [|x l IH]; simpl.
  - split; constructor.
  - split; intros H; inversion H; subst; constructor;
      try (now apply IH); now apply Forall_map.
Qed.

Lemma payload_index l l' :
  map payload l = map payload l' ->
  map m_messageIndex l = map m_messageIndex l'.
Proof.
  intros H. apply (f_equal (map snd)) in H.
  now rewrite !map_map in H.
Qed.

Lemma tbl_get_patch {A} (id_of : A -> Id) i (q : A -> bool) f t :
  (forall r, id_of (f r) = id_of r) ->
  tbl_get id_of i (map (fun r => if q r then f r else r) t)
  = option_map (fun r => if q r then f r else r) (tbl_get id_of i t).
Proof.
  intros Hf. unfold tbl_get. induction t as [|x t IH]; simpl; [reflexivity|].
  replace (id_of (if q x then f x else x)) with (id_of x)
    by (destruct (q x); [rewrite Hf|]; reflexivity).
  destruct (id_of x =? i); [reflexivity | exact IH].
Qed.

(* ===================================================================== *)
(** * Branching *)
(* ===================================================================== *)

(** C2.  A successful [createBranch] makes a new conversation whose
    messages are, in insertion order, the parent's messages with
    [messageIndex] at most that of the branch point, ascending, with the
    same content, role, provider, model and messageIndex under identifiers
    no message had before; the parent conversation and its messages are
    as they were. *)
Theorem createBranch_copies_prefix auth parent bm name db bid cid db' :
  wf db ->
  createBranch auth parent bm name db = Ok ((bid, cid), db') ->
  exists branchPoint,
    tbl_get m_id bm (messages db) = Some branchPoint
    /\ tbl_get c_id cid (conversations db) = None
    /\ messages_of cid db = []
    /\ map payload (messages_of cid db')
       = map payload
           (sort_by_index
              (filter (fun m => m_messageIndex m <=? m_messageIndex branchPoint)
                      (messages_of parent db)))
    /\ ascending (messages_of cid db')
    /\ (forall m, In m (messages_of cid db') ->
                  ~ In (m_id m) (map m_id (messages db)))
    /\ NoDup (map m_id (messages_of cid db'))
    /\ messages_of parent db' = messages_of parent db
    /\ tbl_get c_id parent (conversations db')
       = tbl_get c_id parent (conversations db)
    /\ (forall m, In m (messages db) -> In m (messages db')).
Proof.
  intros W E. apply createBranch_inv in E.
  destruct E as (u & c & branchPoint & -> & Hc & Hu & Hbm & Hp
                 & -> & -> & ->).
  destruct W as ((Am & Ac & Ab & Ak) & (Um & Uc & Ub & Uk)).
  assert (Hfresh : messages_of (next_id db) db = []).
  { apply messages_of_fresh; [repeat split; auto | lia]. }
  assert (Hparent : parent < next_id db).
  { apply tbl_get_Some in Hc. destruct Hc as [Hin <-].
    rewrite Forall_forall in Ac. auto. }
  assert (Hnew : messages_of (next_id db)
                   (mkDB (apiKeys db)
                      (conversations db ++
                       [mkConversation (next_id db) u
                          (c_title c ++ lit " - " ++ name) None (Some bm)])
                      (messages db ++
                       copies (next_id db) (S (next_id db))
                         (messagesToCopy parent branchPoint db))
                      (branches db ++
                       [mkBranch
                          (S (next_id db)
                           + length (messagesToCopy parent branchPoint db))
                          u parent (next_id db) bm name true])
                      (S (S (next_id db)
                          + length (messagesToCopy parent branchPoint db))))
                 = copies (next_id db) (S (next_id db))
                     (messagesToCopy parent branchPoint db)).
  { rewrite messages_of_app, Hfresh, copies_filter_same. reflexivity. }
  assert (Hsort : messagesToCopy parent branchPoint db
                  = sort_by_index
                      (filter (fun m => m_messageIndex m
                                        <=? m_messageIndex branchPoint)
                              (messages_of parent db))).
  { unfold messagesToCopy. rewrite filter_sort_by_index.
    apply sort_by_index_ascending_id, sort_by_index_ascending. }
  exists branchPoint. rewrite Hnew.
  split; [exact Hbm|]. split.
  { apply tbl_get_None. intros Hin. apply in_map_iff in Hin.
    destruct Hin as [r [Hr Hin]]. rewrite Forall_forall in Ac.
    specialize (Ac r Hin). lia. }
  split; [exact Hfresh|]. split.
  { now rewrite copies_payload, Hsort. }
  split.
  { apply ascending_map. rewrite copies_index, Hsort.
    apply ascending_map, sort_by_index_ascending. }
  split.
  { intros m Hm Hin. apply copies_In in Hm.
    apply in_map_iff in Hin. destruct Hin as [m0 [Hid Hin]].
    rewrite Forall_forall in Am. specialize (Am m0 Hin). lia. }
  split; [apply copies_NoDup|]. split.
  { rewrite messages_of_app, copies_filter_other by lia. apply app_nil_r. }
  split.
  { simpl. rewrite tbl_get_app, Hc. reflexivity. }
  intros m Hm. simpl. apply in_or_app. now left.
Qed.

(* ===================================================================== *)
(** * Cascading delete *)
(* ===================================================================== *)

(** C5.  A successful [deleteConversation] removes the conversation, its
    messages, and for every branch record rooted at it the record, the
    branch's target conversation and the target's messages; every other
    conversation, message and branch record stays as it was, in
    particular the branch records rooted at a deleted target (grandchild
    branches); the stored keys are untouched. *)
Theorem deleteConversation_cascade auth cid db db' :
  wf db ->
  deleteConversation auth cid db = Ok (tt, db') ->
  messages db'
  = filter (fun m => negb (mem_id (m_conversationId m)
                                  (cid :: branch_targets cid db)))
           (messages db)
  /\ conversations db'
     = filter (fun c => negb (mem_id (c_id c) (cid :: branch_targets cid db)))
              (conversations db)
  /\ branches db'
     = filter (fun b => negb (b_parentConversationId b =? cid)) (branches db)
  /\ apiKeys db' = apiKeys db
  /\ (forall b, In b (branches db) ->
                In (b_parentConversationId b) (branch_targets cid db) ->
                b_parentConversationId b <> cid ->
                In b (branches db')).
Proof.
  intros W E. apply deleteConversation_inv in E; [|apply W].
  destruct E as (u & c & _ & _ & _ & M1 & C1 & B1 & K1 & _).
  repeat split; auto.
  intros b Hb _ Hne. rewrite B1. apply filter_In. split; [exact Hb|].
  now apply negb_true_iff, Nat.eqb_neq.
Qed.

(* ===================================================================== *)
(** * The key store *)
(* ===================================================================== *)

(** C6.  In every database a history of mutations produces, a user has at
    most one active key per provider.  [saveApiKey] keeps it so: it turns
    [isActive] off on every key of that user for that provider, keeps
    every stored key (those of other users and other providers exactly as
    they were), and adds the new key, which is then the only active one of
    the pair. *)
Theorem single_active_credential db u provider apiKey :
  reachable db ->
  single_active db
  /\ exists db',
      saveApiKey (Some u) provider apiKey db = Ok (next_id db, db')
      /\ apiKeys db'
         = map (fun k => if (ak_userId k =? u)
                            && str_eqb (ak_provider k) provider
                         then with_isActive false k else k)
               (apiKeys db)
           ++ [mkApiKey (next_id db) u provider apiKey true]
      /\ active_keys u provider db'
         = [mkApiKey (next_id db) u provider apiKey true]
      /\ single_active db'.
Proof.
  intros R. destruct (reachable_inv db R) as (W & D & SA).
  split; [exact SA|].
  eexists. split; [apply saveApiKey_eq, W|].
  split; [reflexivity|]. split.
  - rewrite active_keys_filter. simpl.
    rewrite filter_app, deactivated_active_keys.
    rewrite Nat.eqb_refl, str_eqb_refl. simpl.
    now rewrite Nat.eqb_refl, str_eqb_refl.
  - now apply single_active_saveApiKey.
Qed.

(* ===================================================================== *)
(** * Titles *)
(* ===================================================================== *)

Lemma tbl_get_filter_None {A} (id_of : A -> Id) i p t :
  tbl_get id_of i t = None -> tbl_get id_of i (filter p t) = None.
Proof.
  rewrite !tbl_get_None. intros H Hin. apply H.
  apply in_map_iff in Hin. destruct Hin as [r [Hr Hin]].
  apply filter_In in Hin. rewrite <- Hr. apply in_map, Hin.
Qed.

Lemma tbl_get_filter_gone {A} (id_of : A -> Id) i p t :
  (forall r, id_of r = i -> p r = false) ->
  tbl_get id_of i (filter p t) = None.
Proof.
  intros H. apply tbl_get_None. intros Hin.
  apply in_map_iff in Hin. destruct Hin as [r [Hr Hin]].
  apply filter_In in Hin. destruct Hin as [_ Hp].
  rewrite (H r Hr) in Hp. discriminate.
Qed.

Lemma tbl_get_snoc_None {A} (id_of : A -> Id) i t r :
  tbl_get id_of i t = None -> id_of r <> i ->
  tbl_get id_of i (t ++ [r]) = None.
Proof.
  intros H Hr. rewrite tbl_get_app, H. unfold tbl_get. simpl.
  destruct (Nat.eqb_spec (id_of r) i); [contradiction | reflexivity].
Qed.

Lemma settled_grow cid db k b n r extra :
  settled cid db ->
  next_id db <= n -> next_id db <= c_id r ->
  settled cid (mkDB k (conversations db ++ [r]) (messages db ++ extra) b n).
Proof.
  intros [Hlt [Hnone|Hmsgs]] Hn Hr; split; simpl; try lia.
  - left. apply tbl_get_snoc_None; [exact Hnone | lia].
  - right. rewrite messages_of_app. intros E.
    apply app_eq_nil in E. tauto.
Qed.

Lemma step_settled o db cid : wf db -> settled cid db -> settled cid (step o db).
Proof.
  intros W St.
  destruct o; simpl; apply commit_preserves; auto; intros a db' E.
  - destruct auth as [u|]; [|discriminate].
    rewrite createConversation_eq in E. injection E as <- <-.
    rewrite <- (app_nil_r (messages db)).
    apply settled_grow; simpl; auto.
  - destruct a. apply updateConversation_inv in E. subst db'.
    destruct St as [Hlt [Hnone|Hmsgs]]; split; simpl; auto.
    left. rewrite (tbl_get_patch c_id cid (fun r => c_id r =? conversationId))
      by reflexivity.
    now rewrite Hnone.
  - destruct (addMessage_inv _ _ _ _ _ _ _ _ _ E) as (u & c & -> & Hc & Hu).
    rewrite (addMessage_eq u _ content role provider model db c Hc Hu) in E.
    injection E as <- <-.
    destruct St as [Hlt [Hnone|Hmsgs]]; split; simpl; auto.
    + left. destruct (renames db conversationId role c); [|exact Hnone].
      rewrite (tbl_get_patch c_id cid (fun r => c_id r =? conversationId))
        by reflexivity.
      now rewrite Hnone.
    + right. rewrite messages_of_app. intros E.
      apply app_eq_nil in E. tauto.
  - destruct a as [bid bcid]. apply createBranch_inv in E.
    destruct E as (u & c & bp & -> & Hc & Hu & Hbm & Hp & -> & -> & ->).
    apply settled_grow; simpl; auto; lia.
  - destruct a. apply deleteConversation_inv in E; [|apply W].
    destruct E as (u & c & -> & Hc & Hu & M1 & C1 & B1 & K1 & N1).
    destruct St as [Hlt St]. split; [lia|].
    destruct (mem_id cid (conversationId :: branch_targets conversationId db))
      eqn:Hmem.
    + left. rewrite C1. apply tbl_get_filter_gone.
      intros r <-. now rewrite Hmem.
    + destruct St as [Hnone|Hmsgs].
      * left. rewrite C1. now apply tbl_get_filter_None.
      * right. unfold messages_of. rewrite M1, filter_filter.
        rewrite (filter_ext _ (fun m => m_conversationId m =? cid));
          [exact Hmsgs|].
        intros m. destruct (Nat.eqb_spec (m_conversationId m) cid) as [->|];
          [now rewrite Hmem | apply andb_false_r].
  - apply duplicateConversation_inv in E.
    destruct E as (u & c & -> & Hc & Hu & -> & ->).
    apply settled_grow; simpl; auto; lia.
  - destruct auth as [u|]; [|discriminate].
    rewrite saveApiKey_eq in E by apply W. injection E as <- <-.
    destruct St as [Hlt St]. split; simpl; auto.
  - destruct a. apply deleteApiKey_inv in E. subst db'. exact St.
Qed.

Lemma run_ops_settled ops db cid :
  inv db -> settled cid db -> settled cid (run_ops ops db).
Proof.
  revert db. induction ops as [|o ops IH]; intros db I St; simpl; [exact St|].
  apply IH; [apply step_inv, I | apply step_settled; [apply I | exact St]].
Qed.

Lemma title_of_addMessage u cid content role provider model db c :
  tbl_get c_id cid (conversations db) = Some c -> c_userId c = u ->
  forall i db',
    addMessage (Some u) cid content role provider model db = Ok (i, db') ->
    title_of cid db'
    = Some (if renames db cid role c then derived_title content
            else c_title c).
Proof.
  intros Hc Hu i db' E.
  rewrite (addMessage_eq u cid content role provider model db c Hc Hu) in E.
  injection E as <- <-. unfold title_of. simpl.
  destruct (renames db cid role c).
  - rewrite (tbl_get_patch c_id cid (fun r => c_id r =? cid)) by reflexivity.
    rewrite Hc. simpl.
    apply tbl_get_Some in Hc. destruct Hc as [_ ->].
    now rewrite Nat.eqb_refl.
  - now rewrite Hc.
Qed.

(** C4, as stated, fails: in a conversation still titled "New
    Conversation" whose only message is an assistant's, the first user
    message ever appended leaves the title as it is. *)
Lemma title_not_derived_after_assistant :
  title_of 0 assistant_first_db = Some default_title
  /\ filter (fun m => str_eqb (m_role m) role_user)
            (messages_of 0 assistant_first_db) = []
  /\ exists i db',
      addMessage (Some 1) 0 (lit "Explain quicksort") role_user None None
                 assistant_first_db = Ok (i, db')
      /\ title_of 0 db' = Some default_title
      /\ title_of 0 db' <> Some (derived_title (lit "Explain quicksort")).
Proof.
  split; [reflexivity|]. split; [reflexivity|].
  exists 2,
    (step (AddMessage (Some 1) 0 (lit "Explain quicksort") role_user None None)
          assistant_first_db).
  split; [vm_compute; reflexivity|].
  split; [reflexivity|]. vm_compute. discriminate.
Qed.

(** C4 (amended).  [addMessage] derives the title only when it appends the
    first message of the conversation (no message yet), the role is
    "user" and the title is "New Conversation": the title becomes the
    content when that has at most 50 code units, and its first 50 code
    units followed by "..." otherwise.  In every other case the title
    stays, and after an append no later append to the conversation,
    whatever happens in between, changes the title again, even when it is
    still the default. *)
Theorem title_derived_by_first_message
    db u cid content role provider model i db' :
  reachable db ->
  addMessage (Some u) cid content role provider model db = Ok (i, db') ->
  exists c,
    tbl_get c_id cid (conversations db) = Some c
    /\ title_of cid db'
       = Some (if (length (messages_of cid db) =? 0)
                  && str_eqb role role_user
                  && str_eqb (c_title c) default_title
               then derived_title content
               else c_title c)
    /\ (length content <= 50 -> derived_title content = content)
    /\ (50 < length content ->
        derived_title content = firstn 50 content ++ lit "...")
    /\ forall ops auth2 content2 role2 provider2 model2 i2 db2,
         addMessage auth2 cid content2 role2 provider2 model2
                    (run_ops ops db') = Ok (i2, db2) ->
         title_of cid db2 = title_of cid (run_ops ops db').
Proof.
  intros R E. pose proof (reachable_inv db R) as I.
  destruct (addMessage_inv _ _ _ _ _ _ _ _ _ E) as (u0 & c & [= <-] & Hc & Hu).
  exists c. split; [exact Hc|]. split.
  { apply (title_of_addMessage u cid content role provider model db c Hc Hu
             i db' E). }
  split.
  { intros H. unfold derived_title.
    destruct (Nat.ltb_spec 50 (length content)); [lia | reflexivity]. }
  split.
  { intros H. unfold derived_title, substring0.
    destruct (Nat.ltb_spec 50 (length content)); [reflexivity | lia]. }
  intros ops auth2 content2 role2 provider2 model2 i2 db2 E2.
  assert (I' : inv db') by (eapply inv_addMessage; eauto).
  assert (St : settled cid db').
  { rewrite (addMessage_eq u cid content role provider model db c Hc Hu) in E.
    injection E as <- <-. split; simpl.
    - apply tbl_get_Some in Hc. destruct Hc as [Hin <-].
      destruct I as (((_ & Ac & _) & _) & _). rewrite Forall_forall in Ac.
      specialize (Ac c Hin). lia.
    - right. rewrite messages_of_app. intros H.
      apply app_eq_nil in H. destruct H as [_ H]. simpl in H.
      rewrite Nat.eqb_refl in H. discriminate. }
  pose proof (run_ops_settled ops db' cid I' St) as [_ St2].
  destruct (addMessage_inv _ _ _ _ _ _ _ _ _ E2)
    as (u2 & c2 & -> & Hc2 & Hu2).
  rewrite (title_of_addMessage u2 cid content2 role2 provider2 model2
             _ c2 Hc2 Hu2 i2 db2 E2).
  destruct St2 as [Hnone|Hmsgs]; [congruence|].
  unfold renames, title_of. rewrite Hc2. simpl.
  destruct (messages_of cid (run_ops ops db')); [contradiction | reflexivity].
Qed.

(* ===================================================================== *)
(** * Dispatch *)
(* ===================================================================== *)

Lemma run_Ok {A} (m : M A) db sent a db' :
  m db = Ok (a, db') -> run m (mkWorld db sent) = (Ok a, mkWorld db' sent).
Proof. unfold run. simpl. now intros ->. Qed.

Lemma run_Err {A} (m : M A) db sent e :
  m db = Err e -> run m (mkWorld db sent) = (Err e, mkWorld db sent).
Proof. unfold run. simpl. now intros ->. Qed.

Lemma getApiKey_eq u provider db :
  getApiKey (Some u) provider db = Ok (hd_error (active_keys u provider db), db).
Proof. reflexivity. Qed.

(** After a successful append the caller still owns the conversation. *)
Lemma getConversation_after_addMessage u cid content role provider model
    db i db1 :
  addMessage (Some u) cid content role provider model db = Ok (i, db1) ->
  exists c1,
    getConversation (Some u) cid db1
    = Ok ((c1, sort_by_index (messages_of cid db1)), db1).
Proof.
  intros E.
  destruct (addMessage_inv _ _ _ _ _ _ _ _ _ E) as (u0 & c & [= <-] & Hc & Hu).
  rewrite (addMessage_eq u cid content role provider model db c Hc Hu) in E.
  injection E as <- <-.
  set (db1 := mkDB _ _ _ _ _).
  assert (exists c1, tbl_get c_id cid (conversations db1) = Some c1
                     /\ c_userId c1 = u) as (c1 & Hc1 & Hu1).
  { subst db1. simpl. destruct (renames db cid role c).
    - rewrite (tbl_get_patch c_id cid (fun r => c_id r =? cid)) by reflexivity.
      rewrite Hc. simpl. eexists. split; [reflexivity|].
      destruct (c_id c =? cid); exact Hu.
    - eauto. }
  exists c1. unfold getConversation. simpl getAuthUserId.
  unfold bind at 1. unfold ret at 1. unfold bind at 1.
  rewrite (owned_conversation_Ok u cid _ db1 c1 Hc1 Hu1).
  reflexivity.
Qed.

(** [sendMessage] up to its [try] block. *)
Lemma sendMessage_prefix net u cid message provider model db sent key i db1 :
  hd_error (active_keys u provider db) = Some key ->
  addMessage (Some u) cid message role_user None None db = Ok (i, db1) ->
  sendMessage net (Some u) cid message provider model (mkWorld db sent)
  = try_catch
      (abind
         (if str_eqb provider (lit "openai") || str_eqb provider (lit "groq")
             || str_eqb provider (lit "deepseek")
          then callOpenAICompatibleAPI net (PROVIDERS_baseURL provider)
                 (ak_apiKey key) model (apiMessages_of cid message db1)
          else if str_eqb provider (lit "google")
          then callGoogleAPI net (ak_apiKey key) model
                 (apiMessages_of cid message db1)
          else athrow (UnsupportedProvider provider))
         (fun response =>
            abind (addMessage_value (Some u) cid response role_assistant
                     (Some provider) (Some model))
                  (fun _ => aret response)))
      (fun error => athrow (FailedToGetResponse provider error))
      (mkWorld db1 sent).
Proof.
  intros Hkey E.
  destruct (getConversation_after_addMessage _ _ _ _ _ _ _ _ _ E) as [c1 Hg].
  unfold sendMessage.
  unfold abind at 1. rewrite (run_Ok _ db sent u db eq_refl).
  unfold abind at 1.
  rewrite (run_Ok _ db sent _ db (getApiKey_eq u provider db)), Hkey.
  unfold abind at 1. rewrite (run_Ok _ db sent _ _ E).
  unfold abind at 1. rewrite (run_Ok _ db1 sent _ _ Hg).
  reflexivity.
Qed.

Lemma registered_false provider :
  registered provider = false ->
  str_eqb provider (lit "openai") || str_eqb provider (lit "groq")
  || str_eqb provider (lit "deepseek") = false
  /\ str_eqb provider (lit "google") = false.
Proof.
  unfold registered.
  destruct (str_eqb provider (lit "openai")), (str_eqb provider (lit "google")),
    (str_eqb provider (lit "groq")), (str_eqb provider (lit "deepseek"));
    simpl; intros; try discriminate; auto.
Qed.

Lemma registered_true provider :
  registered provider = true ->
  str_eqb provider (lit "openai") || str_eqb provider (lit "groq")
  || str_eqb provider (lit "deepseek") = true
  \/ (str_eqb provider (lit "openai") || str_eqb provider (lit "groq")
      || str_eqb provider (lit "deepseek") = false
      /\ str_eqb provider (lit "google") = true).
Proof.
  unfold registered.
  destruct (str_eqb provider (lit "openai")), (str_eqb provider (lit "google")),
    (str_eqb provider (lit "groq")), (str_eqb provider (lit "deepseek"));
    simpl; intros; try discriminate; auto.
Qed.

Lemma user_message_appended u cid message db i db1 :
  addMessage (Some u) cid message role_user None None db = Ok (i, db1) ->
  i = next_id db
  /\ messages db1
     = messages db
       ++ [mkMessage (next_id db) cid message role_user None None
                     (length (messages_of cid db)) None]
  /\ apiKeys db1 = apiKeys db /\ branches db1 = branches db.
Proof.
  intros E.
  destruct (addMessage_inv _ _ _ _ _ _ _ _ _ E) as (u0 & c & [= <-] & Hc & Hu).
  rewrite (addMessage_eq u cid message role_user None None db c Hc Hu) in E.
  injection E as <- <-. auto.
Qed.

(** C8.  When the user has no active key for the requested provider,
    [sendMessage] throws "No API key found for provider: ..." and the
    database, hence the conversation's message log, is as before; nothing
    is sent upstream. *)
Theorem sendMessage_no_credential
    net u cid message provider model db sent :
  (forall k, In k (apiKeys db) -> ak_userId k = u ->
             ak_provider k = provider -> ak_isActive k = false) ->
  sendMessage net (Some u) cid message provider model (mkWorld db sent)
  = (Err (NoApiKeyFound provider), mkWorld db sent).
Proof.
  intros Hnone.
  assert (Hk : active_keys u provider db = []).
  { rewrite active_keys_filter. apply filter_none. intros k Hin.
    destruct (Nat.eqb_spec (ak_userId k) u) as [Hu|]; [|reflexivity].
    destruct (str_eqb (ak_provider k) provider) eqn:Ep; [|reflexivity].
    apply str_eqb_eq in Ep. simpl. auto. }
  unfold sendMessage.
  unfold abind at 1. rewrite (run_Ok _ db sent u db eq_refl).
  unfold abind at 1.
  rewrite (run_Ok _ db sent _ db (getApiKey_eq u provider db)), Hk.
  reflexivity.
Qed.

(** C10, as stated, fails: a user who holds an active key under a provider
    outside the registry and sends to a conversation of another user gets
    "Conversation not found", not wrapped, and the log gains no message:
    the append itself throws before the provider is looked at. *)
Lemma sendMessage_unsupported_foreign_conversation :
  registered (lit "anthropic") = false
  /\ hd_error (active_keys 1 (lit "anthropic") shared_db)
     = Some (mkApiKey 4 1 (lit "anthropic") (lit "sk-ant") true)
  /\ tbl_get c_id 5 (conversations shared_db)
     = Some (mkConversation 5 2 default_title None None)
  /\ sendMessage unauthorized (Some 1) 5 (lit "And mergesort?")
                 (lit "anthropic") (lit "claude") (mkWorld shared_db [])
     = (Err ConversationNotFound, mkWorld shared_db [])
  /\ messages
       (w_db (snd (sendMessage unauthorized (Some 1) 5 (lit "And mergesort?")
                               (lit "anthropic") (lit "claude")
                               (mkWorld shared_db []))))
     = messages shared_db.
Proof. repeat split; vm_compute; reflexivity. Qed.

(** C10 (amended).  When the user holds an active key under a provider
    identifier outside the registry and the conversation exists and
    belongs to the user, [sendMessage] stores the user message before it
    looks at the provider: the call throws "Failed to get response from
    ...: Unsupported provider: ...", nothing is sent upstream, and the
    log has exactly one new message, of role "user", and no assistant
    message. *)
Theorem sendMessage_unsupported_after_append
    net u cid message provider model db sent key c :
  registered provider = false ->
  hd_error (active_keys u provider db) = Some key ->
  tbl_get c_id cid (conversations db) = Some c -> c_userId c = u ->
  exists db1,
    sendMessage net (Some u) cid message provider model (mkWorld db sent)
    = (Err (FailedToGetResponse provider (UnsupportedProvider provider)),
       mkWorld db1 sent)
    /\ messages db1
       = messages db
         ++ [mkMessage (next_id db) cid message role_user None None
                       (length (messages_of cid db)) None].
Proof.
  intros Hreg Hkey Hc Hu.
  pose proof (addMessage_eq u cid message role_user None None db c Hc Hu) as E.
  eexists. split.
  - rewrite (sendMessage_prefix net u cid message provider model db sent key
               _ _ Hkey E).
    destruct (registered_false provider Hreg) as [-> ->].
    reflexivity.
  - reflexivity.
Qed.

(** What the adapter sends for a registered provider, and how the call
    ends when the answer cannot be stored. *)
Lemma dispatch_failure net u cid provider model key msgs w :
  registered provider = true ->
  (forall r, upstream_failed (net r) = true) ->
  exists r e,
    request_texts r = map am_content msgs
    /\ try_catch
         (abind
            (if str_eqb provider (lit "openai") || str_eqb provider (lit "groq")
                || str_eqb provider (lit "deepseek")
             then callOpenAICompatibleAPI net (PROVIDERS_baseURL provider)
                    (ak_apiKey key) model msgs
             else if str_eqb provider (lit "google")
             then callGoogleAPI net (ak_apiKey key) model msgs
             else athrow (UnsupportedProvider provider))
            (fun response =>
               abind (addMessage_value (Some u) cid response role_assistant
                        (Some provider) (Some model))
                     (fun _ => aret response)))
         (fun error => athrow (FailedToGetResponse provider error)) w
       = (Err (FailedToGetResponse provider e),
          mkWorld (w_db w) (w_sent w ++ [r]))
    /\ (forall status text reply,
          net r = Responded false status text reply ->
          e = ApiError status text \/ e = GoogleApiError status text).
Proof.
  intros Hreg Hfail.
  destruct (registered_true provider Hreg) as [-> | [-> ->]].
  - set (r := ChatCompletions (PROVIDERS_baseURL provider) (ak_apiKey key)
                              model msgs).
    specialize (Hfail r).
    unfold try_catch, abind, callOpenAICompatibleAPI, abind, fetch.
    fold r. destruct (net r) as [|ok status text reply] eqn:En.
    + exists r, FetchFailed. split; [|split]; [reflexivity.. | intros ? ? ? H; rewrite En in H; discriminate].
    + destruct ok; simpl in Hfail |- *.
      * destruct reply as [[s|]|]; [discriminate | |].
        -- exists r, ArgumentValidationError.
           split; [|split]; [reflexivity.. | intros ? ? ? H; rewrite En in H; discriminate].
        -- exists r, MalformedResponse.
           split; [|split]; [reflexivity.. | intros ? ? ? H; rewrite En in H; discriminate].
      * exists r, (ApiError status text).
        split; [|split]; [reflexivity.. |].
        intros ? ? ? H; rewrite En in H. injection H as <- <- _. now left.
  - set (r := GenerateContent (ak_apiKey key) model
                (map (fun msg =>
                        mkGoogleContent
                          (if str_eqb (am_role msg) role_assistant
                           then lit "model" else lit "user")
                          (am_content msg)) msgs)).
    specialize (Hfail r).
    assert (Ht : request_texts r = map am_content msgs).
    { subst r. simpl. now rewrite map_map. }
    unfold try_catch, abind, callGoogleAPI, abind, fetch.
    fold r. destruct (net r) as [|ok status text reply] eqn:En.
    + exists r, FetchFailed.
      split; [|split]; [exact Ht | reflexivity | intros ? ? ? H; rewrite En in H; discriminate].
    + destruct ok; simpl in Hfail |- *.
      * destruct reply as [[s|]|]; [discriminate | |].
        -- exists r, ArgumentValidationError.
           split; [|split]; [exact Ht | reflexivity | intros ? ? ? H; rewrite En in H; discriminate].
        -- exists r, MalformedResponse.
           split; [|split]; [exact Ht | reflexivity | intros ? ? ? H; rewrite En in H; discriminate].
      * exists r, (GoogleApiError status text).
        split; [|split]; [exact Ht | reflexivity |].
        intros ? ? ? H; rewrite En in H. injection H as <- <- _. now right.
Qed.

(** C7.  When the adapter call of a [sendMessage] fails (the fetch
    rejects, the status is not 2xx, or the reply cannot be read as a
    string), the call throws "Failed to get response from ...: ..." with
    the upstream error as its cause (status and body for a non-2xx
    answer); the database is the one the append of the user message left:
    that message is in the log and no assistant message was stored. *)
Theorem sendMessage_upstream_failure
    net u cid message provider model db sent key i db1 :
  registered provider = true ->
  hd_error (active_keys u provider db) = Some key ->
  addMessage (Some u) cid message role_user None None db = Ok (i, db1) ->
  (forall r, upstream_failed (net r) = true) ->
  exists r e,
    sendMessage net (Some u) cid message provider model (mkWorld db sent)
    = (Err (FailedToGetResponse provider e), mkWorld db1 (sent ++ [r]))
    /\ messages db1
       = messages db
         ++ [mkMessage i cid message role_user None None
                       (length (messages_of cid db)) None]
    /\ (forall status text reply,
          net r = Responded false status text reply ->
          e = ApiError status text \/ e = GoogleApiError status text).
Proof.
  intros Hreg Hkey E Hfail.
  rewrite (sendMessage_prefix net u cid message provider model db sent key
             i db1 Hkey E).
  destruct (dispatch_failure net u cid provider model key
              (apiMessages_of cid message db1) (mkWorld db1 sent) Hreg Hfail)
    as (r & e & _ & Hrun & He).
  exists r, e. split; [exact Hrun|]. split; [|exact He].
  destruct (user_message_appended u cid message db i db1 E) as (-> & -> & _).
  reflexivity.
Qed.

(** C1 fails on the code.  In a conversation holding "Explain quicksort"
    and its answer, sending "And mergesort?" makes a request whose
    history ends with the new user message twice: once as read back from
    the log, once pushed again. *)
Theorem sendMessage_repeats_user_message net :
  w_sent (snd (sendMessage net (Some 1) 1 (lit "And mergesort?")
                           (lit "openai") (lit "gpt-4o-mini")
                           (mkWorld chat_db [])))
  = [ChatCompletions (lit "https://api.openai.com/v1") (lit "sk-test")
       (lit "gpt-4o-mini")
       [mkApiMessage role_user (lit "Explain quicksort");
        mkApiMessage role_assistant (lit "Quicksort picks a pivot.");
        mkApiMessage role_user (lit "And mergesort?");
        mkApiMessage role_user (lit "And mergesort?")]].
Proof.
  refine (eq_trans
            (f_equal (fun x => w_sent (snd x))
               (sendMessage_prefix net 1 1 (lit "And mergesort?")
                  (lit "openai") (lit "gpt-4o-mini") chat_db []
                  (mkApiKey 0 1 (lit "openai") (lit "sk-test") true) 4
                  (step (AddMessage (Some 1) 1 (lit "And mergesort?")
                                    role_user None None) chat_db)
                  eq_refl eq_refl)) _).
  cbv beta. unfold try_catch, abind. simpl str_eqb. simpl orb. cbv iota.
  unfold callOpenAICompatibleAPI, abind, fetch.
  match goal with
  | |- context [net ?r] => destruct (net r) as [|[] ? ? [[?|]|]]
  end; reflexivity.
Qed.

(** C9 fails on the code.  [testApiKey] with a provider outside the
    registry enters neither branch, sends nothing and reports that the
    key is valid. *)
Theorem testApiKey_unknown_provider_succeeds net apiKey model w :
  testApiKey net (lit "anthropic") apiKey model w
  = (Ok (mkTestResult true KeyIsValid), w).
Proof. reflexivity. Qed.

Lemma testApiKey_unregistered net provider apiKey model w :
  registered provider = false ->
  testApiKey net provider apiKey model w
  = (Ok (mkTestResult true KeyIsValid), w).
Proof.
  intros Hreg. unfold testApiKey, try_catch, abind.
  destruct (registered_false provider Hreg) as [-> ->]. reflexivity.
Qed.

(** On every reachable database the history handed to the adapter is the
    prior log followed by the new user message twice. *)
Lemma apiMessages_repeat_user_message u cid message db i db1 :
  reachable db ->
  addMessage (Some u) cid message role_user None None db = Ok (i, db1) ->
  map am_content (apiMessages_of cid message db1)
  = map m_content (messages_of cid db) ++ [message; message].
Proof.
  intros R E.
  assert (I1 : inv db1) by (eapply inv_addMessage; eauto using reachable_inv).
  destruct I1 as (_ & D1 & _).
  unfold apiMessages_of. rewrite (dense_sorted db1 cid D1).
  destruct (user_message_appended u cid message db i db1 E) as (_ & Hm & _).
  unfold messages_of at 1. rewrite Hm, filter_app. simpl.
  rewrite Nat.eqb_refl, !map_app, map_map. simpl.
  rewrite <- app_assoc. reflexivity.
Qed.

(* ===================================================================== *)
(** * The statements at concrete inputs *)
(* ===================================================================== *)

Lemma reachable_chat_db : reachable chat_db.
Proof. exists chat_history. reflexivity. Defined.

Lemma reachable_five_db : reachable five_db.
Proof. apply reachable_run_ops, reachable_chat_db. Qed.

Lemma reachable_tree_db : reachable tree_db.
Proof. apply reachable_run_ops, reachable_five_db. Qed.

Lemma reachable_fresh_db : reachable fresh_db.
Proof. eexists. reflexivity. Qed.

Lemma message_indices_dense_witness :
  reachable tree_db
  /\ map m_messageIndex (sort_by_index (messages_of 7 tree_db))
     = seq 0 (length (messages_of 7 tree_db)).
Proof.
  split; [exact reachable_tree_db|].
  apply (message_indices_dense tree_db 7). exact reachable_tree_db.
Defined.

Lemma createBranch_copies_prefix_witness :
  wf five_db
  /\ createBranch (Some 1) 1 4 (lit "alt") five_db
     = Ok ((11, 7), step (CreateBranch (Some 1) 1 4 (lit "alt")) five_db)
  /\ map m_messageIndex
       (messages_of 7 (step (CreateBranch (Some 1) 1 4 (lit "alt")) five_db))
     = [0; 1; 2]
  /\ messages_of 1 (step (CreateBranch (Some 1) 1 4 (lit "alt")) five_db)
     = messages_of 1 five_db.
Proof.
  assert (W : wf five_db) by apply (reachable_inv _ reachable_five_db).
  assert (E : createBranch (Some 1) 1 4 (lit "alt") five_db
              = Ok ((11, 7), step (CreateBranch (Some 1) 1 4 (lit "alt"))
                                  five_db))
    by (vm_compute; reflexivity).
  destruct (createBranch_copies_prefix (Some 1) 1 4 (lit "alt") five_db 11 7
              _ W E)
    as (bp & _ & _ & _ & Hp & _ & _ & _ & Hparent & _).
  split; [exact W|]. split; [exact E|]. split; [reflexivity | exact Hparent].
Defined.

Lemma deleteConversation_cascade_witness :
  wf tree_db
  /\ deleteConversation (Some 1) 1 tree_db
     = Ok (tt, step (DeleteConversation (Some 1) 1) tree_db)
  /\ map c_id (conversations (step (DeleteConversation (Some 1) 1) tree_db))
     = [12]
  /\ branches (step (DeleteConversation (Some 1) 1) tree_db)
     = filter (fun b => negb (b_parentConversationId b =? 1)) (branches tree_db).
Proof.
  assert (W : wf tree_db) by apply (reachable_inv _ reachable_tree_db).
  assert (E : deleteConversation (Some 1) 1 tree_db
              = Ok (tt, step (DeleteConversation (Some 1) 1) tree_db))
    by (vm_compute; reflexivity).
  destruct (deleteConversation_cascade (Some 1) 1 tree_db _ W E)
    as (_ & _ & Hb & _).
  split; [exact W|]. split; [exact E|]. split; [reflexivity | exact Hb].
Defined.

Lemma single_active_credential_witness :
  reachable chat_db
  /\ single_active chat_db
  /\ exists db',
      saveApiKey (Some 1) (lit "openai") (lit "sk-new") chat_db
      = Ok (next_id chat_db, db')
      /\ active_keys 1 (lit "openai") db'
         = [mkApiKey (next_id chat_db) 1 (lit "openai") (lit "sk-new") true].
Proof.
  split; [exact reachable_chat_db|].
  destruct (single_active_credential chat_db 1 (lit "openai") (lit "sk-new")
              reachable_chat_db) as (SA & db' & E & _ & Ha & _).
  split; [exact SA|]. exists db'. split; [exact E | exact Ha].
Defined.

Lemma title_derived_by_first_message_witness :
  reachable fresh_db
  /\ addMessage (Some 1) 0 sixty role_user None None fresh_db
     = Ok (1, step (AddMessage (Some 1) 0 sixty role_user None None) fresh_db)
  /\ title_of 0 (step (AddMessage (Some 1) 0 sixty role_user None None)
                      fresh_db)
     = Some (firstn 50 sixty ++ lit "...").
Proof.
  assert (E : addMessage (Some 1) 0 sixty role_user None None fresh_db
              = Ok (1, step (AddMessage (Some 1) 0 sixty role_user None None)
                            fresh_db))
    by (vm_compute; reflexivity).
  destruct (title_derived_by_first_message fresh_db 1 0 sixty role_user
              None None 1 _ reachable_fresh_db E)
    as (c & Hc & Ht & _ & Hlong & _).
  split; [exact reachable_fresh_db|]. split; [exact E|].
  rewrite Ht. injection Hc as <-. reflexivity.
Defined.

Lemma sendMessage_upstream_failure_witness :
  registered (lit "openai") = true
  /\ (forall r, upstream_failed (unauthorized r) = true)
  /\ exists r,
      sendMessage unauthorized (Some 1) 1 (lit "And mergesort?")
                  (lit "openai") (lit "gpt-4o-mini") (mkWorld chat_db [])
      = (Err (FailedToGetResponse (lit "openai")
                (ApiError 401 (lit "invalid api key"))),
         mkWorld (step (AddMessage (Some 1) 1 (lit "And mergesort?")
                                   role_user None None) chat_db)
                 [r]).
Proof.
  assert (Hreg : registered (lit "openai") = true) by reflexivity.
  assert (Hfail : forall r, upstream_failed (unauthorized r) = true)
    by reflexivity.
  destruct (sendMessage_upstream_failure unauthorized 1 1
              (lit "And mergesort?") (lit "openai") (lit "gpt-4o-mini")
              chat_db [] (mkApiKey 0 1 (lit "openai") (lit "sk-test") true)
              4 (step (AddMessage (Some 1) 1 (lit "And mergesort?") role_user
                                  None None) chat_db)
              Hreg eq_refl eq_refl Hfail)
    as (r & e & Hrun & _ & He).
  split; [exact Hreg|]. split; [exact Hfail|].
  exists r. destruct (He 401%N (lit "invalid api key") None eq_refl)
    as [-> | ->]; [exact Hrun|].
  exfalso. revert Hrun. vm_compute. discriminate.
Defined.

Lemma sendMessage_no_credential_witness :
  active_keys 1 (lit "google") chat_db = []
  /\ sendMessage unauthorized (Some 1) 1 (lit "And mergesort?")
                 (lit "google") (lit "gemini-2.0-flash") (mkWorld chat_db [])
     = (Err (NoApiKeyFound (lit "google")), mkWorld chat_db []).
Proof.
  split; [reflexivity|].
  apply (sendMessage_no_credential unauthorized 1 1 (lit "And mergesort?")
           (lit "google") (lit "gemini-2.0-flash") chat_db []).
  intros k [<-|[]] _ H. vm_compute in H. discriminate.
Defined.

Lemma sendMessage_unsupported_after_append_witness :
  registered (lit "anthropic") = false
  /\ hd_error (active_keys 1 (lit "anthropic") anthropic_db)
     = Some (mkApiKey 4 1 (lit "anthropic") (lit "sk-ant") true)
  /\ exists db1,
      sendMessage unauthorized (Some 1) 1 (lit "And mergesort?")
                  (lit "anthropic") (lit "claude") (mkWorld anthropic_db [])
      = (Err (FailedToGetResponse (lit "anthropic")
                (UnsupportedProvider (lit "anthropic"))),
         mkWorld db1 [])
      /\ map m_role (messages db1)
         = [role_user; role_assistant; role_user].
Proof.
  split; [reflexivity|]. split; [reflexivity|].
  destruct (sendMessage_unsupported_after_append unauthorized 1 1
              (lit "And mergesort?") (lit "anthropic") (lit "claude")
              anthropic_db []
              (mkApiKey 4 1 (lit "anthropic") (lit "sk-ant") true)
              (mkConversation 1 1 (lit "Explain quicksort") None None)
              eq_refl eq_refl eq_refl eq_refl)
    as (db1 & Hrun & Hm).
  exists db1. split; [exact Hrun|]. rewrite Hm. reflexivity.
Defined.

(* ===================================================================== *)
(** * Actions stay within the reachable databases *)
(* ===================================================================== *)

Lemma keeps_aret {A} P (a : A) : keeps P (aret a).
Proof. intros w H. exact H. Qed.

Lemma keeps_athrow {A} P e : keeps P (@athrow A e).
Proof. intros w H. exact H. Qed.

Lemma keeps_abind {A B} P (m : Act A) (k : A -> Act B) :
  keeps P m -> (forall a, keeps P (k a)) -> keeps P (abind m k).
Proof.
  intros Hm Hk w H. unfold abind. specialize (Hm w H).
  destruct (m w) as [[a|e] w']; simpl in *; [apply Hk, Hm | exact Hm].
Qed.

Lemma keeps_try_catch {A} P (body : Act A) handler :
  keeps P body -> (forall e, keeps P (handler e)) ->
  keeps P (try_catch body handler).
Proof.
  intros Hb Hh w H. unfold try_catch. specialize (Hb w H).
  destruct (body w) as [[a|e] w']; simpl in *; [exact Hb | apply Hh, Hb].
Qed.

Lemma keeps_fetch P net r : keeps P (fetch net r).
Proof. intros w H. exact H. Qed.

Lemma keeps_run {A} P (m : M A) :
  (forall db, P db -> P (commit m db)) -> keeps P (run m).
Proof.
  intros Hm w H. specialize (Hm (w_db w) H). unfold run, commit in *.
  destruct (m (w_db w)) as [[a db']|]; simpl; [exact Hm | exact H].
Qed.

Lemma keeps_callOpenAICompatibleAPI P net baseURL apiKey model msgs :
  keeps P (callOpenAICompatibleAPI net baseURL apiKey model msgs).
Proof.
  apply keeps_abind; [apply keeps_fetch|].
  intros [|[] status text [v|]]; simpl;
    auto using keeps_aret, keeps_athrow.
Qed.

Lemma keeps_callGoogleAPI P net apiKey model msgs :
  keeps P (callGoogleAPI net apiKey model msgs).
Proof.
  apply keeps_abind; [apply keeps_fetch|].
  intros [|[] status text [v|]]; simpl;
    auto using keeps_aret, keeps_athrow.
Qed.

Lemma reachable_step o db : reachable db -> reachable (step o db).
Proof. apply (reachable_run_ops [o]). Qed.

Lemma getConversation_reads auth cid db :
  commit (getConversation auth cid) db = db.
Proof.
  unfold commit, getConversation. destruct auth as [u|]; [|reflexivity].
  simpl getAuthUserId. unfold bind at 1. unfold ret at 1. unfold bind at 1.
  destruct (owned_conversation_state u cid ConversationNotFound db)
    as [(c & -> & _) | ->]; reflexivity.
Qed.

(** Whatever the upstream answers and however it ends, [sendMessage]
    leaves a database that a history of mutations produces. *)
Lemma sendMessage_reachable net auth cid message provider model :
  keeps reachable (sendMessage net auth cid message provider model).
Proof.
  unfold sendMessage.
  apply keeps_abind.
  { apply keeps_run. intros db R. now destruct auth. }
  intros _. apply keeps_abind.
  { apply keeps_run. intros db R. now destruct auth. }
  intros [key|]; [|apply keeps_athrow].
  apply keeps_abind.
  { apply keeps_run. intros db R.
    apply (reachable_step (AddMessage auth cid message role_user None None)),
      R. }
  intros _. apply keeps_abind.
  { apply keeps_run. intros db R. now rewrite getConversation_reads. }
  intros conv. apply keeps_try_catch; [|intros e; apply keeps_athrow].
  apply keeps_abind.
  { destruct (_ || _); [apply keeps_callOpenAICompatibleAPI|].
    destruct (str_eqb provider (lit "google"));
      [apply keeps_callGoogleAPI | apply keeps_athrow]. }
  intros response. apply keeps_abind; [|intros _; apply keeps_aret].
  destruct response as [s|]; [|apply keeps_athrow].
  apply keeps_run. intros db R.
  apply (reachable_step (AddMessage auth cid s role_assistant
                                    (Some provider) (Some model))), R.
Qed.

(* ===================================================================== *)
(** * Scenarios *)
(* ===================================================================== *)

(** A first user message of 17 code units names the conversation and gets
    index 0. *)
Example first_message_names_conversation :
  let db := step (AddMessage (Some 1) 0 (lit "Explain quicksort") role_user
                             None None) fresh_db in
  title_of 0 db = Some (lit "Explain quicksort")
  /\ map m_messageIndex (messages_of 0 db) = [0].
Proof. split; reflexivity. Qed.

(** A branch from the message at index 2 of a five-message parent has the
    three messages 0, 1, 2 with the parent's contents. *)
Example branch_at_index_two :
  let db := step (CreateBranch (Some 1) 1 4 (lit "alt")) five_db in
  map payload (messages_of 7 db) = firstn 3 (map payload (messages_of 1 db))
  /\ length (messages_of 1 db) = 5.
Proof. split; reflexivity. Qed.

(** [testApiKey] with a key the upstream rejects reports the failure and
    does not throw. *)
Example testApiKey_invalid_key :
  fst (testApiKey unauthorized (lit "openai") (lit "bad") (lit "gpt-4o-mini")
                  (mkWorld empty_db []))
  = Ok (mkTestResult false
          (KeyTestFailed (ApiError 401 (lit "invalid api key")))).
Proof. reflexivity. Qed.

(** Once a branch target has been deleted on its own, the branch record
    that points to it stays, and deleting the parent throws on the missing
    target. *)
Example delete_parent_after_child :
  let db := step (DeleteConversation (Some 1) 7) tree_db in
  map b_id (branches_of 1 db) = [11]
  /\ deleteConversation (Some 1) 1 db = Err (NonexistentDocument 7).
Proof. split; reflexivity. Qed.

(* ===================================================================== *)
(** * Ownership *)
(* ===================================================================== *)

Lemma owned_conversation_Err u cid e db :
  (forall c, tbl_get c_id cid (conversations db) = Some c -> c_userId c <> u) ->
  owned_conversation u cid e db = Err e.
Proof.
  intros H. unfold owned_conversation, bind, get_conversation.
  destruct (tbl_get c_id cid (conversations db)) as [c|]; [|reflexivity].
  destruct (Nat.eqb_spec (c_userId c) u) as [E|]; [|reflexivity].
  exfalso. exact (H c eq_refl E).
Qed.

(** X1.  A caller who does not own a conversation (it belongs to someone
    else, or does not exist) can neither read nor change it:
    [getConversation], [updateConversation], [addMessage],
    [deleteConversation] and [duplicateConversation] throw "Conversation
    not found" and [createBranch] throws "Parent conversation not found";
    being mutations and queries that throw, they leave the database as
    it is. *)
Theorem foreign_conversation_rejected u cid db :
  (forall c, tbl_get c_id cid (conversations db) = Some c -> c_userId c <> u) ->
  getConversation (Some u) cid db = Err ConversationNotFound
  /\ (forall title,
        updateConversation (Some u) cid title db = Err ConversationNotFound)
  /\ (forall content role provider model,
        addMessage (Some u) cid content role provider model db
        = Err ConversationNotFound)
  /\ (forall messageId name,
        createBranch (Some u) cid messageId name db
        = Err ParentConversationNotFound)
  /\ deleteConversation (Some u) cid db = Err ConversationNotFound
  /\ duplicateConversation (Some u) cid db = Err ConversationNotFound.
Proof.
  intros H.
  pose proof (owned_conversation_Err u cid ConversationNotFound db H) as E.
  pose proof (owned_conversation_Err u cid ParentConversationNotFound db H)
    as E'.
  repeat split; intros;
    [unfold getConversation | unfold updateConversation | unfold addMessage
     | unfold createBranch | unfold deleteConversation
     | unfold duplicateConversation];
    simpl getAuthUserId; unfold bind at 1; unfold ret at 1; unfold bind at 1;
    first [rewrite E | rewrite E']; reflexivity.
Qed.

(* ===================================================================== *)
(** * Creating, renaming and listing conversations *)
(* ===================================================================== *)

Lemma tbl_get_fresh {A} (id_of : A -> Id) n t :
  Forall (fun r => id_of r < n) t -> tbl_get id_of n t = None.
Proof.
  intros F. apply tbl_get_None. intros Hin. apply in_map_iff in Hin.
  destruct Hin as [r [Hr Hin]]. rewrite Forall_forall in F.
  specialize (F r Hin). lia.
Qed.

Lemma tbl_get_snoc_new {A} (id_of : A -> Id) t r :
  tbl_get id_of (id_of r) t = None ->
  tbl_get id_of (id_of r) (t ++ [r]) = Some r.
Proof.
  intros H. rewrite tbl_get_app, H. unfold tbl_get. simpl.
  now rewrite Nat.eqb_refl.
Qed.

Lemma tbl_get_snoc_other {A} (id_of : A -> Id) i t r :
  id_of r <> i -> tbl_get id_of i (t ++ [r]) = tbl_get id_of i t.
Proof.
  intros H. rewrite tbl_get_app. unfold tbl_get at 2. simpl.
  destruct (Nat.eqb_spec (id_of r) i); [contradiction|].
  now destruct (tbl_get id_of i t).
Qed.

(** X2.  In a well-formed database [createConversation] by a signed-in
    user returns a fresh identifier; [getConversation] then opens the
    conversation with exactly the given fields and no message,
    [getUserConversations] lists it last, and every other conversation and
    every message is as before. *)
Theorem createConversation_then_open u title pb bm db :
  wf db ->
  exists db',
    createConversation (Some u) title pb bm db = Ok (next_id db, db')
    /\ tbl_get c_id (next_id db) (conversations db) = None
    /\ getConversation (Some u) (next_id db) db'
       = Ok ((mkConversation (next_id db) u title pb bm, []), db')
    /\ getUserConversations (Some u) db'
       = Ok (filter (fun c => c_userId c =? u) (conversations db)
             ++ [mkConversation (next_id db) u title pb bm], db')
    /\ (forall cid, cid <> next_id db ->
          tbl_get c_id cid (conversations db')
          = tbl_get c_id cid (conversations db))
    /\ messages db' = messages db.
Proof.
  intros W. eexists. split; [apply createConversation_eq|].
  assert (Hnew : tbl_get c_id (next_id db) (conversations db) = None)
    by (apply tbl_get_fresh, W).
  split; [exact Hnew|]. split.
  { unfold getConversation. simpl getAuthUserId.
    unfold bind at 1. unfold ret at 1. unfold bind at 1.
    erewrite owned_conversation_Ok;
      [| simpl; apply (tbl_get_snoc_new c_id _ (mkConversation _ _ _ _ _));
         exact Hnew | reflexivity].
    assert (Hm : messages_of (next_id db) db = [])
      by (apply messages_of_fresh; [apply W | lia]).
    unfold bind, by_conversation, ret, messages_of in *. simpl.
    now rewrite Hm. }
  split.
  { unfold getUserConversations. simpl getAuthUserId.
    unfold bind, ret. simpl. rewrite filter_app. simpl.
    now rewrite Nat.eqb_refl. }
  split; [|reflexivity].
  intros cid Hc. simpl. apply tbl_get_snoc_other. simpl. congruence.
Qed.

Lemma tbl_get_patch_other {A} (id_of : A -> Id) i j f t :
  (forall r, id_of (f r) = id_of r) -> i <> j ->
  tbl_get id_of i (map (fun r => if id_of r =? j then f r else r) t)
  = tbl_get id_of i t.
Proof.
  intros Hf Hij.
  rewrite (tbl_get_patch id_of i (fun r => id_of r =? j)) by exact Hf.
  destruct (tbl_get id_of i t) as [r|] eqn:E; [|reflexivity]. simpl.
  apply tbl_get_Some in E. destruct E as [_ E].
  destruct (Nat.eqb_spec (id_of r) j); [congruence | reflexivity].
Qed.

(** X3.  [updateConversation] by the owner sets the title of that
    conversation and nothing else: every other conversation, every
    message, branch and key, and the identifier counter are as before. *)
Theorem updateConversation_renames u cid title db c :
  tbl_get c_id cid (conversations db) = Some c -> c_userId c = u ->
  exists db',
    updateConversation (Some u) cid title db = Ok (tt, db')
    /\ tbl_get c_id cid (conversations db') = Some (with_title title c)
    /\ (forall cid', cid' <> cid ->
          tbl_get c_id cid' (conversations db')
          = tbl_get c_id cid' (conversations db))
    /\ messages db' = messages db /\ branches db' = branches db
    /\ apiKeys db' = apiKeys db /\ next_id db' = next_id db.
Proof.
  intros Hc Hu.
  exists (set_conversations
            (map (fun r => if c_id r =? cid then with_title title r else r)
                 (conversations db)) db).
  split.
  { unfold updateConversation. simpl getAuthUserId.
    unfold bind at 1. unfold ret at 1. unfold bind at 1.
    rewrite (owned_conversation_Ok u cid _ db c Hc Hu).
    unfold patch_conversation. now rewrite (tbl_patch_present _ _ _ _ _ Hc). }
  split.
  { simpl. rewrite (tbl_get_patch c_id cid (fun r => c_id r =? cid))
      by reflexivity.
    rewrite Hc. simpl. apply tbl_get_Some in Hc. destruct Hc as [_ ->].
    now rewrite Nat.eqb_refl. }
  split; [|repeat split].
  intros cid' Hne. simpl. now apply tbl_get_patch_other.
Qed.

(* ===================================================================== *)
(** * The log is append-only *)
(* ===================================================================== *)

(** X4.  On a reachable database a successful [addMessage] only appends:
    [getConversation] afterwards returns the messages it returned before,
    in the same order, followed by the new message, which carries the
    given content, role, provider and model and the previous message
    count as its index; the logs of all other conversations are as
    before. *)
Theorem addMessage_appends_to_log
    auth cid content role provider model db i db' :
  reachable db ->
  addMessage auth cid content role provider model db = Ok (i, db') ->
  exists c',
    getConversation auth cid db'
    = Ok ((c', sort_by_index (messages_of cid db)
               ++ [mkMessage i cid content role provider model
                             (length (messages_of cid db)) None]), db')
    /\ tbl_get m_id i (messages db) = None
    /\ (forall cid', cid' <> cid -> messages_of cid' db' = messages_of cid' db).
Proof.
  intros R E.
  destruct (reachable_inv db R) as (W & D & _).
  assert (I' : inv db') by (eapply inv_addMessage; eauto using reachable_inv).
  destruct I' as (_ & D' & _).
  destruct (addMessage_inv _ _ _ _ _ _ _ _ _ E) as (u & c & -> & Hc & Hu).
  destruct (getConversation_after_addMessage _ _ _ _ _ _ _ _ _ E) as [c' Hg].
  exists c'. rewrite Hg.
  rewrite (addMessage_eq u cid content role provider model db c Hc Hu) in E.
  injection E as <- <-.
  rewrite (dense_sorted _ cid D'), (dense_sorted _ cid D).
  rewrite messages_of_app. simpl. rewrite Nat.eqb_refl.
  split; [reflexivity|]. split.
  - apply tbl_get_fresh. destruct W as ((Am & _) & _).
    eapply Forall_impl; [|exact Am]. simpl. intros; lia.
  - intros cid' Hne. rewrite messages_of_app. simpl.
    destruct (Nat.eqb_spec cid cid'); [congruence | apply app_nil_r].
Qed.

(* ===================================================================== *)
(** * Duplicates and branch records *)
(* ===================================================================== *)

Lemma sort_by_index_idem l :
  sort_by_index (sort_by_index l) = sort_by_index l.
Proof. apply sort_by_index_ascending_id, sort_by_index_ascending. Qed.

(** X5.  A successful [duplicateConversation] makes a new conversation of
    the same owner, titled with the source's title followed by
    " (Copy)" and with no branch linkage; its messages are, in insertion
    order, copies of all messages of the source in ascending index order
    (same content, role, provider, model and index, fresh identifiers);
    the source's messages and all branch records are as before. *)
Theorem duplicateConversation_copies_all auth cid db nid db' :
  wf db ->
  duplicateConversation auth cid db = Ok (nid, db') ->
  exists c,
    tbl_get c_id cid (conversations db) = Some c
    /\ tbl_get c_id nid (conversations db) = None
    /\ tbl_get c_id nid (conversations db')
       = Some (mkConversation nid (c_userId c) (c_title c ++ lit " (Copy)")
                              None None)
    /\ map payload (messages_of nid db')
       = map payload (sort_by_index (messages_of cid db))
    /\ (forall m, In m (messages_of nid db') ->
                  ~ In (m_id m) (map m_id (messages db)))
    /\ messages_of cid db' = messages_of cid db
    /\ branches db' = branches db.
Proof.
  intros W E. apply duplicateConversation_inv in E.
  destruct E as (u & c & -> & Hc & Hu & -> & ->).
  destruct W as ((Am & Ac & Ab & Ak) & U).
  assert (Hfresh : messages_of (next_id db) db = []).
  { apply messages_of_fresh; [repeat split; auto | lia]. }
  assert (Hcid : cid < next_id db).
  { apply tbl_get_Some in Hc. destruct Hc as [Hin <-].
    rewrite Forall_forall in Ac. auto. }
  assert (Hnone : tbl_get c_id (next_id db) (conversations db) = None)
    by (now apply tbl_get_fresh).
  exists c. split; [exact Hc|]. split; [exact Hnone|]. split.
  { simpl. rewrite <- Hu.
    exact (tbl_get_snoc_new c_id _ (mkConversation _ _ _ _ _) Hnone). }
  rewrite !messages_of_app, Hfresh, copies_filter_same,
    copies_filter_other by lia.
  cbn [app]. rewrite sort_by_index_idem, copies_payload, app_nil_r.
  split; [reflexivity|]. split; [|split; reflexivity].
  intros m Hm Hin. apply copies_In in Hm.
  apply in_map_iff in Hin. destruct Hin as [m0 [Hid Hin]].
  rewrite Forall_forall in Am. specialize (Am m0 Hin). lia.
Qed.

(** X6.  A successful [createBranch] records the fork: it appends one
    active branch record, with a fresh identifier, that links the parent
    to the new conversation at the given message under the given name, so
    that [getBranches] of the parent lists it last; the new conversation
    belongs to the caller, is titled "<parent title> - <name>" and
    remembers the message it was branched from. *)
Theorem createBranch_records_link auth parent bm name db bid cid db' :
  wf db ->
  createBranch auth parent bm name db = Ok ((bid, cid), db') ->
  exists u c,
    auth = Some u
    /\ tbl_get c_id parent (conversations db) = Some c
    /\ tbl_get b_id bid (branches db) = None
    /\ branches db'
       = branches db ++ [mkBranch bid u parent cid bm name true]
    /\ getBranches auth parent db'
       = Ok (branches_of parent db ++ [mkBranch bid u parent cid bm name true],
             db')
    /\ tbl_get c_id cid (conversations db')
       = Some (mkConversation cid u (c_title c ++ lit " - " ++ name)
                              None (Some bm)).
Proof.
  intros W E. apply createBranch_inv in E.
  destruct E as (u & c & bp & -> & Hc & Hu & Hbm & Hp & -> & -> & ->).
  destruct W as ((Am & Ac & Ab & Ak) & U).
  exists u, c. split; [reflexivity|]. split; [exact Hc|]. split.
  { apply tbl_get_None. intros Hin. apply in_map_iff in Hin.
    destruct Hin as [r [Hr Hin]]. rewrite Forall_forall in Ab.
    specialize (Ab r Hin). lia. }
  split; [reflexivity|]. split.
  { unfold getBranches, bind, by_parent, branches_of. simpl.
    rewrite filter_app. simpl. now rewrite Nat.eqb_refl. }
  simpl. apply (tbl_get_snoc_new c_id _ (mkConversation _ _ _ _ _)).
  now apply tbl_get_fresh.
Qed.

(** X7.  [createBranch] by the owner of the parent throws "Branch message
    not found" when the message to branch from does not exist or belongs
    to another conversation. *)
Theorem createBranch_rejects_foreign_message u parent bm name db c :
  tbl_get c_id parent (conversations db) = Some c -> c_userId c = u ->
  (forall m, tbl_get m_id bm (messages db) = Some m ->
             m_conversationId m <> parent) ->
  createBranch (Some u) parent bm name db = Err BranchMessageNotFound.
Proof.
  intros Hc Hu Hm. unfold createBranch. simpl getAuthUserId.
  unfold bind at 1. unfold ret at 1. unfold bind at 1.
  rewrite (owned_conversation_Ok u parent _ db c Hc Hu).
  unfold bind at 1. unfold get_message.
  destruct (tbl_get m_id bm (messages db)) as [m|]; [|reflexivity].
  destruct (Nat.eqb_spec (m_conversationId m) parent) as [E|]; [|reflexivity].
  exfalso. exact (Hm m eq_refl E).
Qed.

(* ===================================================================== *)
(** * Branch records stay linked *)
(* ===================================================================== *)

Lemma branches_linked_same db db' :
  branches db' = branches db -> next_id db <= next_id db' ->
  branches_linked db -> branches_linked db'.
Proof.
  intros Hb Hn [F N]. split; rewrite Hb; [|exact N].
  eapply Forall_impl; [|exact F]. simpl. intros; lia.
Qed.

Lemma step_branches_linked o db :
  wf db -> branches_linked db -> branches_linked (step o db).
Proof.
  intros W L.
  destruct o; simpl; apply commit_preserves; auto; intros a db' E.
  - destruct auth as [u|]; [|discriminate].
    rewrite createConversation_eq in E. injection E as <- <-.
    apply (branches_linked_same db); simpl; auto.
  - destruct a. apply updateConversation_inv in E. subst db'.
    apply (branches_linked_same db); simpl; auto.
  - destruct (addMessage_inv _ _ _ _ _ _ _ _ _ E) as (u & c & -> & Hc & Hu).
    rewrite (addMessage_eq u _ content role provider model db c Hc Hu) in E.
    injection E as <- <-. apply (branches_linked_same db); simpl; auto.
  - destruct a as [bid bcid]. apply createBranch_inv in E.
    destruct E as (u & c & bp & -> & Hc & Hu & Hbm & Hp & -> & -> & ->).
    destruct L as [F N]. destruct W as ((_ & Ac & _) & _).
    assert (Hparent : parentConversationId < next_id db).
    { apply tbl_get_Some in Hc. destruct Hc as [Hin <-].
      rewrite Forall_forall in Ac. auto. }
    split; simpl.
    + apply Forall_app. split.
      * eapply Forall_impl; [|exact F]. simpl. intros; lia.
      * constructor; [simpl; lia | constructor].
    + apply (NoDup_map_app_fresh b_branchConversationId _ _ (next_id db));
        [ exact N
        | simpl; constructor; [intros [] | constructor]
        | eapply Forall_impl; [|exact F]; simpl; intros; lia
        | constructor; [simpl; lia | constructor] ].
  - destruct a. apply deleteConversation_inv in E; [|apply W].
    destruct E as (u & c & -> & Hc & Hu & M1 & C1 & B1 & K1 & N1).
    destruct L as [F N]. split; rewrite B1, ?N1.
    + now apply Forall_filter_keep.
    + now apply NoDup_map_filter.
  - apply duplicateConversation_inv in E.
    destruct E as (u & c & -> & Hc & Hu & -> & ->).
    apply (branches_linked_same db); simpl; auto. lia.
  - destruct auth as [u|]; [|discriminate].
    rewrite saveApiKey_eq in E by apply W. injection E as <- <-.
    apply (branches_linked_same db); simpl; auto.
  - destruct a. apply deleteApiKey_inv in E. subst db'.
    apply (branches_linked_same db); simpl; auto.
Qed.

Lemma reachable_branches_linked db : reachable db -> branches_linked db.
Proof.
  intros [ops ->].
  assert (H : forall ops db, inv db -> branches_linked db ->
                             branches_linked (run_ops ops db)).
  { clear ops. induction ops as [|o ops IH]; intros db I L; simpl; [exact L|].
    apply IH; [apply step_inv, I | apply step_branches_linked; [apply I|exact L]]. }
  apply H; [apply inv_empty|]. split; simpl; constructor.
Qed.

(* ===================================================================== *)
(** * When the cascade returns and when it throws *)
(* ===================================================================== *)

Lemma tbl_get_filter_keep {A} (id_of : A -> Id) i p t :
  (forall r, id_of r = i -> p r = true) ->
  tbl_get id_of i (filter p t) = tbl_get id_of i t.
Proof.
  intros H. unfold tbl_get. induction t as [|x t IH]; simpl; [reflexivity|].
  destruct (Nat.eqb_spec (id_of x) i) as [E|E].
  - rewrite (H x E). simpl. destruct (Nat.eqb_spec (id_of x) i); congruence.
  - destruct (p x); simpl; [|exact IH].
    destruct (Nat.eqb_spec (id_of x) i); [congruence | exact IH].
Qed.

Lemma tbl_delete_present {A} (id_of : A -> Id) i t :
  tbl_get id_of i t <> None ->
  tbl_delete id_of i t = Some (filter (fun r => negb (id_of r =? i)) t).
Proof.
  unfold tbl_delete. destruct (tbl_get id_of i t); [reflexivity | congruence].
Qed.

Lemma delete_branch_target_Ok branch db :
  NoDup (map m_id (messages db)) ->
  tbl_get c_id (b_branchConversationId branch) (conversations db) <> None ->
  tbl_get b_id (b_id branch) (branches db) <> None ->
  exists db', delete_branch_target branch db = Ok (tt, db').
Proof.
  intros Hnd Hc Hb. unfold delete_branch_target.
  unfold bind at 1. unfold by_conversation.
  unfold bind at 1. rewrite (delete_messages_of _ _ Hnd).
  unfold bind at 1. unfold delete_conversation. simpl.
  rewrite (tbl_delete_present c_id _ _ Hc).
  unfold delete_branch. simpl. rewrite (tbl_delete_present b_id _ _ Hb).
  eexists. reflexivity.
Qed.

Lemma delete_branch_target_Err branch db e :
  NoDup (map m_id (messages db)) ->
  delete_branch_target branch db = Err e ->
  exists i, e = NonexistentDocument i
            /\ (i = b_branchConversationId branch
                /\ tbl_get c_id i (conversations db) = None
                \/ i = b_id branch /\ tbl_get b_id i (branches db) = None).
Proof.
  intros Hnd. unfold delete_branch_target.
  unfold bind at 1. unfold by_conversation.
  unfold bind at 1. rewrite (delete_messages_of _ _ Hnd).
  unfold bind at 1. unfold delete_conversation, tbl_delete. simpl.
  destruct (tbl_get c_id _ (conversations db)) eqn:Ec.
  - unfold delete_branch, tbl_delete. simpl.
    destruct (tbl_get b_id _ (branches db)) eqn:Eb; [discriminate|].
    intros [= <-]. eexists. split; [reflexivity|]. right. auto.
  - intros [= <-]. eexists. split; [reflexivity|]. left. auto.
Qed.

Lemma cascade_returns brs db :
  NoDup (map m_id (messages db)) ->
  NoDup (map b_branchConversationId brs) -> NoDup (map b_id brs) ->
  (forall b, In b brs ->
     tbl_get c_id (b_branchConversationId b) (conversations db) <> None
     /\ tbl_get b_id (b_id b) (branches db) <> None) ->
  exists db', for_each brs delete_branch_target db = Ok (tt, db').
Proof.
  revert db. induction brs as [|x brs IH]; intros db Hnd Nt Ni Hex; simpl.
  - eexists. reflexivity.
  - inversion Nt as [|? ? Hxt Nt']; inversion Ni as [|? ? Hxi Ni']; subst.
    destruct (Hex x (or_introl eq_refl)) as [Hc Hb].
    destruct (delete_branch_target_Ok x db Hnd Hc Hb) as [db1 E].
    unfold bind at 1. rewrite E.
    destruct (delete_branch_target_spec x _ _ Hnd E) as (M1 & C1 & B1 & _).
    apply IH; auto.
    + rewrite M1. now apply NoDup_map_filter.
    + intros b Hin. destruct (Hex b (or_intror Hin)) as [Hc' Hb'].
      rewrite C1, B1. split.
      * rewrite tbl_get_filter_other; [exact Hc'|].
        intros Heq. apply Hxt. rewrite <- Heq. now apply in_map.
      * rewrite tbl_get_filter_other; [exact Hb'|].
        intros Heq. apply Hxi. rewrite <- Heq. now apply in_map.
Qed.

Lemma cascade_throws brs db b :
  NoDup (map m_id (messages db)) ->
  In b brs ->
  tbl_get c_id (b_branchConversationId b) (conversations db) = None ->
  exists i, for_each brs delete_branch_target db = Err (NonexistentDocument i).
Proof.
  revert db. induction brs as [|x brs IH]; intros db Hnd Hin Hgone; simpl.
  - destruct Hin.
  - unfold bind at 1.
    destruct (delete_branch_target x db) as [[[] db1]|e] eqn:E.
    + destruct (delete_branch_target_spec x _ _ Hnd E) as (M1 & C1 & _).
      destruct Hin as [->|Hin].
      * exfalso. revert E. unfold delete_branch_target.
        unfold bind at 1. unfold by_conversation.
        unfold bind at 1. rewrite (delete_messages_of _ _ Hnd).
        unfold bind at 1. unfold delete_conversation, tbl_delete. simpl.
        rewrite Hgone. discriminate.
      * apply (IH db1); auto.
        -- rewrite M1. now apply NoDup_map_filter.
        -- rewrite C1. now apply tbl_get_filter_None.
    + destruct (delete_branch_target_Err x db e Hnd E) as (i & -> & _).
      eauto.
Qed.

(** The first half of [deleteConversation], for the owner. *)
Lemma deleteConversation_unfold u cid db c :
  ids_unique db ->
  tbl_get c_id cid (conversations db) = Some c -> c_userId c = u ->
  deleteConversation (Some u) cid db
  = bind (for_each (branches_of cid db) delete_branch_target)
         (fun _ => delete_conversation cid)
         (set_messages
            (filter (fun m => negb (m_conversationId m =? cid)) (messages db))
            db).
Proof.
  intros (Um & _) Hc Hu. unfold deleteConversation. simpl getAuthUserId.
  unfold bind at 1. unfold ret at 1. unfold bind at 1.
  rewrite (owned_conversation_Ok u cid _ db c Hc Hu).
  unfold bind at 1. unfold by_conversation at 1.
  unfold bind at 1. rewrite (delete_messages_of _ _ Um).
  unfold bind at 1. unfold by_parent. reflexivity.
Qed.

Lemma deleteConversation_returns u cid db c :
  wf db -> branches_linked db ->
  tbl_get c_id cid (conversations db) = Some c -> c_userId c = u ->
  (forall t, In t (branch_targets cid db) ->
             tbl_get c_id t (conversations db) <> None) ->
  exists db', deleteConversation (Some u) cid db = Ok (tt, db').
Proof.
  intros W [LF LN] Hc Hu Hex.
  rewrite (deleteConversation_unfold u cid db c (proj2 W) Hc Hu).
  destruct W as (_ & (Um & Uc & Ub & Uk)).
  set (db1 := set_messages _ db).
  assert (Hnd1 : NoDup (map m_id (messages db1)))
    by (subst db1; simpl; now apply NoDup_map_filter).
  destruct (cascade_returns (branches_of cid db) db1 Hnd1) as [db2 E].
  { unfold branches_of. now apply NoDup_map_filter. }
  { unfold branches_of. now apply NoDup_map_filter. }
  { intros b Hb. unfold db1. simpl. split.
    - apply Hex. unfold branch_targets. now apply in_map.
    - unfold branches_of in Hb. apply filter_In in Hb.
      destruct (tbl_get_In b_id b (branches db) (proj1 Hb)) as [r ->].
      discriminate. }
  unfold bind. rewrite E.
  destruct (cascade_loop _ _ _ Hnd1 E) as (_ & C2 & _).
  unfold delete_conversation.
  rewrite (tbl_delete_present c_id cid (conversations db2)).
  - eexists. reflexivity.
  - rewrite C2. subst db1. simpl. rewrite tbl_get_filter_keep.
    + rewrite Hc. discriminate.
    + intros r <-. apply negb_true_iff.
      destruct (mem_id (c_id r) _) eqn:Hmem; [|reflexivity].
      apply mem_id_In in Hmem. apply in_map_iff in Hmem.
      destruct Hmem as [b [Hbt Hb]]. unfold branches_of in Hb.
      apply filter_In in Hb. destruct Hb as [Hb Hp].
      apply Nat.eqb_eq in Hp. rewrite Forall_forall in LF.
      specialize (LF b Hb). lia.
Qed.

Lemma deleteConversation_stuck u cid db c b :
  wf db ->
  tbl_get c_id cid (conversations db) = Some c -> c_userId c = u ->
  In b (branches db) -> b_parentConversationId b = cid ->
  tbl_get c_id (b_branchConversationId b) (conversations db) = None ->
  exists i, deleteConversation (Some u) cid db = Err (NonexistentDocument i).
Proof.
  intros W Hc Hu Hb Hp Hgone.
  rewrite (deleteConversation_unfold u cid db c (proj2 W) Hc Hu).
  destruct W as (_ & (Um & _)).
  set (db1 := set_messages _ db).
  destruct (cascade_throws (branches_of cid db) db1 b) as [i E].
  - subst db1; simpl; now apply NoDup_map_filter.
  - unfold branches_of. apply filter_In. split; [exact Hb|].
    now apply Nat.eqb_eq.
  - exact Hgone.
  - exists i. unfold bind. now rewrite E.
Qed.

(** X8.  On a reachable database, [deleteConversation] by the owner
    returns if every branch rooted at the conversation still has its
    target conversation; if the target of one of them is gone, it throws
    on the delete of a missing document, and the mutation deletes
    nothing. *)
Theorem deleteConversation_returns_or_throws u cid db c :
  reachable db ->
  tbl_get c_id cid (conversations db) = Some c -> c_userId c = u ->
  ((forall t, In t (branch_targets cid db) ->
              tbl_get c_id t (conversations db) <> None) ->
   exists db', deleteConversation (Some u) cid db = Ok (tt, db'))
  /\ (forall t, In t (branch_targets cid db) ->
                tbl_get c_id t (conversations db) = None ->
                exists i, deleteConversation (Some u) cid db
                          = Err (NonexistentDocument i)).
Proof.
  intros R Hc Hu. destruct (reachable_inv db R) as (W & _).
  split.
  - intros Hex.
    exact (deleteConversation_returns u cid db c W
             (reachable_branches_linked db R) Hc Hu Hex).
  - intros t Ht Hgone. unfold branch_targets in Ht.
    apply in_map_iff in Ht. destruct Ht as [b [<- Hb]].
    unfold branches_of in Hb. apply filter_In in Hb. destruct Hb as [Hb Hp].
    apply Nat.eqb_eq in Hp.
    exact (deleteConversation_stuck u cid db c b W Hc Hu Hb Hp Hgone).
Qed.

Lemma filter_drop_copies (old : list Message) n s l :
  Forall (fun m => m_conversationId m < n) old ->
  filter (fun m => negb (mem_id (m_conversationId m) [n]))
         (old ++ copies n s l) = old.
Proof.
  intros F. rewrite filter_app, filter_all, filter_none.
  - apply app_nil_r.
  - intros m Hm. apply copies_In in Hm. destruct Hm as [_ ->].
    simpl. now rewrite Nat.eqb_refl.
  - intros m Hm. rewrite Forall_forall in F. specialize (F m Hm). simpl.
    destruct (Nat.eqb_spec (m_conversationId m) n); [lia | reflexivity].
Qed.

Lemma filter_drop_new_conversation (old : list Conversation) r :
  Forall (fun c => c_id c < c_id r) old ->
  filter (fun c => negb (mem_id (c_id c) [c_id r])) (old ++ [r]) = old.
Proof.
  intros F. rewrite filter_app, filter_all.
  - simpl. rewrite Nat.eqb_refl. apply app_nil_r.
  - intros c Hc. rewrite Forall_forall in F. specialize (F c Hc). simpl.
    destruct (Nat.eqb_spec (c_id c) (c_id r)); [lia | reflexivity].
Qed.

Lemma no_branch_rooted_at_newer db cid extra :
  branches_linked db -> next_id db <= cid ->
  Forall (fun b => b_parentConversationId b < cid) extra ->
  filter (fun b => b_parentConversationId b =? cid) (branches db ++ extra) = [].
Proof.
  intros [F _] Hn Fe. apply filter_none. intros b Hb.
  apply Nat.eqb_neq. apply in_app_or in Hb. destruct Hb as [Hb|Hb].
  - rewrite Forall_forall in F. specialize (F b Hb). lia.
  - rewrite Forall_forall in Fe. specialize (Fe b Hb). lia.
Qed.





(** X10.  Deleting a duplicate undoes the duplication.  On a reachable
    database, after a successful [duplicateConversation],
    [deleteConversation] of the copy returns and leaves every table
    (conversations, messages, branches, keys) exactly as it was before
    the duplicate was made. *)
Theorem deleting_duplicate_restores auth cid db nid db1 :
  reachable db ->
  duplicateConversation auth cid db = Ok (nid, db1) ->
  exists db2,
    deleteConversation auth nid db1 = Ok (tt, db2)
    /\ conversations db2 = conversations db
    /\ messages db2 = messages db
    /\ branches db2 = branches db
    /\ apiKeys db2 = apiKeys db.
Proof.
  intros R E.
  assert (R1 : reachable db1).
  { replace db1 with (step (DuplicateConversation auth cid) db);
      [now apply reachable_step|]. simpl. unfold commit. now rewrite E. }
  destruct (reachable_inv db R) as (W & _).
  destruct (reachable_inv db1 R1) as (W1 & _).
  pose proof (reachable_branches_linked db R) as L.
  pose proof (reachable_branches_linked db1 R1) as L1.
  apply duplicateConversation_inv in E.
  destruct E as (u & c & -> & Hc & Hu & -> & ->).
  set (new := mkConversation (next_id db) u (c_title c ++ lit " (Copy)")
                             None None) in *.
  set (db1 := mkDB _ _ _ _ _) in *.
  destruct W as ((Am & Ac & Ab & Ak) & U).
  assert (Hfresh : tbl_get c_id (next_id db) (conversations db) = None)
    by (now apply tbl_get_fresh).
  assert (Hnew : tbl_get c_id (next_id db) (conversations db1) = Some new)
    by (exact (tbl_get_snoc_new c_id _ new Hfresh)).
  assert (Hnone : branches_of (next_id db) db1 = []).
  { unfold branches_of, db1. simpl.
    rewrite <- (app_nil_r (branches db)).
    apply no_branch_rooted_at_newer; [exact L | lia | constructor]. }
  destruct (deleteConversation_returns u (next_id db) db1 new W1 L1 Hnew
              eq_refl) as [db2 E2].
  { unfold branch_targets. rewrite Hnone. intros t []. }
  exists db2. split; [exact E2|].
  destruct (deleteConversation_inv _ _ _ _ (proj2 W1) E2)
    as (_ & _ & _ & _ & _ & M2 & C2 & B2 & K2 & N2).
  unfold branch_targets in M2, C2. rewrite Hnone in M2, C2. simpl map in M2, C2.
  split.
  { rewrite C2. unfold db1. simpl conversations.
    apply (filter_drop_new_conversation (conversations db) new). exact Ac. }
  split.
  { rewrite M2. unfold db1. simpl messages. apply filter_drop_copies.
    eapply Forall_impl; [|exact Am]. simpl. intros; lia. }
  split; [|exact K2].
  rewrite B2. unfold db1. simpl branches. apply filter_all.
  intros b Hb. apply negb_true_iff, Nat.eqb_neq.
  destruct L as [F _]. rewrite Forall_forall in F. specialize (F b Hb). lia.
Qed.

(* ===================================================================== *)
(** * Keys: lookup after save and after delete *)
(* ===================================================================== *)

(** X11.  On a reachable database, after [saveApiKey] the lookup
    [getApiKey] of the same user and provider returns the key just saved,
    with the secret given; for every other user or provider [getApiKey]
    returns what it returned before. *)
Theorem saveApiKey_then_getApiKey u provider secret db :
  reachable db ->
  exists db',
    saveApiKey (Some u) provider secret db = Ok (next_id db, db')
    /\ getApiKey (Some u) provider db'
       = Ok (Some (mkApiKey (next_id db) u provider secret true), db')
    /\ (forall u' provider',
          u' <> u \/ provider' <> provider ->
          exists r,
            getApiKey (Some u') provider' db = Ok (r, db)
            /\ getApiKey (Some u') provider' db' = Ok (r, db')).
Proof.
  intros R. destruct (reachable_inv db R) as (W & _).
  eexists. split; [apply saveApiKey_eq, W|]. split.
  - rewrite getApiKey_eq, active_keys_filter. simpl.
    rewrite filter_app, deactivated_active_keys.
    rewrite Nat.eqb_refl, str_eqb_refl. simpl.
    now rewrite Nat.eqb_refl, str_eqb_refl.
  - intros u' provider' Hne. eexists. split; [apply getApiKey_eq|].
    rewrite getApiKey_eq. do 2 f_equal.
    rewrite !active_keys_filter. simpl.
    rewrite filter_app, deactivated_active_keys. simpl.
    assert (Hpair : (u' =? u) && str_eqb provider' provider = false).
    { destruct (Nat.eqb_spec u' u) as [->|]; [|reflexivity]. simpl.
      apply str_eqb_neq. destruct Hne; congruence. }
    rewrite Hpair.
    assert (Hnew : (u =? u') && str_eqb provider provider' = false).
    { rewrite Nat.eqb_sym. destruct (Nat.eqb_spec u' u) as [->|];
        [|reflexivity]. simpl.
      apply str_eqb_neq. destruct Hne; congruence. }
    rewrite Hnew. simpl. now rewrite app_nil_r.
Qed.

Lemma single_active_unique db u p k :
  single_active db -> In k (active_keys u p db) -> active_keys u p db = [k].
Proof.
  intros SA Hin. specialize (SA u p).
  destruct (active_keys u p db) as [|k0 [|k1 l]]; simpl in *;
    [tauto | | lia].
  destruct Hin as [->|[]]. reflexivity.
Qed.

(** X12.  Deleting the active key does not bring an older one back.  On a
    reachable database, [deleteApiKey] by the owner of a key returns and
    removes that document only; if the key was the active one of its
    provider, [getApiKey] for that provider then returns [null], even
    when older, inactive keys of the provider are still stored. *)
Theorem deleteApiKey_leaves_no_active u keyId db k :
  reachable db ->
  tbl_get ak_id keyId (apiKeys db) = Some k -> ak_userId k = u ->
  exists db',
    deleteApiKey (Some u) keyId db = Ok (tt, db')
    /\ apiKeys db' = filter (fun r => negb (ak_id r =? keyId)) (apiKeys db)
    /\ conversations db' = conversations db /\ messages db' = messages db
    /\ branches db' = branches db
    /\ (ak_isActive k = true ->
        getApiKey (Some u) (ak_provider k) db' = Ok (None, db')).
Proof.
  intros R Hk Hu. destruct (reachable_inv db R) as (W & _ & SA).
  exists (set_apiKeys (filter (fun r => negb (ak_id r =? keyId)) (apiKeys db))
                      db).
  split.
  { unfold deleteApiKey. simpl getAuthUserId. unfold bind at 1.
    unfold ret at 1. unfold bind, get_apiKey. rewrite Hk, Hu, Nat.eqb_refl.
    unfold delete_apiKey, tbl_delete. now rewrite Hk. }
  repeat split.
  intros Hact. rewrite getApiKey_eq. do 2 f_equal.
  apply tbl_get_Some in Hk. destruct Hk as [Hin Hid].
  assert (Hk : In k (active_keys u (ak_provider k) db)).
  { rewrite active_keys_filter. apply filter_In. split; [exact Hin|].
    now rewrite Hu, Nat.eqb_refl, str_eqb_refl, Hact. }
  apply (single_active_unique db _ _ _ SA) in Hk.
  rewrite active_keys_filter in *. simpl. rewrite filter_filter.
  erewrite filter_ext; [rewrite <- filter_filter, Hk|].
  2:{ intros r. apply andb_comm. }
  simpl. now rewrite Hid, Nat.eqb_refl.
Qed.

(** X13.  Keys are private to their user.  Whatever the database,
    [getApiKey] only ever returns an active key of the caller for the
    provider asked, [getApiKeys] lists the caller's keys only (one entry
    per stored key of the caller, with its identifier, provider and
    flag), and [deleteApiKey] on a key of another user, or on no key,
    throws "API key not found". *)
Theorem keys_private u provider keyId db :
  (forall k db', getApiKey (Some u) provider db = Ok (Some k, db') ->
     In k (apiKeys db) /\ ak_userId k = u /\ ak_provider k = provider
     /\ ak_isActive k = true)
  /\ (exists infos,
        getApiKeys (Some u) db = Ok (infos, db)
        /\ map ki_id infos
           = map ak_id (filter (fun k => ak_userId k =? u) (apiKeys db))
        /\ forall info, In info infos ->
             exists k, In k (apiKeys db) /\ ak_userId k = u
                       /\ info = mkApiKeyInfo (ak_id k) (ak_provider k)
                                              (ak_isActive k))
  /\ ((forall k, tbl_get ak_id keyId (apiKeys db) = Some k ->
                 ak_userId k <> u) ->
      deleteApiKey (Some u) keyId db = Err ApiKeyNotFound).
Proof.
  split; [|split].
  - intros k db' E. rewrite getApiKey_eq in E. injection E as E _.
    assert (Hin : In k (active_keys u provider db)).
    { destruct (active_keys u provider db); [discriminate|].
      injection E as ->. now left. }
    rewrite active_keys_filter in Hin. apply filter_In in Hin.
    destruct Hin as [Hin Hp]. apply andb_true_iff in Hp.
    destruct Hp as [Hp Ha]. apply andb_true_iff in Hp. destruct Hp as [Hu Hp].
    apply Nat.eqb_eq in Hu. apply str_eqb_eq in Hp. auto.
  - eexists. split; [reflexivity|]. split.
    + now rewrite map_map.
    + intros info Hin. apply in_map_iff in Hin.
      destruct Hin as [k [<- Hin]]. apply filter_In in Hin.
      destruct Hin as [Hin Hu]. apply Nat.eqb_eq in Hu. eauto.
  - intros H. unfold deleteApiKey. simpl getAuthUserId. unfold bind at 1.
    unfold ret at 1. unfold bind, get_apiKey.
    destruct (tbl_get ak_id keyId (apiKeys db)) as [k|]; [|reflexivity].
    destruct (Nat.eqb_spec (ak_userId k) u) as [E|]; [|reflexivity].
    exfalso. exact (H k eq_refl E).
Qed.

Lemma existsb_over_map {A B} (f : B -> bool) (g : A -> B) l :
  existsb f (map g l) = existsb (fun x => f (g x)) l.
Proof. induction l as [|x l IH]; simpl; [|rewrite IH]; reflexivity. Qed.

(** X14.  The settings panel and the dispatcher agree on what "has a key"
    means: with the list [getApiKeys] returns, [hasApiKey] answers true
    for a provider exactly when [getApiKey] finds a key for it, that is,
    exactly when [sendMessage] gets past its "No API key found" check. *)
Theorem hasApiKey_agrees_with_getApiKey u provider db :
  exists infos r,
    getApiKeys (Some u) db = Ok (infos, db)
    /\ getApiKey (Some u) provider db = Ok (r, db)
    /\ (hasApiKey (Some infos) provider = Some true <-> r <> None)
    /\ hasApiKey None provider = None.
Proof.
  eexists. eexists. split; [reflexivity|]. split; [apply getApiKey_eq|].
  split; [|reflexivity].
  unfold hasApiKey. simpl. rewrite existsb_over_map. simpl.
  rewrite active_keys_filter.
  assert (H : forall l,
             existsb (fun x => str_eqb (ak_provider x) provider
                               && ak_isActive x)
                     (filter (fun k => ak_userId k =? u) l) = true
             <-> hd_error
                   (filter (fun k => (ak_userId k =? u)
                                     && str_eqb (ak_provider k) provider
                                     && ak_isActive k) l) <> None).
  { induction l as [|k l IH]; simpl; [split; [discriminate | congruence]|].
    destruct (ak_userId k =? u); simpl; [|exact IH].
    destruct (str_eqb (ak_provider k) provider && ak_isActive k); simpl;
      [split; [discriminate | reflexivity] | exact IH]. }
  split.
  - intros [= E]. now apply H.
  - intros E. f_equal. now apply H.
Qed.

(* ===================================================================== *)
(** * Dispatch: the remaining paths *)
(* ===================================================================== *)

Lemma sendMessage_try net u cid message provider model db sent key i db1 :
  hd_error (active_keys u provider db) = Some key ->
  addMessage (Some u) cid message role_user None None db = Ok (i, db1) ->
  sendMessage net (Some u) cid message provider model (mkWorld db sent)
  = try_catch
      (abind
         (dispatch net provider (ak_apiKey key) model
                   (apiMessages_of cid message db1))
         (fun response =>
            abind (addMessage_value (Some u) cid response role_assistant
                     (Some provider) (Some model))
                  (fun _ => aret response)))
      (fun error => athrow (FailedToGetResponse provider error))
      (mkWorld db1 sent).
Proof. apply sendMessage_prefix. Qed.

(** The adapter sends one request at most and leaves the database
    alone. *)
Lemma dispatch_effect net provider apiKey model msgs w :
  exists res reqs,
    dispatch net provider apiKey model msgs w
    = (res, mkWorld (w_db w) (w_sent w ++ reqs))
    /\ length reqs <= 1
    /\ (registered provider = true ->
        exists r, reqs = [r] /\ request_texts r = map am_content msgs
                  /\ res = match net r with
                           | Rejected => Err FetchFailed
                           | Responded true _ _ (Some v) => Ok v
                           | Responded true _ _ None => Err MalformedResponse
                           | Responded false status text _ =>
                             if str_eqb provider (lit "google")
                             then Err (GoogleApiError status text)
                             else Err (ApiError status text)
                           end).
Proof.
  unfold dispatch.
  destruct (str_eqb provider (lit "openai") || str_eqb provider (lit "groq")
            || str_eqb provider (lit "deepseek")) eqn:Eo.
  - unfold callOpenAICompatibleAPI, abind, fetch.
    set (r := ChatCompletions _ _ _ _).
    assert (Hg : str_eqb provider (lit "google") = false).
    { destruct (str_eqb provider (lit "google")) eqn:Eg; [|reflexivity].
      apply str_eqb_eq in Eg. subst provider. discriminate. }
    destruct (net r) as [|[] status text [v|]] eqn:En;
      (eexists; exists [r]; split; [reflexivity|]; split; [simpl; lia|];
       intros _; exists r; rewrite En, ?Hg; repeat split; reflexivity).
  - destruct (str_eqb provider (lit "google")) eqn:Eg.
    + unfold callGoogleAPI, abind, fetch.
      set (r := GenerateContent _ _ _).
      assert (Ht : request_texts r = map am_content msgs)
        by (subst r; simpl; now rewrite map_map).
      destruct (net r) as [|[] status text [v|]] eqn:En;
        (eexists; exists [r]; split; [reflexivity|]; split; [simpl; lia|];
         intros _; exists r; rewrite En, ?Eg; repeat split; exact Ht).
    + eexists. exists []. rewrite app_nil_r. split; [destruct w; reflexivity|].
      split; [simpl; lia|]. intros H.
      destruct (registered_true provider H) as [E | [_ E]]; congruence.
Qed.

Lemma addMessage_keeps_owner u cid content role provider model db i db1 :
  addMessage (Some u) cid content role provider model db = Ok (i, db1) ->
  exists c1, tbl_get c_id cid (conversations db1) = Some c1 /\ c_userId c1 = u.
Proof.
  intros E.
  destruct (addMessage_inv _ _ _ _ _ _ _ _ _ E) as (u0 & c & [= <-] & Hc & Hu).
  rewrite (addMessage_eq u cid content role provider model db c Hc Hu) in E.
  injection E as <- <-. simpl. destruct (renames db cid role c).
  - rewrite (tbl_get_patch c_id cid (fun r => c_id r =? cid)) by reflexivity.
    rewrite Hc. simpl. eexists. split; [reflexivity|].
    destruct (c_id c =? cid); exact Hu.
  - eauto.
Qed.

(** X15.  The success path of [sendMessage].  With an active key for a
    registered provider, a conversation of the caller and an upstream
    that answers 2xx with a string, [sendMessage] sends exactly one
    request, returns the reply, and leaves the log with exactly two new
    messages at its end: the user's message and then the reply as an
    "assistant" message that carries the provider and the model, at the
    next two indices. *)
Theorem sendMessage_stores_exchange
    net u cid message provider model db sent key c reply :
  registered provider = true ->
  hd_error (active_keys u provider db) = Some key ->
  tbl_get c_id cid (conversations db) = Some c -> c_userId c = u ->
  (forall r, exists status text,
      net r = Responded true status text (Some (JString reply))) ->
  exists r db2,
    sendMessage net (Some u) cid message provider model (mkWorld db sent)
    = (Ok (JString reply), mkWorld db2 (sent ++ [r]))
    /\ messages db2
       = messages db
         ++ [mkMessage (next_id db) cid message role_user None None
                       (length (messages_of cid db)) None;
             mkMessage (S (next_id db)) cid reply role_assistant
                       (Some provider) (Some model)
                       (S (length (messages_of cid db))) None]
    /\ apiKeys db2 = apiKeys db /\ branches db2 = branches db.
Proof.
  intros Hreg Hkey Hc Hu Hnet.
  pose proof (addMessage_eq u cid message role_user None None db c Hc Hu) as E.
  set (db1 := mkDB _ _ _ _ _) in E.
  rewrite (sendMessage_try net u cid message provider model db sent key
             _ db1 Hkey E).
  destruct (dispatch_effect net provider (ak_apiKey key) model
              (apiMessages_of cid message db1) (mkWorld db1 sent))
    as (res & reqs & Hd & _ & Hr).
  destruct (Hr Hreg) as (r & -> & _ & Hres).
  destruct (Hnet r) as (status & text & En). rewrite En in Hres. subst res.
  destruct (addMessage_keeps_owner _ _ _ _ _ _ _ _ _ E) as (c1 & Hc1 & Hu1).
  pose proof (addMessage_eq u cid reply role_assistant (Some provider)
                (Some model) db1 c1 Hc1 Hu1) as E2.
  exists r. eexists. split.
  - unfold try_catch, abind at 1. rewrite Hd. simpl w_db. simpl w_sent.
    unfold abind, addMessage_value.
    rewrite (run_Ok _ db1 (sent ++ [r]) _ _ E2). reflexivity.
  - assert (Hlen : length (messages_of cid db1)
                   = S (length (messages_of cid db))).
    { unfold db1. rewrite messages_of_app. simpl.
      rewrite Nat.eqb_refl, length_app. simpl. lia. }
    cbn [messages apiKeys branches]. rewrite Hlen.
    unfold db1. cbn [messages apiKeys branches next_id].
    rewrite <- app_assoc. repeat split.
Qed.

(** X16.  With a key for the provider but a conversation that is not the
    caller's (or does not exist), [sendMessage] throws "Conversation not
    found" as it is, not wrapped; nothing is stored and nothing is sent
    upstream. *)
Theorem sendMessage_foreign_conversation
    net u cid message provider model db sent key :
  hd_error (active_keys u provider db) = Some key ->
  (forall c, tbl_get c_id cid (conversations db) = Some c -> c_userId c <> u) ->
  sendMessage net (Some u) cid message provider model (mkWorld db sent)
  = (Err ConversationNotFound, mkWorld db sent).
Proof.
  intros Hkey Hc.
  assert (E : addMessage (Some u) cid message role_user None None db
              = Err ConversationNotFound).
  { unfold addMessage. simpl getAuthUserId.
    unfold bind at 1. unfold ret at 1. unfold bind at 1.
    now rewrite (owned_conversation_Err u cid _ db Hc). }
  unfold sendMessage.
  unfold abind at 1. rewrite (run_Ok _ db sent u db eq_refl).
  unfold abind at 1.
  rewrite (run_Ok _ db sent _ db (getApiKey_eq u provider db)), Hkey.
  unfold abind at 1. rewrite (run_Err _ db sent _ E). reflexivity.
Qed.

Lemma testApiKey_registered net provider apiKey model w :
  registered provider = true ->
  exists r res,
    testApiKey net provider apiKey model w
    = (Ok res, mkWorld (w_db w) (w_sent w ++ [r]))
    /\ request_texts r = [test_text]
    /\ (success res = true
        <-> exists status text v, net r = Responded true status text (Some v))
    /\ (success res = false -> exists e, message res = KeyTestFailed e).
Proof.
  intros Hreg. unfold testApiKey.
  destruct (registered_true provider Hreg) as [-> | [-> ->]].
  - unfold try_catch, abind, callOpenAICompatibleAPI, abind, fetch.
    set (r := ChatCompletions _ _ _ _).
    destruct (net r) as [|[] status text [v|]] eqn:En;
      (exists r; eexists; split; [reflexivity|]; split; [reflexivity|];
       rewrite En; simpl; split;
       [split; [try discriminate; eauto
               | intros (? & ? & ? & H); try discriminate; reflexivity]
       | intros; try discriminate; eauto]).
  - unfold try_catch, abind, callGoogleAPI, abind, fetch.
    set (r := GenerateContent _ _ _).
    destruct (net r) as [|[] status text [v|]] eqn:En;
      (exists r; eexists; split; [reflexivity|]; split; [reflexivity|];
       rewrite En; simpl; split;
       [split; [try discriminate; eauto
               | intros (? & ? & ? & H); try discriminate; reflexivity]
       | intros; try discriminate; eauto]).
Qed.

(** X17.  [testApiKey] never throws and never touches the database,
    whatever the provider, the key and the upstream.  For a registered
    provider it sends exactly one request, whose history is the single
    test message, and reports success exactly when the answer is 2xx and
    the reply can be read at all (it need not be a string); otherwise it
    reports failure with the error as its message. *)
Theorem testApiKey_reports net provider apiKey model w :
  (exists res w',
     testApiKey net provider apiKey model w = (Ok res, w')
     /\ w_db w' = w_db w)
  /\ (registered provider = true ->
      exists r res,
        testApiKey net provider apiKey model w
        = (Ok res, mkWorld (w_db w) (w_sent w ++ [r]))
        /\ request_texts r = [test_text]
        /\ (success res = true
            <-> exists status text v,
                  net r = Responded true status text (Some v))
        /\ (success res = false -> exists e, message res = KeyTestFailed e)).
Proof.
  split; [|apply testApiKey_registered].
  destruct (registered provider) eqn:Hreg.
  - destruct (testApiKey_registered net provider apiKey model w Hreg)
      as (r & res & E & _).
    exists res. eexists. split; [exact E | reflexivity].
  - eexists. eexists.
    split; [apply testApiKey_unregistered, Hreg | reflexivity].
Qed.

Lemma addMessage_footprint u cid content role provider model db i db1 :
  addMessage (Some u) cid content role provider model db = Ok (i, db1) ->
  exists m,
    messages db1 = messages db ++ [m] /\ m_conversationId m = cid
    /\ apiKeys db1 = apiKeys db /\ branches db1 = branches db
    /\ (forall cid', cid' <> cid ->
          tbl_get c_id cid' (conversations db1)
          = tbl_get c_id cid' (conversations db)).
Proof.
  intros E.
  destruct (addMessage_inv _ _ _ _ _ _ _ _ _ E) as (u0 & c & [= <-] & Hc & Hu).
  rewrite (addMessage_eq u cid content role provider model db c Hc Hu) in E.
  injection E as <- <-. eexists. simpl. repeat split.
  intros cid' Hne. destruct (renames db cid role c); [|reflexivity].
  now apply tbl_get_patch_other.
Qed.

(** X18.  What [sendMessage] can do at most, on any input and whatever
    the upstream answers and however the call ends: it sends at most one
    request; it appends at most two messages, both to the conversation
    named, and changes or removes no stored message; it leaves every
    other conversation, all keys and all branch records as they were. *)
Theorem sendMessage_footprint net auth cid message provider model db sent :
  exists res db' extra reqs,
    sendMessage net auth cid message provider model (mkWorld db sent)
    = (res, mkWorld db' (sent ++ reqs))
    /\ length reqs <= 1
    /\ messages db' = messages db ++ extra
    /\ length extra <= 2
    /\ Forall (fun m => m_conversationId m = cid) extra
    /\ apiKeys db' = apiKeys db /\ branches db' = branches db
    /\ (forall cid', cid' <> cid ->
          tbl_get c_id cid' (conversations db')
          = tbl_get c_id cid' (conversations db)).
Proof.
  assert (Hsame : forall res,
            exists (res' : result jsval) db' extra reqs,
              (res, mkWorld db sent) = (res', mkWorld db' (sent ++ reqs))
              /\ length reqs <= 1
              /\ messages db' = messages db ++ extra
              /\ length extra <= 2
              /\ Forall (fun m => m_conversationId m = cid) extra
              /\ apiKeys db' = apiKeys db /\ branches db' = branches db
              /\ (forall cid', cid' <> cid ->
                    tbl_get c_id cid' (conversations db')
                    = tbl_get c_id cid' (conversations db))).
  { intros res. exists res, db, [], []. rewrite !app_nil_r.
    repeat split; simpl; auto. }
  destruct auth as [u|]; [|apply Hsame].
  destruct (hd_error (active_keys u provider db)) as [key|] eqn:Hkey.
  2:{ unfold sendMessage. unfold abind at 1.
      rewrite (run_Ok _ db sent u db eq_refl). unfold abind at 1.
      rewrite (run_Ok _ db sent _ db (getApiKey_eq u provider db)), Hkey.
      apply Hsame. }
  destruct (addMessage (Some u) cid message role_user None None db)
    as [[i db1]|e] eqn:E.
  2:{ unfold sendMessage. unfold abind at 1.
      rewrite (run_Ok _ db sent u db eq_refl). unfold abind at 1.
      rewrite (run_Ok _ db sent _ db (getApiKey_eq u provider db)), Hkey.
      unfold abind at 1. rewrite (run_Err _ db sent _ E). apply Hsame. }
  rewrite (sendMessage_try net u cid message provider model db sent key
             i db1 Hkey E).
  destruct (addMessage_footprint _ _ _ _ _ _ _ _ _ E)
    as (m1 & M1 & C1 & K1 & B1 & T1).
  destruct (dispatch_effect net provider (ak_apiKey key) model
              (apiMessages_of cid message db1) (mkWorld db1 sent))
    as (res & reqs & Hd & Hlen & _).
  simpl w_db in Hd. simpl w_sent in Hd.
  assert (Hone : forall res',
            exists (res'' : result jsval) db' extra reqs',
              (res', mkWorld db1 (sent ++ reqs))
              = (res'', mkWorld db' (sent ++ reqs'))
              /\ length reqs' <= 1
              /\ messages db' = messages db ++ extra
              /\ length extra <= 2
              /\ Forall (fun m => m_conversationId m = cid) extra
              /\ apiKeys db' = apiKeys db /\ branches db' = branches db
              /\ (forall cid', cid' <> cid ->
                    tbl_get c_id cid' (conversations db')
                    = tbl_get c_id cid' (conversations db))).
  { intros res'. exists res', db1, [m1], reqs.
    repeat split; simpl; auto. }
  unfold try_catch, abind at 1. rewrite Hd.
  destruct res as [[s|]|e]; try apply Hone.
  unfold abind, addMessage_value, run. simpl w_db. simpl w_sent.
  destruct (addMessage (Some u) cid s role_assistant (Some provider)
                       (Some model) db1) as [[j db2]|e] eqn:E2;
    [|apply Hone].
  destruct (addMessage_footprint _ _ _ _ _ _ _ _ _ E2)
    as (m2 & M2 & C2 & K2 & B2 & T2).
  exists (Ok (JString s)), db2, [m1; m2], reqs.
  split; [reflexivity|]. split; [exact Hlen|]. split.
  { rewrite M2, M1, <- app_assoc. reflexivity. }
  split; [simpl; lia|]. split; [repeat constructor; assumption|].
  split; [congruence|]. split; [congruence|].
  intros cid' Hne. rewrite (T2 cid' Hne). now apply T1.
Qed.

(* ===================================================================== *)
(** * User settings *)
(* ===================================================================== *)

Lemma hd_error_filter_In {A} (p : A -> bool) l x :
  hd_error (filter p l) = Some x -> In x l /\ p x = true.
Proof.
  intros H. apply filter_In.
  destruct (filter p l); [discriminate|]. injection H as ->. now left.
Qed.

Lemma hd_error_nil {A} (l : list A) : hd_error l = None -> l = [].
Proof. destruct l; [reflexivity | discriminate]. Qed.

Lemma filter_map_commute {A} (p : A -> bool) (f : A -> A) l :
  (forall x, p (f x) = p x) -> filter p (map f l) = map f (filter p l).
Proof.
  intros H. induction l as [|x l IH]; simpl; [reflexivity|].
  rewrite H. destruct (p x); simpl; now rewrite IH.
Qed.

Lemma updateUserSettings_existing u args s existing :
  settings_of u s = Some existing ->
  updateUserSettings (Some u) args s
  = Ok (tt, mkStore (core s)
                    (map (fun r => if us_id r =? us_id existing
                                   then with_fields args r else r)
                         (userSettings s))).
Proof.
  intros H. unfold updateUserSettings. rewrite H.
  apply hd_error_filter_In in H. destruct H as [Hin _].
  destruct (tbl_get_In us_id existing (userSettings s) Hin) as [r Hr].
  now rewrite (tbl_patch_present _ _ _ _ _ Hr).
Qed.

Lemma updateUserSettings_first u args s :
  settings_of u s = None ->
  updateUserSettings (Some u) args s
  = Ok (tt, mkStore (bump (core s))
                    (userSettings s
                     ++ [mkUserSettings (next_id (core s)) u args])).
Proof. intros H. unfold updateUserSettings. now rewrite H. Qed.

(** X19.  Settings round trip.  Whatever the store, [updateUserSettings]
    by a signed-in user returns, and [getUserSettings] then returns a
    stored document of that user whose six fields are exactly the
    arguments saved; a user with no stored document gets the fallback
    object (google, gemini-2.0-flash, 0.7, 2000, empty prompt, light). *)
Theorem updateUserSettings_then_get u args s :
  (exists s' row,
     updateUserSettings (Some u) args s = Ok (tt, s')
     /\ getUserSettings (Some u) s' = Ok (StoredSettings row, s')
     /\ us_userId row = u /\ us_fields row = args)
  /\ (settings_of u s = None ->
      getUserSettings (Some u) s
      = Ok (FallbackSettings fallback_settings, s)).
Proof.
  split.
  - destruct (settings_of u s) as [existing|] eqn:E.
    + eexists. exists (with_fields args existing).
      split; [apply updateUserSettings_existing, E|].
      unfold getUserSettings, settings_of in *. simpl.
      rewrite (filter_map_commute (fun r => us_userId r =? u))
        by (intros x; now destruct (us_id x =? us_id existing)).
      pose proof (hd_error_filter_In _ _ _ E) as [_ Hu].
      apply Nat.eqb_eq in Hu.
      destruct (filter _ (userSettings s)) as [|x l]; [discriminate|].
      injection E as ->. simpl. rewrite Nat.eqb_refl. auto.
    + eexists. exists (mkUserSettings (next_id (core s)) u args).
      split; [apply updateUserSettings_first, E|].
      unfold getUserSettings, settings_of in *. simpl.
      rewrite filter_app, (hd_error_nil _ E). simpl.
      rewrite Nat.eqb_refl. auto.
  - intros E. unfold getUserSettings. now rewrite E.
Qed.

Lemma inv_bump db : inv db -> inv (bump db).
Proof.
  intros (((Am & Ac & Ab & Ak) & U) & D & SA).
  split; [|split].
  - split; [|exact U]. repeat split; simpl.
    + eapply Forall_lt2_mono; [|exact Am]; lia.
    + eapply Forall_lt_mono; [|exact Ac]; lia.
    + eapply Forall_lt_mono; [|exact Ab]; lia.
    + eapply Forall_lt_mono; [|exact Ak]; lia.
  - eapply dense_same_messages; [|exact D]. reflexivity.
  - eapply single_active_same_keys; [|exact SA]. reflexivity.
Qed.

Lemma step_next_id o db : wf db -> next_id db <= next_id (step o db).
Proof.
  intros W.
  destruct o; simpl; apply commit_preserves; auto; intros a db' E.
  - destruct auth as [u|]; [|discriminate].
    rewrite createConversation_eq in E. injection E as <- <-. simpl. lia.
  - destruct a. apply updateConversation_inv in E. subst db'. simpl. lia.
  - destruct (addMessage_inv _ _ _ _ _ _ _ _ _ E) as (u & c & -> & Hc & Hu).
    rewrite (addMessage_eq u _ content role provider model db c Hc Hu) in E.
    injection E as <- <-. simpl. lia.
  - destruct a as [bid bcid]. apply createBranch_inv in E.
    destruct E as (u & c & bp & -> & Hc & Hu & Hbm & Hp & -> & -> & ->).
    simpl. lia.
  - destruct a. apply deleteConversation_inv in E; [|apply W].
    destruct E as (u & c & -> & Hc & Hu & M1 & C1 & B1 & K1 & N1). lia.
  - apply duplicateConversation_inv in E.
    destruct E as (u & c & -> & Hc & Hu & -> & ->). simpl. lia.
  - destruct auth as [u|]; [|discriminate].
    rewrite saveApiKey_eq in E by apply W. injection E as <- <-. simpl. lia.
  - destruct a. apply deleteApiKey_inv in E. subst db'. simpl. lia.
Qed.

Lemma store_step_inv o s :
  inv (core s) /\ settings_inv s ->
  inv (core (store_step o s)) /\ settings_inv (store_step o s).
Proof.
  intros [I (F & Ni & Nu)]. destruct o as [o | auth args]; simpl.
  - split; [now apply step_inv|]. repeat split; simpl; auto.
    eapply Forall_lt_mono; [|exact F]. apply step_next_id, I.
  - destruct auth as [u|]; [|simpl; split; [exact I | repeat split; auto]].
    destruct (settings_of u s) as [existing|] eqn:E.
    + rewrite (updateUserSettings_existing u args s existing E). simpl.
      split; [exact I|]. repeat split; simpl.
      * now apply Forall_id_patch.
      * now rewrite map_id_patch.
      * rewrite map_map. erewrite map_ext; [exact Nu|].
        intros r. now destruct (us_id r =? us_id existing).
    + rewrite (updateUserSettings_first u args s E). simpl.
      split; [now apply inv_bump|]. repeat split; simpl.
      * apply Forall_app. split.
        -- eapply Forall_lt_mono; [|exact F]. lia.
        -- constructor; [simpl; lia | constructor].
      * eapply NoDup_ids_snoc; eauto.
      * rewrite map_app. simpl. apply NoDup_app; [exact Nu | | ].
        -- constructor; [intros [] | constructor].
        -- intros v Hv [<-|[]]. apply in_map_iff in Hv.
           destruct Hv as [r [Hr Hin]].
           apply hd_error_nil in E.
           assert (Hf : In r (filter (fun r0 => us_userId r0 =? u)
                                (userSettings s))).
           { apply filter_In. split; [exact Hin | now apply Nat.eqb_eq]. }
           rewrite E in Hf. destruct Hf.
Qed.

Lemma store_reachable_inv s :
  store_reachable s -> inv (core s) /\ settings_inv s.
Proof.
  intros [ops ->].
  assert (H : forall ops s, inv (core s) /\ settings_inv s ->
                            inv (core (store_run ops s))
                            /\ settings_inv (store_run ops s)).
  { clear ops. induction ops as [|o ops IH]; intros s I; simpl; [exact I|].
    apply IH, store_step_inv, I. }
  apply H. split; [apply inv_empty|]. repeat split; simpl; constructor.
Qed.

Lemma NoDup_filter_at_most_one {A} (f : A -> nat) v l :
  NoDup (map f l) -> length (filter (fun r => f r =? v) l) <= 1.
Proof.
  induction l as [|x l IH]; simpl; intros N; [lia|].
  inversion N as [|? ? Hx N']; subst.
  destruct (Nat.eqb_spec (f x) v) as [E|]; [|auto].
  simpl. rewrite filter_none; [simpl; lia|].
  intros y Hy. apply Nat.eqb_neq. intros Ey. apply Hx.
  rewrite E, <- Ey. now apply in_map.
Qed.

(** X20.  One settings document per user, and updates do not leak.  In
    every store that a history of mutations produces (those of the
    conversations and keys, and [updateUserSettings]) a user has at most
    one settings document.  [updateUserSettings] leaves the user with
    exactly one, leaves what every other user gets from the
    [userSettings] table unchanged, and touches no conversation, message,
    key or branch record. *)
Theorem settings_single_document s u args :
  store_reachable s ->
  (forall v, length (filter (fun r => us_userId r =? v) (userSettings s)) <= 1)
  /\ exists s',
      updateUserSettings (Some u) args s = Ok (tt, s')
      /\ length (filter (fun r => us_userId r =? u) (userSettings s')) = 1
      /\ (forall v, v <> u -> settings_of v s' = settings_of v s)
      /\ conversations (core s') = conversations (core s)
      /\ messages (core s') = messages (core s)
      /\ apiKeys (core s') = apiKeys (core s)
      /\ branches (core s') = branches (core s).
Proof.
  intros R. destruct (store_reachable_inv s R) as (I & F & Ni & Nu).
  split; [intros v; now apply NoDup_filter_at_most_one|].
  destruct (settings_of u s) as [existing|] eqn:E.
  - eexists. split; [apply updateUserSettings_existing, E|].
    pose proof (hd_error_filter_In _ _ _ E) as [Hin Hu].
    apply Nat.eqb_eq in Hu. simpl. split; [|split; [|auto]].
    + rewrite (filter_map_commute (fun r => us_userId r =? u))
        by (intros x; now destruct (us_id x =? us_id existing)).
      rewrite length_map.
      pose proof (NoDup_filter_at_most_one us_userId u _ Nu) as Hle.
      unfold settings_of in E.
      destruct (filter _ (userSettings s)); [discriminate | simpl in *; lia].
    + intros v Hv. unfold settings_of. simpl. f_equal.
      rewrite (filter_map_commute (fun r => us_userId r =? v))
        by (intros x; now destruct (us_id x =? us_id existing)).
      rewrite <- (map_id (filter _ (userSettings s))) at 2.
      apply map_ext_in. intros r Hr. apply filter_In in Hr.
      destruct Hr as [Hr Hrv]. apply Nat.eqb_eq in Hrv.
      destruct (Nat.eqb_spec (us_id r) (us_id existing)) as [Eid|];
        [|reflexivity].
      exfalso. apply Hv.
      rewrite <- Hrv, <- Hu.
      now rewrite (NoDup_map_inj us_id _ r existing Ni Hr Hin Eid).
  - eexists. split; [apply updateUserSettings_first, E|].
    simpl. split; [|split; [|auto]].
    + unfold settings_of in E. rewrite filter_app, (hd_error_nil _ E).
      simpl. now rewrite Nat.eqb_refl.
    + intros v Hv. unfold settings_of. simpl. rewrite filter_app. simpl.
      destruct (Nat.eqb_spec u v); [congruence | now rewrite app_nil_r].
Qed.

(** X21.  The store invariants survive settings updates.  In every store
    that a history of mutations including [updateUserSettings] produces,
    the identifiers of the four main tables are allocated and unique, the
    message indices of every conversation are 0, 1, ..., n-1 in creation
    order, and a user has at most one active key per provider. *)
Theorem store_invariants s :
  store_reachable s ->
  wf (core s)
  /\ (forall cid,
        map m_messageIndex (messages_of cid (core s))
        = seq 0 (length (messages_of cid (core s))))
  /\ (forall u provider, length (active_keys u provider (core s)) <= 1)
  /\ settings_inv s.
Proof.
  intros R. destruct (store_reachable_inv s R) as ((W & D & SA) & SI).
  auto.
Qed.

(* ===================================================================== *)
(** * The client *)
(* ===================================================================== *)

(** X22.  The message list shows the log in the order it was written.  On
    a reachable database, sorting what [getConversation] returns, as
    MessageList does, yields the conversation's messages in creation
    order, with the indices 0, 1, ..., n-1; the query itself changes
    nothing. *)
Theorem display_order_is_log_order auth cid db c msgs db' :
  reachable db ->
  getConversation auth cid db = Ok ((c, msgs), db') ->
  db' = db
  /\ sortedMessages msgs = messages_of cid db
  /\ map m_messageIndex (sortedMessages msgs) = seq 0 (length msgs).
Proof.
  intros R E. destruct (reachable_inv db R) as (_ & D & _).
  unfold getConversation in E. destruct auth as [u|]; [|discriminate].
  simpl getAuthUserId in E. unfold bind at 1 in E. unfold ret at 1 in E.
  unfold bind at 1 in E.
  destruct (owned_conversation_state u cid ConversationNotFound db)
    as [(c0 & Ho & _) | Ho]; rewrite Ho in E; [|discriminate].
  unfold bind, by_conversation, ret in E. injection E as <- <- <-.
  unfold sortedMessages. rewrite sort_by_index_idem, (dense_sorted _ _ D).
  repeat split. apply D.
Qed.

Lemma trim_start_head s c t : trim_start s = c :: t -> is_space c = false.
Proof.
  induction s as [|x s IH]; simpl; [discriminate|].
  destruct (is_space x) eqn:E; [exact IH|]. now intros [= <- _].
Qed.

Lemma trim_start_fixed c t : is_space c = false -> trim_start (c :: t) = c :: t.
Proof. intros H. simpl. now rewrite H. Qed.

Lemma trim_start_snoc l c :
  is_space c = false -> trim_start (l ++ [c]) = trim_start l ++ [c].
Proof.
  intros H. induction l as [|x l IH]; simpl; [now rewrite H|].
  destruct (is_space x); [exact IH | reflexivity].
Qed.

Lemma trim_start_nil s : trim_start s = [] <-> forallb is_space s = true.
Proof.
  induction s as [|x s IH]; simpl; [tauto|].
  destruct (is_space x); simpl; [exact IH|]. split; discriminate.
Qed.

(** The shape of a trimmed string: empty, or between two code units that
    are not white space. *)
Lemma trim_shape s :
  trim s = [] /\ trim_start s = []
  \/ exists c b, trim_start s = c :: rev b
                 /\ is_space c = false
                 /\ trim s = c :: rev (trim_start b).
Proof.
  unfold trim. destruct (trim_start s) as [|c a] eqn:E; [now left|].
  right. exists c, (rev a). rewrite rev_involutive.
  pose proof (trim_start_head s c a E) as Hc.
  split; [reflexivity|]. split; [exact Hc|].
  simpl rev. rewrite (trim_start_snoc _ _ Hc), rev_app_distr. reflexivity.
Qed.

Lemma trim_nil s : trim s = [] <-> forallb is_space s = true.
Proof.
  rewrite <- trim_start_nil.
  destruct (trim_shape s) as [[H1 H2] | (c & b & H1 & _ & H2)];
    rewrite ?H1, ?H2; split; auto; discriminate.
Qed.

Lemma trim_head s c t : trim s = c :: t -> is_space c = false.
Proof.
  destruct (trim_shape s) as [[H _] | (c0 & b & _ & Hc & H)]; rewrite H;
    [discriminate|]. now intros [= <- _].
Qed.

Lemma trim_last s l c : trim s = l ++ [c] -> is_space c = false.
Proof.
  unfold trim. intros H. apply (f_equal (@rev _)) in H.
  rewrite rev_involutive, rev_app_distr in H. simpl in H.
  exact (trim_start_head _ _ _ H).
Qed.

Lemma trim_idem s : trim (trim s) = trim s.
Proof.
  destruct (trim s) as [|c t] eqn:E; [reflexivity|].
  unfold trim at 1. rewrite (trim_start_fixed c t (trim_head s c t E)).
  destruct (rev (c :: t)) as [|d r] eqn:Er.
  - apply (f_equal (@rev _)) in Er. rewrite rev_involutive in Er.
    discriminate.
  - assert (Hd : is_space d = false).
    { apply (trim_last s (rev r) d). rewrite E.
      apply (f_equal (@rev _)) in Er. now rewrite rev_involutive in Er. }
    rewrite (trim_start_fixed d r Hd), <- Er. apply rev_involutive.
Qed.

(** X23.  The client never submits blank or untrimmed text.  MessageInput
    hands a message to [onSendMessage] only when it is not already
    sending and the draft is not all white space; what it hands over is
    the draft trimmed: not empty, with no white space at either end, and
    unchanged by another trim; it then clears the draft and sets the
    loading flag.  BranchPanel calls [createBranch] only with a selected
    message and a branch name that is not all white space, and passes the
    name trimmed. *)
Theorem client_submits_trimmed message isLoading cid branchName selected :
  (forall m st,
     handleSubmit message isLoading = (Some m, st) ->
     isLoading = false /\ forallb is_space message = false
     /\ m = trim message /\ m <> [] /\ trim m = m
     /\ (forall c t, m = c :: t -> is_space c = false)
     /\ (forall l c, m = l ++ [c] -> is_space c = false)
     /\ st = ([], true))
  /\ (fst (handleSubmit message isLoading) = None <->
      isLoading = true \/ forallb is_space message = true)
  /\ (forall args,
        handleCreateBranch cid branchName selected = Some args <->
        exists messageId,
          selected = Some messageId
          /\ forallb is_space branchName = false
          /\ args = (cid, messageId, trim branchName)).
Proof.
  split; [|split].
  - intros m st. unfold handleSubmit.
    destruct (trim message) as [|c t] eqn:E; [discriminate|].
    destruct isLoading; [discriminate|]. intros [= <- <-].
    split; [reflexivity|]. split.
    { destruct (forallb is_space message) eqn:Ef; [|reflexivity].
      apply trim_nil in Ef. congruence. }
    split; [reflexivity|]. split; [discriminate|]. split.
    { rewrite <- E. apply trim_idem. }
    split.
    { intros c' t' [= <- _]. exact (trim_head message c t E). }
    split; [|reflexivity].
    intros l c' H. apply (trim_last message l c'). congruence.
  - unfold handleSubmit. rewrite <- trim_nil.
    destruct (trim message) as [|c t]; simpl; [tauto|].
    destruct isLoading; simpl; split; auto;
      [discriminate | intros [H|H]; discriminate].
  - intros args. unfold handleCreateBranch.
    destruct (forallb is_space branchName) eqn:Ef.
    + rewrite (proj2 (trim_nil branchName) Ef). split; [discriminate|].
      intros (messageId & _ & H & _). discriminate.
    + destruct (trim branchName) as [|c t] eqn:E.
      { apply trim_nil in E. congruence. }
      destruct selected as [messageId|]; split.
      * intros [= <-]. eauto.
      * intros (messageId' & [= <-] & _ & ->). reflexivity.
      * discriminate.
      * intros (messageId' & H & _). discriminate.
Qed.

(* ===================================================================== *)
(** * Listing, branching and signing in *)
(* ===================================================================== *)

(** X24.  The sidebar and the chat view agree.  In a well-formed database
    a conversation is in the list [getUserConversations] returns to a
    user exactly when [getConversation] opens it for that user. *)
Theorem listed_iff_openable u cid db :
  wf db ->
  exists listed,
    getUserConversations (Some u) db = Ok (listed, db)
    /\ (In cid (map c_id listed) <->
        exists c msgs, getConversation (Some u) cid db = Ok ((c, msgs), db)).
Proof.
  intros (_ & (_ & Uc & _)). eexists. split; [reflexivity|]. split.
  - intros Hin. apply in_map_iff in Hin. destruct Hin as [c [Hid Hin]].
    apply filter_In in Hin. destruct Hin as [Hin Hu].
    apply Nat.eqb_eq in Hu.
    destruct (tbl_get_In c_id c (conversations db) Hin) as [c' Hc'].
    rewrite Hid in Hc'.
    pose proof (tbl_get_Some c_id _ _ _ Hc') as [Hin' Hid'].
    assert (c' = c)
      by (apply (NoDup_map_inj c_id (conversations db)); auto; congruence).
    subst c'. exists c. eexists.
    unfold getConversation. simpl getAuthUserId.
    unfold bind at 1. unfold ret at 1. unfold bind at 1.
    rewrite (owned_conversation_Ok u cid _ db c Hc' Hu). reflexivity.
  - intros (c & msgs & E). unfold getConversation in E.
    simpl getAuthUserId in E. unfold bind at 1 in E. unfold ret at 1 in E.
    unfold bind at 1 in E.
    destruct (owned_conversation_state u cid ConversationNotFound db)
      as [(c0 & Ho & Hc & Hu) | Ho]; rewrite Ho in E; [|discriminate].
    apply tbl_get_Some in Hc. destruct Hc as [Hin <-].
    apply in_map, filter_In. split; [exact Hin | now apply Nat.eqb_eq].
Qed.

(** X25.  [createBranch] returns exactly when the caller is signed in,
    owns the parent conversation, and the message to branch from is a
    message of that parent; the copy loop and the three inserts never
    throw. *)
Theorem createBranch_returns_iff auth parent bm name db :
  (exists r db', createBranch auth parent bm name db = Ok (r, db'))
  <-> exists u c m,
        auth = Some u
        /\ tbl_get c_id parent (conversations db) = Some c /\ c_userId c = u
        /\ tbl_get m_id bm (messages db) = Some m
        /\ m_conversationId m = parent.
Proof.
  split.
  - intros ([bid cid] & db' & E). apply createBranch_inv in E.
    destruct E as (u & c & m & -> & Hc & Hu & Hm & Hp & _).
    exists u, c, m. auto.
  - intros (u & c & m & -> & Hc & Hu & Hm & Hp).
    unfold createBranch. simpl getAuthUserId.
    unfold bind at 1. unfold ret at 1. unfold bind at 1.
    rewrite (owned_conversation_Ok u parent _ db c Hc Hu).
    unfold bind at 1. unfold get_message. rewrite Hm.
    rewrite Hp, Nat.eqb_refl. cbn [negb].
    unfold bind at 1. unfold insert_conversation.
    unfold bind at 1. unfold by_conversation.
    unfold bind at 1. rewrite copy_loop.
    unfold bind, insert_branch, ret. eexists. eexists. reflexivity.
Qed.

(** X26.  Every query and mutation of conversations.ts and settings.ts,
    and [sendMessage], starts by checking the caller: without a signed-in
    user each throws "Not authenticated", and nothing is stored or sent.
    ([testApiKey] takes no identity and makes no such check.) *)
Theorem unauthenticated_rejected net db s w :
  getUserConversations None db = Err NotAuthenticated
  /\ (forall cid, getConversation None cid db = Err NotAuthenticated)
  /\ (forall title pb bm,
        createConversation None title pb bm db = Err NotAuthenticated)
  /\ (forall cid title,
        updateConversation None cid title db = Err NotAuthenticated)
  /\ (forall cid content role provider model,
        addMessage None cid content role provider model db
        = Err NotAuthenticated)
  /\ (forall cid m name, createBranch None cid m name db = Err NotAuthenticated)
  /\ (forall cid, getBranches None cid db = Err NotAuthenticated)
  /\ (forall cid, deleteConversation None cid db = Err NotAuthenticated)
  /\ (forall cid, duplicateConversation None cid db = Err NotAuthenticated)
  /\ getApiKeys None db = Err NotAuthenticated
  /\ (forall provider, getApiKey None provider db = Err NotAuthenticated)
  /\ (forall provider key, saveApiKey None provider key db = Err NotAuthenticated)
  /\ (forall keyId, deleteApiKey None keyId db = Err NotAuthenticated)
  /\ getUserSettings None s = Err NotAuthenticated
  /\ (forall args, updateUserSettings None args s = Err NotAuthenticated)
  /\ (forall cid message provider model,
        sendMessage net None cid message provider model w
        = (Err NotAuthenticated, w)).
Proof.
  repeat split.
Qed.

(* ===================================================================== *)
(** * The further statements at concrete inputs *)
(* ===================================================================== *)

Lemma reachable_stranded_db : reachable stranded_db.
Proof. apply reachable_step, reachable_tree_db. Qed.

Lemma store_reachable_settings_store : store_reachable settings_store.
Proof. exists settings_history. reflexivity. Qed.

Lemma foreign_conversation_rejected_witness :
  (forall c, tbl_get c_id 1 (conversations tree_db) = Some c -> c_userId c <> 2)
  /\ getConversation (Some 2) 1 tree_db = Err ConversationNotFound
  /\ deleteConversation (Some 2) 1 tree_db = Err ConversationNotFound.
Proof.
  assert (H : forall c, tbl_get c_id 1 (conversations tree_db) = Some c ->
                        c_userId c <> 2).
  { intros c E. vm_compute in E. injection E as <-. simpl. lia. }
  destruct (foreign_conversation_rejected 2 1 tree_db H)
    as (Hg & _ & _ & _ & Hd & _).
  split; [exact H|]. split; [exact Hg | exact Hd].
Defined.

Lemma createConversation_then_open_witness :
  wf chat_db
  /\ exists db',
      createConversation (Some 1) (lit "Sorting") None None chat_db
      = Ok (4, db')
      /\ getConversation (Some 1) 4 db'
         = Ok ((mkConversation 4 1 (lit "Sorting") None None, []), db').
Proof.
  assert (W : wf chat_db) by apply (reachable_inv _ reachable_chat_db).
  destruct (createConversation_then_open 1 (lit "Sorting") None None chat_db W)
    as (db' & E & _ & Hg & _).
  split; [exact W|]. exists db'. split; [exact E | exact Hg].
Defined.

Lemma updateConversation_renames_witness :
  tbl_get c_id 1 (conversations chat_db)
  = Some (mkConversation 1 1 (lit "Explain quicksort") None None)
  /\ exists db',
      updateConversation (Some 1) 1 (lit "Sorting") chat_db = Ok (tt, db')
      /\ tbl_get c_id 1 (conversations db')
         = Some (mkConversation 1 1 (lit "Sorting") None None)
      /\ messages db' = messages chat_db.
Proof.
  assert (H : tbl_get c_id 1 (conversations chat_db)
              = Some (mkConversation 1 1 (lit "Explain quicksort") None None))
    by reflexivity.
  destruct (updateConversation_renames 1 1 (lit "Sorting") chat_db _ H eq_refl)
    as (db' & E & Ht & _ & Hm & _).
  split; [exact H|]. exists db'. split; [exact E|]. split; [exact Ht|exact Hm].
Defined.

Lemma addMessage_appends_to_log_witness :
  reachable chat_db
  /\ exists c',
      getConversation (Some 1) 1
        (step (AddMessage (Some 1) 1 (lit "And mergesort?") role_user
                          None None) chat_db)
      = Ok ((c', sort_by_index (messages_of 1 chat_db)
                 ++ [mkMessage 4 1 (lit "And mergesort?") role_user None None
                               2 None]),
            step (AddMessage (Some 1) 1 (lit "And mergesort?") role_user
                             None None) chat_db).
Proof.
  split; [exact reachable_chat_db|].
  destruct (addMessage_appends_to_log (Some 1) 1 (lit "And mergesort?")
              role_user None None chat_db 4
              (step (AddMessage (Some 1) 1 (lit "And mergesort?") role_user
                                None None) chat_db)
              reachable_chat_db eq_refl) as (c' & Hg & _).
  exists c'. exact Hg.
Defined.

Lemma duplicateConversation_copies_all_witness :
  wf five_db
  /\ duplicateConversation (Some 1) 1 five_db
     = Ok (7, step (DuplicateConversation (Some 1) 1) five_db)
  /\ map payload
       (messages_of 7 (step (DuplicateConversation (Some 1) 1) five_db))
     = map payload (sort_by_index (messages_of 1 five_db))
  /\ branches (step (DuplicateConversation (Some 1) 1) five_db)
     = branches five_db.
Proof.
  assert (W : wf five_db) by apply (reachable_inv _ reachable_five_db).
  assert (E : duplicateConversation (Some 1) 1 five_db
              = Ok (7, step (DuplicateConversation (Some 1) 1) five_db))
    by (vm_compute; reflexivity).
  destruct (duplicateConversation_copies_all (Some 1) 1 five_db 7 _ W E)
    as (c & _ & _ & _ & Hp & _ & _ & Hb).
  split; [exact W|]. split; [exact E|]. split; [exact Hp | exact Hb].
Defined.

Lemma createBranch_records_link_witness :
  wf five_db
  /\ createBranch (Some 1) 1 4 (lit "alt") five_db
     = Ok ((11, 7), step (CreateBranch (Some 1) 1 4 (lit "alt")) five_db)
  /\ branches (step (CreateBranch (Some 1) 1 4 (lit "alt")) five_db)
     = branches five_db ++ [mkBranch 11 1 1 7 4 (lit "alt") true].
Proof.
  assert (W : wf five_db) by apply (reachable_inv _ reachable_five_db).
  assert (E : createBranch (Some 1) 1 4 (lit "alt") five_db
              = Ok ((11, 7), step (CreateBranch (Some 1) 1 4 (lit "alt"))
                                  five_db))
    by (vm_compute; reflexivity).
  destruct (createBranch_records_link (Some 1) 1 4 (lit "alt") five_db 11 7
              _ W E) as (u & c & [= <-] & _ & _ & Hb & _).
  split; [exact W|]. split; [exact E | exact Hb].
Defined.

Lemma createBranch_rejects_foreign_message_witness :
  tbl_get c_id 7 (conversations tree_db)
  = Some (mkConversation 7 1 (lit "Explain quicksort - alt") None (Some 4))
  /\ (forall m, tbl_get m_id 4 (messages tree_db) = Some m ->
                m_conversationId m <> 7)
  /\ createBranch (Some 1) 7 4 (lit "again") tree_db
     = Err BranchMessageNotFound.
Proof.
  assert (Hc : tbl_get c_id 7 (conversations tree_db)
               = Some (mkConversation 7 1 (lit "Explain quicksort - alt")
                                      None (Some 4))) by reflexivity.
  assert (Hm : forall m, tbl_get m_id 4 (messages tree_db) = Some m ->
                         m_conversationId m <> 7).
  { intros m E. vm_compute in E. injection E as <-. simpl. lia. }
  split; [exact Hc|]. split; [exact Hm|].
  exact (createBranch_rejects_foreign_message 1 7 4 (lit "again") tree_db _
           Hc eq_refl Hm).
Defined.

Lemma deleteConversation_returns_or_throws_witness :
  reachable stranded_db
  /\ tbl_get c_id 7 (conversations stranded_db) = None
  /\ exists i, deleteConversation (Some 1) 1 stranded_db
               = Err (NonexistentDocument i).
Proof.
  split; [exact reachable_stranded_db|]. split; [reflexivity|].
  destruct (deleteConversation_returns_or_throws 1 1 stranded_db
              (mkConversation 1 1 (lit "Explain quicksort") None None)
              reachable_stranded_db eq_refl eq_refl) as [_ H].
  apply (H 7); [vm_compute; left; reflexivity | vm_compute; reflexivity].
Defined.


Lemma deleting_duplicate_restores_witness :
  reachable tree_db
  /\ duplicateConversation (Some 1) 7 tree_db
     = Ok (15, step (DuplicateConversation (Some 1) 7) tree_db)
  /\ exists db2,
      deleteConversation (Some 1) 15
        (step (DuplicateConversation (Some 1) 7) tree_db) = Ok (tt, db2)
      /\ conversations db2 = conversations tree_db
      /\ messages db2 = messages tree_db.
Proof.
  assert (E : duplicateConversation (Some 1) 7 tree_db
              = Ok (15, step (DuplicateConversation (Some 1) 7) tree_db))
    by (vm_compute; reflexivity).
  destruct (deleting_duplicate_restores (Some 1) 7 tree_db 15 _
              reachable_tree_db E) as (db2 & E2 & Hc & Hm & _).
  split; [exact reachable_tree_db|]. split; [exact E|].
  exists db2. split; [exact E2|]. split; [exact Hc | exact Hm].
Defined.

Lemma saveApiKey_then_getApiKey_witness :
  reachable chat_db
  /\ exists db',
      saveApiKey (Some 1) (lit "google") (lit "g-key") chat_db = Ok (4, db')
      /\ getApiKey (Some 1) (lit "google") db'
         = Ok (Some (mkApiKey 4 1 (lit "google") (lit "g-key") true), db')
      /\ exists r,
          getApiKey (Some 1) (lit "openai") chat_db = Ok (r, chat_db)
          /\ getApiKey (Some 1) (lit "openai") db' = Ok (r, db').
Proof.
  split; [exact reachable_chat_db|].
  destruct (saveApiKey_then_getApiKey 1 (lit "google") (lit "g-key") chat_db
              reachable_chat_db) as (db' & E & Hg & Hother).
  exists db'. split; [exact E|]. split; [exact Hg|].
  apply Hother. right. vm_compute. discriminate.
Defined.

Lemma deleteApiKey_leaves_no_active_witness :
  reachable (step (SaveApiKey (Some 1) (lit "openai") (lit "sk-new")) chat_db)
  /\ exists db',
      deleteApiKey (Some 1) 4
        (step (SaveApiKey (Some 1) (lit "openai") (lit "sk-new")) chat_db)
      = Ok (tt, db')
      /\ map ak_id (apiKeys db') = [0]
      /\ getApiKey (Some 1) (lit "openai") db' = Ok (None, db').
Proof.
  assert (R : reachable (step (SaveApiKey (Some 1) (lit "openai")
                                          (lit "sk-new")) chat_db))
    by apply reachable_step, reachable_chat_db.
  destruct (deleteApiKey_leaves_no_active 1 4 _
              (mkApiKey 4 1 (lit "openai") (lit "sk-new") true)
              R eq_refl eq_refl) as (db' & E & Hk & _ & _ & _ & Hnone).
  split; [exact R|]. exists db'. split; [exact E|]. split.
  - rewrite Hk. reflexivity.
  - exact (Hnone eq_refl).
Defined.

Lemma sendMessage_stores_exchange_witness :
  registered (lit "openai") = true
  /\ exists r db2,
      sendMessage (always_replies (lit "Mergesort splits and merges."))
                  (Some 1) 1 (lit "And mergesort?") (lit "openai")
                  (lit "gpt-4o-mini") (mkWorld chat_db [])
      = (Ok (JString (lit "Mergesort splits and merges.")), mkWorld db2 [r])
      /\ map m_role (messages db2)
         = [role_user; role_assistant; role_user; role_assistant]
      /\ map m_messageIndex (messages db2) = [0; 1; 2; 3].
Proof.
  split; [reflexivity|].
  destruct (sendMessage_stores_exchange
              (always_replies (lit "Mergesort splits and merges."))
              1 1 (lit "And mergesort?") (lit "openai") (lit "gpt-4o-mini")
              chat_db [] (mkApiKey 0 1 (lit "openai") (lit "sk-test") true)
              (mkConversation 1 1 (lit "Explain quicksort") None None)
              (lit "Mergesort splits and merges.")
              eq_refl eq_refl eq_refl eq_refl
              (fun r => ex_intro _ 200%N (ex_intro _ (lit "") eq_refl)))
    as (r & db2 & Hrun & Hm & _).
  exists r, db2. split; [exact Hrun|]. rewrite Hm. split; reflexivity.
Defined.

Lemma sendMessage_foreign_conversation_witness :
  hd_error (active_keys 1 (lit "openai") tree_db)
  = Some (mkApiKey 0 1 (lit "openai") (lit "sk-test") true)
  /\ sendMessage unauthorized (Some 1) 99 (lit "Hello") (lit "openai")
                 (lit "gpt-4o-mini") (mkWorld tree_db [])
     = (Err ConversationNotFound, mkWorld tree_db []).
Proof.
  split; [reflexivity|].
  apply (sendMessage_foreign_conversation unauthorized 1 99 (lit "Hello")
           (lit "openai") (lit "gpt-4o-mini") tree_db []
           (mkApiKey 0 1 (lit "openai") (lit "sk-test") true) eq_refl).
  intros c E. vm_compute in E. discriminate.
Defined.

Lemma settings_single_document_witness :
  store_reachable settings_store
  /\ map us_userId (userSettings settings_store) = [2; 1]
  /\ exists s',
      updateUserSettings (Some 1) dark_settings settings_store = Ok (tt, s')
      /\ settings_of 2 s' = settings_of 2 settings_store
      /\ messages (core s') = messages (core settings_store).
Proof.
  split; [exact store_reachable_settings_store|]. split; [reflexivity|].
  destruct (settings_single_document settings_store 1 dark_settings
              store_reachable_settings_store)
    as (_ & s' & E & _ & Hother & _ & Hm & _).
  exists s'. split; [exact E|]. split; [|exact Hm].
  apply Hother. lia.
Defined.

Lemma store_invariants_witness :
  store_reachable settings_store
  /\ map m_messageIndex (messages_of 1 (core settings_store)) = [0; 1; 2]
  /\ settings_inv settings_store.
Proof.
  split; [exact store_reachable_settings_store|]. split; [reflexivity|].
  destruct (store_invariants settings_store store_reachable_settings_store)
    as (_ & _ & _ & SI).
  exact SI.
Defined.

Lemma display_order_is_log_order_witness :
  reachable five_db
  /\ exists c msgs,
      getConversation (Some 1) 1 five_db = Ok ((c, msgs), five_db)
      /\ map m_id (sortedMessages msgs) = [2; 3; 4; 5; 6].
Proof.
  split; [exact reachable_five_db|].
  exists (mkConversation 1 1 (lit "Explain quicksort") None None),
         (sort_by_index (messages_of 1 five_db)).
  assert (E : getConversation (Some 1) 1 five_db
              = Ok ((mkConversation 1 1 (lit "Explain quicksort") None None,
                     sort_by_index (messages_of 1 five_db)), five_db))
    by (vm_compute; reflexivity).
  split; [exact E|].
  destruct (display_order_is_log_order (Some 1) 1 five_db _ _ _
              reachable_five_db E) as (_ & -> & _).
  reflexivity.
Defined.

Lemma listed_iff_openable_witness :
  wf tree_db
  /\ exists listed,
      getUserConversations (Some 1) tree_db = Ok (listed, tree_db)
      /\ map c_id listed = [1; 7; 12]
      /\ exists c msgs,
          getConversation (Some 1) 12 tree_db = Ok ((c, msgs), tree_db).
Proof.
  assert (W : wf tree_db) by apply (reachable_inv _ reachable_tree_db).
  destruct (listed_iff_openable 1 12 tree_db W) as (listed & E & Hiff).
  split; [exact W|]. exists listed. split; [exact E|].
  assert (Hl : map c_id listed = [1; 7; 12]).
  { vm_compute in E. injection E as <-. reflexivity. }
  split; [exact Hl|].
  apply Hiff. rewrite Hl. simpl. auto.
Defined.

(** A stranded parent can still disappear through the cascade of its own
    parent; deleting it then throws "Conversation not found", and its
    stranded record is still stored. *)
Example stranded_parent_removed_by_cascade :
  let db := run_ops [DeleteConversation (Some 1) 12;
                     DeleteConversation (Some 1) 1] tree_db in
  conversations db = []
  /\ map b_id (branches db) = [14]
  /\ deleteConversation (Some 1) 7 db = Err ConversationNotFound.
Proof. repeat split; vm_compute; reflexivity. Qed.
